(** * US accidents risk analysis: the loader and the risk analyzer

    A shallow embedding of [accidents/data_loader.py] and
    [accidents/analyzer.py].  The Python code is a thin layer over SQL
    text that an embedded columnar engine executes; the embedding has
    three layers:

    - [Sql]: tables, values and the relational operators the queries use
      (WHERE, GROUP BY, aggregates, window functions, ORDER BY);
    - [Loader]: [DataLoader], in particular [validate_data];
    - [Analyzer]: [RiskAnalyzer], its lazy load state and its five
      aggregation methods.

    What the engine leaves open (the order in which a hash aggregate
    hands out its groups, and so the order of rows that tie under ORDER
    BY) is a field of [Engine]; every statement below holds for every
    engine unless it names one. *)

From Stdlib Require Import ZArith QArith List String Ascii Bool Lia.
From Stdlib Require Import Permutation Sorting.Sorted.
From Stdlib Require OrderedTypeEx.
Import ListNotations.

Local Open Scope string_scope.
Local Open Scope list_scope.
Local Open Scope Z_scope.

(** ** Exceptions and outcomes *)

(** The exceptions that cross the two classes.  [QueryError c] is the
    engine's binder error for a column [c] that the FROM relation does not
    have; [BinderError c] is its binder error for an aggregate or a
    comparison that does not accept the type of column [c];
    [ConversionException c] is raised when a query is run that compares
    column [c], which is not text, with a string that does not convert to
    its type; [LoadError] is whatever [read_csv_auto] raises on a file it
    cannot ingest; [ConnectionError] is a query on a connection that is
    closed or does not hold the relation.  [OutsideModel s] is no
    exception of the program: it marks a query whose text [s] is outside
    the part of SQL that is read here, and nothing is stated about what
    the program does with it. *)
Inductive Exn : Type :=
| FileNotFoundError (path : string)
| LoadError (path : string)
| QueryError (column : string)
| ConnectionError
| ZeroDivisionError
| BinderError (column : string)
| ConversionException (column : string)
| OutsideModel (text : string).

Inductive Outcome (A : Type) : Type :=
| Ok (a : A)
| Raise (e : Exn).
Arguments Ok {A} a.
Arguments Raise {A} e.

Definition bind {A B : Type} (m : Outcome A) (f : A -> Outcome B) : Outcome B :=
  match m with
  | Ok a => f a
  | Raise e => Raise e
  end.

Declare Scope outcome_scope.
Delimit Scope outcome_scope with outcome.
Notation "x <- m ;; k" := (bind m (fun x => k))
  (at level 61, m at next level, right associativity) : outcome_scope.
Local Open Scope outcome_scope.

Fixpoint mapM {A B : Type} (f : A -> Outcome B) (l : list A) : Outcome (list B) :=
  match l with
  | [] => Ok []
  | a :: l' => b <- f a ;; bs <- mapM f l' ;; Ok (b :: bs)
  end.

(** ** Generic list machinery: sorting, first-occurrence grouping *)

Definition le_of {A : Type} (leb : A -> A -> bool) : A -> A -> Prop :=
  fun a b => leb a b = true.

Fixpoint insert_by {A : Type} (leb : A -> A -> bool) (x : A) (l : list A) : list A :=
  match l with
  | [] => [x]
  | y :: l' => if leb x y then x :: y :: l' else y :: insert_by leb x l'
  end.

(** ORDER BY as a stable sort of the rows the operator below emits. *)
Definition sort_by {A : Type} (leb : A -> A -> bool) (l : list A) : list A :=
  fold_right (insert_by leb) [] l.

Definition same_key {K : Type} (K_eq_dec : forall a b : K, {a = b} + {a <> b})
    (k k' : K) : bool :=
  if K_eq_dec k k' then true else false.

(** The distinct keys of a list, in order of first occurrence. *)
Fixpoint distinct {K : Type} (K_eq_dec : forall a b : K, {a = b} + {a <> b})
    (l : list K) : list K :=
  match l with
  | [] => []
  | k :: l' => k :: filter (fun k' => negb (same_key K_eq_dec k' k)) (distinct K_eq_dec l')
  end.

(** GROUP BY: one group per distinct key, holding the rows with that key. *)
Definition group_by {K R : Type} (K_eq_dec : forall a b : K, {a = b} + {a <> b})
    (key : R -> K) (rs : list R) : list (K * list R) :=
  map (fun k => (k, filter (fun r => same_key K_eq_dec (key r) k) rs))
      (distinct K_eq_dec (map key rs)).

(** ** The query engine: values, tables and operators *)

Module Sql.

(** A TIMESTAMP value, by its civil fields. *)
Record Timestamp : Type := mkTimestamp {
  ts_year : Z; ts_month : Z; ts_day : Z;
  ts_hour : Z; ts_minute : Z; ts_second : Z
}.

(** A cell of a relation.  [read_csv_auto] types every column, so a
    column holds values of one constructor and NULLs. *)
Inductive Value : Type :=
| VNull
| VInt (n : Z)
| VStr (s : string)
| VTs (t : Timestamp).

Definition Timestamp_eq_dec (a b : Timestamp) : {a = b} + {a <> b}.
Proof. decide equality; apply Z.eq_dec. Defined.

Definition Value_eq_dec (a b : Value) : {a = b} + {a <> b}.
Proof.
  decide equality; [apply Z.eq_dec | apply string_dec | apply Timestamp_eq_dec].
Defined.

Definition Key : Type := list Value.
Definition Key_eq_dec : forall a b : Key, {a = b} + {a <> b} :=
  list_eq_dec Value_eq_dec.

(** A row is positional; the schema names the positions. *)
Definition Row : Type := list Value.
Record Table : Type := mkTable { schema : list string; rows : list Row }.

(** *** Timestamps *)

(** Days from 1970-01-01 to a civil date (proleptic Gregorian). *)
Definition days_from_civil (y m d : Z) : Z :=
  let y' := if m <=? 2 then y - 1 else y in
  let era := y' / 400 in
  let yoe := y' - era * 400 in
  let doy := (153 * (if 2 <? m then m - 3 else m + 9) + 2) / 5 + d - 1 in
  let doe := yoe * 365 + yoe / 4 - yoe / 100 + doy in
  era * 146097 + doe - 719468.

Definition epoch_seconds (t : Timestamp) : Z :=
  days_from_civil (ts_year t) (ts_month t) (ts_day t) * 86400
  + ts_hour t * 3600 + ts_minute t * 60 + ts_second t.

Inductive DatePart : Type := Year | Month | Hour | Dow.

(** [EXTRACT(dow ...)] counts from Sunday = 0; 1970-01-01 was a Thursday. *)
Definition date_part (p : DatePart) (t : Timestamp) : Z :=
  match p with
  | Year => ts_year t
  | Month => ts_month t
  | Hour => ts_hour t
  | Dow => (days_from_civil (ts_year t) (ts_month t) (ts_day t) + 4) mod 7
  end.

(** [EXTRACT(p FROM v::TIMESTAMP)]; NULL in, NULL out. *)
Definition extract (p : DatePart) (v : Value) : Value :=
  match v with
  | VTs t => VInt (date_part p t)
  | _ => VNull
  end.

(** *** Column references *)

(** The engine compares identifiers without regard to case. *)
Definition lower_ascii (a : ascii) : ascii :=
  let n := nat_of_ascii a in
  if (Nat.leb 65 n && Nat.leb n 90)%bool then ascii_of_nat (n + 32)%nat else a.

Fixpoint lower (s : string) : string :=
  match s with
  | EmptyString => EmptyString
  | String a s' => String (lower_ascii a) (lower s')
  end.

Definition same_name (a b : string) : bool := String.eqb (lower a) (lower b).

Fixpoint index_of (c : string) (sch : list string) : option nat :=
  match sch with
  | [] => None
  | c' :: sch' =>
      if same_name c c' then Some O else option_map S (index_of c sch')
  end.

(** Binding a column reference against the FROM relation. *)
Definition column (t : Table) (c : string) : Outcome (Row -> Value) :=
  match index_of c (schema t) with
  | Some i => Ok (fun r => nth i r VNull)
  | None => Raise (QueryError c)
  end.

(** The cell of column [c] in row [r]; NULL when there is no such column. *)
Definition cell (t : Table) (c : string) (r : Row) : Value :=
  match index_of c (schema t) with
  | Some i => nth i r VNull
  | None => VNull
  end.

(** Whether a reference to [c] binds. *)
Definition has_column (t : Table) (c : string) : bool :=
  match index_of c (schema t) with Some _ => true | None => false end.

(** [c in columns_info['column_name'].values]: the name as [DESCRIBE]
    lists it, compared by Python. *)
Definition listed (t : Table) (c : string) : bool :=
  existsb (String.eqb c) (schema t).

(** *** The types of columns

    [read_csv_auto] gives every column one type.  Of the engine's types
    the values here have three: a column with an integer, and nothing but
    integers and NULLs, is a number column (BIGINT); one with a timestamp,
    and nothing but timestamps and NULLs, a TIMESTAMP column; any other is
    text (VARCHAR), in particular every column of a relation with no row
    and every column of NULLs. *)
Definition is_null (v : Value) : bool :=
  match v with VNull => true | _ => false end.
Definition is_int (v : Value) : bool :=
  match v with VInt _ => true | _ => false end.
Definition is_ts (v : Value) : bool :=
  match v with VTs _ => true | _ => false end.

Definition numeric (vs : list Value) : bool :=
  existsb is_int vs && forallb (fun v => is_int v || is_null v) vs.
Definition temporal (vs : list Value) : bool :=
  existsb is_ts vs && forallb (fun v => is_ts v || is_null v) vs.
Definition textual (vs : list Value) : bool :=
  negb (numeric vs || temporal vs).

(** [AVG(c)] and [c >= 3] bind on a number column only. *)
Definition number_column (t : Table) (c : string) (f : Row -> Value) : Outcome unit :=
  if numeric (map f (rows t)) then Ok tt else Raise (BinderError c).

(** [c = ''] on a column that is not text makes the engine convert the
    empty string to the column's type when the query runs, which fails. *)
Definition text_column (t : Table) (c : string) (f : Row -> Value) : Outcome unit :=
  if textual (map f (rows t)) then Ok tt else Raise (ConversionException c).

(** [c::TIMESTAMP] leaves a timestamp as it is, and NULL is cast to NULL.
    What the cast makes of a number or of a string is not read here: a
    column passes when it is a column of timestamps or holds no value. *)
Definition timestamps (vs : list Value) : bool :=
  temporal vs || forallb is_null vs.

Definition timestamp_cast (t : Table) (c : string) (f : Row -> Value) : Outcome unit :=
  if timestamps (map f (rows t)) then Ok tt
  else Raise (OutsideModel (c ++ "::TIMESTAMP")).

(** *** Predicates of the WHERE clauses (true only when SQL says TRUE) *)

(** [v IS NOT NULL] *)
Definition is_not_null (v : Value) : bool :=
  match v with VNull => false | _ => true end.

(** [v != ''] *)
Definition ne_empty (v : Value) : bool :=
  match v with
  | VNull => false
  | VStr s => negb (String.eqb s "")
  | _ => true
  end.

(** [v IS NULL OR v = ''] *)
Definition is_missing (v : Value) : bool :=
  match v with
  | VNull => true
  | VStr s => String.eqb s ""
  | _ => false
  end.

(** [v >= 3] *)
Definition ge3 (v : Value) : bool :=
  match v with VInt n => 3 <=? n | _ => false end.

(** *** Ordering of values (ASC, NULLS LAST) *)

Definition type_rank (v : Value) : Z :=
  match v with VInt _ => 0 | VStr _ => 1 | VTs _ => 2 | VNull => 3 end.

Definition value_leb (a b : Value) : bool :=
  match a, b with
  | VInt x, VInt y => x <=? y
  | VStr x, VStr y => String.leb x y
  | VTs x, VTs y => epoch_seconds x <=? epoch_seconds y
  | _, _ => type_rank a <=? type_rank b
  end.

(** *** Aggregates *)

(** [COUNT( * )] *)
Definition count_star {A : Type} (rs : list A) : Z := Z.of_nat (List.length rs).

Definition ints (vs : list Value) : list Z :=
  flat_map (fun v => match v with VInt n => [n] | _ => [] end) vs.

Definition sum_Z (ns : list Z) : Z := fold_right Z.add 0 ns.

(** [AVG(x)]: the mean of the non-NULL values, NULL when there is none. *)
Definition avg (vs : list Value) : option Q :=
  match ints vs with
  | [] => None
  | ns => Some (inject_Z (sum_Z ns) / inject_Z (count_star ns))%Q
  end.

(** [MIN(x)] and [MAX(x)] over the non-NULL values, NULL when there is none. *)
Definition min_value (vs : list Value) : Value :=
  fold_right (fun v acc =>
    match v, acc with
    | VNull, _ => acc
    | _, VNull => v
    | _, _ => if value_leb v acc then v else acc
    end) VNull vs.

Definition max_value (vs : list Value) : Value :=
  fold_right (fun v acc =>
    match v, acc with
    | VNull, _ => acc
    | _, VNull => v
    | _, _ => if value_leb acc v then v else acc
    end) VNull vs.

(** [COUNT(DISTINCT x)] over the non-NULL values. *)
Definition count_distinct (vs : list Value) : Z :=
  count_star (distinct Value_eq_dec (filter is_not_null vs)).

(** *** What the engine leaves open *)

(** A hash aggregate or a window operator hands its rows on in an order
    of its own; ORDER BY then sorts what it is handed, so rows that tie
    keep the engine's order.  [emit] is that order. *)
Record Engine : Type := mkEngine {
  emit : forall A : Type, list A -> list A;
  emit_perm : forall (A : Type) (l : list A), Permutation (emit A l) l
}.
Arguments emit e {A} l.

(** Groups come out in order of first occurrence. *)
Definition fifo : Engine :=
  mkEngine (fun _ l => l) (fun _ l => Permutation_refl l).

(** Groups come out last one first. *)
Definition lifo : Engine :=
  mkEngine (fun _ l => rev l) (fun _ l => Permutation_sym (Permutation_rev l)).

(** [SELECT ... GROUP BY key], before ORDER BY. *)
Definition grouped (E : Engine) (key : Row -> Key) (rs : list Row)
  : list (Key * list Row) :=
  emit E (group_by Key_eq_dec key rs).

(** *** Facts *)
End Sql.

(** ** The world outside the two classes: files and engine connections *)

Module Env.
Import Sql.

(** [files] maps a path to what [read_csv_auto] makes of the file there:
    [Some t] for a delimited file that is ingested as relation [t],
    [None] for a file that exists and cannot be ingested.  [conns] are
    the open in-memory databases, each a list of named relations. *)
Record World : Type := mkWorld {
  files : list (string * option Table);
  next_conn : nat;
  conns : list (nat * list (string * Table))
}.

Fixpoint lookup {A : Type} (k : string) (l : list (string * A)) : option A :=
  match l with
  | [] => None
  | (k', a) :: l' => if String.eqb k k' then Some a else lookup k l'
  end.

Fixpoint lookup_conn {A : Type} (h : nat) (l : list (nat * A)) : option A :=
  match l with
  | [] => None
  | (h', a) :: l' => if Nat.eqb h h' then Some a else lookup_conn h l'
  end.

(** [Path.exists()] *)
Definition exists_file (w : World) (path : string) : bool :=
  match lookup path (files w) with Some _ => true | None => false end.

(** [read_csv_auto(path)] *)
Definition read_csv_auto (w : World) (path : string) : Outcome Table :=
  match lookup path (files w) with
  | Some (Some t) => Ok t
  | _ => Raise (LoadError path)
  end.

(** [duckdb.connect()]: a fresh, empty in-memory database. *)
Definition connect (w : World) : nat * World :=
  (next_conn w,
   mkWorld (files w) (S (next_conn w)) ((next_conn w, []) :: conns w)).

(** [conn.close()] *)
Definition close_conn (h : nat) (w : World) : World :=
  mkWorld (files w) (next_conn w)
          (filter (fun c => negb (Nat.eqb (fst c) h)) (conns w)).

(** [CREATE TABLE name AS SELECT * FROM read_csv_auto(path)] on [h]. *)
Definition create_table (h : nat) (name : string) (t : Table) (w : World) : World :=
  mkWorld (files w) (next_conn w)
          (map (fun c => if Nat.eqb (fst c) h
                         then (fst c, (name, t) :: snd c) else c) (conns w)).

Definition is_open (w : World) (h : nat) : bool :=
  match lookup_conn h (conns w) with Some _ => true | None => false end.

(** The relation [name] of connection [h], when the connection is open
    and has it. *)
Definition relation (w : World) (h : nat) (name : string) : option Table :=
  match lookup_conn h (conns w) with
  | Some db => lookup name db
  | None => None
  end.
End Env.

(** ** [accidents/data_loader.py] *)

Module Loader.
Import Sql Env.

Record DataLoader : Type := mkDataLoader { data_path : string }.

(** [DataLoader.__init__] *)
Definition init (path : string) (w : World) : Outcome DataLoader :=
  if exists_file w path then Ok (mkDataLoader path)
  else Raise (FileNotFoundError path).

(** [DataLoader.load_to_duckdb]: on success the caller owns the open
    connection; on failure the connection is closed before the
    exception is raised again. *)
Definition load_to_duckdb (dl : DataLoader) (table_name : string) (w : World)
  : Outcome nat * World :=
  let '(h, w1) := connect w in
  match read_csv_auto w1 (data_path dl) with
  | Ok t => (Ok h, create_table h table_name t w1)
  | Raise e => (Raise e, close_conn h w1)
  end.

(** One entry of [validation_results['missing_values']]. *)
Record Missing : Type := mkMissing { count : Z; percentage : Q }.

Record Report : Type := mkReport {
  total_rows : Z;
  missing_values : list (string * Missing);
  data_types : list (string * Value);
  value_ranges : list (string * Value);
  date_range : option (Value * Value);
  severity_range : option (Value * Value * Z);
  unique_states : option Z
}.

Definition key_columns : list string :=
  ["ID"; "Start_Time"; "State"; "Severity"; "Weather_Condition"].

(** Python's [a / b] on integers. *)
Definition true_div (a b : Z) : Outcome Q :=
  if b =? 0 then Raise ZeroDivisionError
  else Ok (inject_Z a / inject_Z b)%Q.

(** The body of the loop over [key_columns]: a column that [DESCRIBE]
    lists gets an entry, another one is passed over.  The count is a query
    that compares the column with [''], so it needs a text column. *)
Definition check_missing (t : Table) (total : Z) (col : string)
                         (acc : list (string * Missing))
  : Outcome (list (string * Missing)) :=
  if listed t col then
    f <- column t col ;;
    _ <- text_column t col f ;;
    let missing := count_star (filter (fun r => is_missing (f r)) (rows t)) in
    q <- true_div missing total ;;
    Ok (acc ++ [(col, mkMissing missing (q * 100)%Q)])
  else Ok acc.

Fixpoint check_all (t : Table) (total : Z) (cols : list string)
                   (acc : list (string * Missing))
  : Outcome (list (string * Missing)) :=
  match cols with
  | [] => Ok acc
  | col :: cols' =>
      acc' <- check_missing t total col acc ;;
      check_all t total cols' acc'
  end.

(** [try: ... except: ... = None] *)
Definition try_or_None {A : Type} (m : Outcome A) : option A :=
  match m with Ok a => Some a | Raise _ => None end.

Definition date_range_query (t : Table) : Outcome (Value * Value) :=
  st <- column t "Start_Time" ;;
  let vs := filter is_not_null (map st (rows t)) in
  Ok (min_value vs, max_value vs).

Definition severity_range_query (t : Table) : Outcome (Value * Value * Z) :=
  sev <- column t "Severity" ;;
  let vs := filter is_not_null (map sev (rows t)) in
  Ok (min_value vs, max_value vs, count_distinct vs).

(** [State != ''] is run on the rows whose state is not NULL: on a
    column that is not text there is such a row, and the conversion fails. *)
Definition state_count_query (t : Table) : Outcome Z :=
  state <- column t "State" ;;
  _ <- text_column t "State" state ;;
  Ok (count_distinct
        (filter (fun v => is_not_null v && ne_empty v) (map state (rows t)))).

(** The key columns that [DESCRIBE] lists are text. *)
Definition text_key_columns (t : Table) : bool :=
  forallb (fun c => negb (listed t c) || textual (map (cell t c) (rows t))) key_columns.

(** The part of [validate_data] between the temporary load and the
    [finally]: the queries against [temp_accidents]. *)
Definition validate_table (t : Table) : Outcome Report :=
  let total := count_star (rows t) in
  missing <- check_all t total key_columns [] ;;
  Ok (mkReport total missing [] []
               (try_or_None (date_range_query t))
               (try_or_None (severity_range_query t))
               (try_or_None (state_count_query t))).

(** [DataLoader.validate_data]: a connection of its own, closed on every
    path; whatever is raised inside is raised again. *)
Definition validate_data (dl : DataLoader) (w : World) : Outcome Report * World :=
  let '(h, w1) := connect w in
  match read_csv_auto w1 (data_path dl) with
  | Ok t =>
      let w2 := create_table h "temp_accidents" t w1 in
      (validate_table t, close_conn h w2)
  | Raise e => (Raise e, close_conn h w1)
  end.
End Loader.

(** ** [accidents/analyzer.py] *)

Module Analyzer.
Import Sql Env.

(** *** The grouping columns of [compute_risk] *)

Definition year_item : string := "EXTRACT(year FROM Start_Time::TIMESTAMP) as year".
Definition month_item : string := "EXTRACT(month FROM Start_Time::TIMESTAMP) as month".
Definition hour_item : string := "EXTRACT(hour FROM Start_Time::TIMESTAMP) as hour".

(** ['Weather_Condition' in levels] *)
Definition mem (c : string) (l : list string) : bool := existsb (String.eqb c) l.

(** The list [group_cols] as the method builds it: the year item and the
    levels, then an [append], then an [extend]. *)
Definition group_cols (levels : list string) (include_weather include_time : bool)
  : list string :=
  let group_cols := [year_item] ++ levels in
  let group_cols :=
    if include_weather && negb (mem "Weather_Condition" levels)
    then group_cols ++ ["Weather_Condition"] else group_cols in
  let group_cols :=
    if include_time then group_cols ++ [month_item; hour_item] else group_cols in
  group_cols.

(** [col.split(' as ')[-1]]: what follows the last [" as "] of [col],
    scanning for separators from the left; [skip] counts the characters of
    a separator still to pass, [cur] is the text after the last one. *)
Fixpoint last_after_as (skip : nat) (s cur : string) : string :=
  match s with
  | EmptyString => cur
  | String _ s' =>
      match skip with
      | S k => last_after_as k s' cur
      | O =>
          if String.prefix " as " s
          then last_after_as 3 s' (String.substring 4 (String.length s - 4) s)
          else last_after_as 0 s' cur
      end
  end.

Definition split_as_last (col : string) : string := last_after_as 0 col col.

(** [', '.join(group_cols)] and [', '.join(col.split(' as ')[-1] ...)] *)
Definition select_cols (cols : list string) : string := String.concat ", " cols.
Definition group_by_cols (cols : list string) : string :=
  String.concat ", " (map split_as_last cols).

(** The levels are spliced into the text of the query, so the engine
    reads each of them as SQL.  Of that, two kinds of item are read here:
    the three derived fields, which the method writes itself, and a plain
    word that the grammar takes for nothing but a column reference: letters,
    digits and underscores, not beginning with a digit, no keyword, no
    function that is called without brackets, and not the output name of
    another item of the select list.  Any other text ([State as st],
    [Temperature(F)], an expression) is [Other]. *)
Definition is_letter (a : ascii) : bool :=
  let n := nat_of_ascii a in
  (Nat.leb 65 n && Nat.leb n 90) || (Nat.leb 97 n && Nat.leb n 122) || Nat.eqb n 95.

Definition is_digit (a : ascii) : bool :=
  let n := nat_of_ascii a in Nat.leb 48 n && Nat.leb n 57.

Fixpoint all_chars (p : ascii -> bool) (s : string) : bool :=
  match s with
  | EmptyString => true
  | String a s' => p a && all_chars p s'
  end.

Definition is_word (s : string) : bool :=
  match s with
  | EmptyString => false
  | String a s' => is_letter a && all_chars (fun b => is_letter b || is_digit b) s'
  end.

(** Words that the grammar does not read as a column reference, or not
    only as one: the keywords that are reserved or name types and
    functions, and the functions that are called without brackets. *)
Definition special_words : list string :=
  [ "all"; "analyse"; "analyze"; "and"; "anti"; "any"; "array"; "as"; "asc"; "asof";
    "asymmetric"; "authorization"; "between"; "bigint"; "binary"; "bit"; "boolean";
    "both"; "case"; "cast"; "char"; "character"; "check"; "coalesce"; "collate";
    "collation"; "column"; "columns"; "concurrently"; "constraint"; "create"; "cross";
    "current_catalog"; "current_date"; "current_role"; "current_schema";
    "current_time"; "current_timestamp"; "current_user"; "dec"; "decimal"; "default";
    "deferrable"; "desc"; "describe"; "distinct"; "do"; "else"; "end"; "except";
    "exists"; "extract"; "false"; "fetch"; "float"; "for"; "foreign"; "freeze"; "from";
    "full"; "generated"; "glob"; "grant"; "group"; "grouping"; "grouping_id"; "having";
    "ilike"; "in"; "initially"; "inner"; "inout"; "int"; "integer"; "intersect";
    "interval"; "into"; "is"; "isnull"; "join"; "lambda"; "lateral"; "leading"; "left";
    "like"; "limit"; "localtime"; "localtimestamp"; "map"; "national"; "natural";
    "nchar"; "none"; "not"; "notnull"; "null"; "nullif"; "numeric"; "offset"; "on";
    "only"; "or"; "order"; "out"; "outer"; "overlaps"; "overlay"; "pivot";
    "pivot_longer"; "pivot_wider"; "placing"; "position"; "positional"; "precision";
    "primary"; "qualify"; "real"; "references"; "returning"; "right"; "row"; "select";
    "semi"; "session_role"; "session_user"; "setof"; "show"; "similar"; "smallint";
    "some"; "struct"; "substring"; "summarize"; "symmetric"; "table"; "tablesample";
    "then"; "time"; "timestamp"; "to"; "trailing"; "treat"; "trim"; "true"; "try_cast";
    "union"; "unique"; "unpivot"; "user"; "using"; "values"; "varchar"; "variadic";
    "verbose"; "when"; "where"; "window"; "with"; "xmlattributes"; "xmlconcat";
    "xmlelement"; "xmlexists"; "xmlforest"; "xmlnamespaces"; "xmlparse"; "xmlpi";
    "xmlroot"; "xmlserialize"; "xmltable" ].

(** The output names of the select list of [compute_risk]. *)
Definition output_names : list string :=
  ["year"; "month"; "hour"; "accident_count"; "avg_severity"].

Definition plain_column (s : string) : bool :=
  is_word s && negb (mem (lower s) special_words) && negb (mem (lower s) output_names).

Inductive SelectItem : Type :=
| Derived (p : DatePart)
| ColumnRef (c : string)
| Other (text : string).

Definition parse_item (s : string) : SelectItem :=
  if String.eqb s year_item then Derived Year
  else if String.eqb s month_item then Derived Month
  else if String.eqb s hour_item then Derived Hour
  else if plain_column s then ColumnRef s
  else Other s.

Definition bind_item (t : Table) (s : string) : Outcome (Row -> Value) :=
  match parse_item s with
  | Derived p => st <- column t "Start_Time" ;; Ok (fun r => extract p (st r))
  | ColumnRef c => column t c
  | Other s => Raise (OutsideModel s)
  end.

(** The value of a select item on a row, NULL where it does not bind. *)
Definition item_value (t : Table) (s : string) (r : Row) : Value :=
  match parse_item s with
  | Derived p => extract p (cell t "Start_Time" r)
  | ColumnRef c => cell t c r
  | Other _ => VNull
  end.

(** *** Result rows *)

(** A row of [compute_risk] and of the four temporal breakdowns: the
    grouping values, [accident_count] and [avg_severity]. *)
Record AggRow : Type := mkAggRow {
  dims : Key;
  accident_count : Z;
  avg_severity : option Q
}.

Record RateRow : Type := mkRateRow {
  rate_year : Value;
  rate_state : Value;
  total_accidents : Z;
  severe_accidents : Z;
  severe_accident_rate : Q
}.

Record WeatherRow : Type := mkWeatherRow {
  w_state : Value;
  w_weather : Value;
  w_count : Z;
  w_avg_severity : option Q;
  state_percentage : Q;
  weather_rank : Z
}.

Record Patterns : Type := mkPatterns {
  hourly : list AggRow;
  daily : list AggRow;
  monthly : list AggRow;
  seasonal : list AggRow
}.

Record Summary : Type := mkSummary {
  report_total_accidents : Z;
  report_date_range : Value * Value;
  report_states_covered : Z;
  report_top_states : list (Value * Z);
  report_severity_distribution : list (Value * Z * Q)
}.

(** *** The WHERE clauses *)

(** [Start_Time IS NOT NULL AND State IS NOT NULL AND State != ''
     AND Severity IS NOT NULL] *)
Definition risk_where (st state sev : Value) : bool :=
  is_not_null st && (is_not_null state && ne_empty state) && is_not_null sev.

(** [State IS NOT NULL AND State != '' AND Weather_Condition IS NOT NULL
     AND Weather_Condition != '' AND Severity IS NOT NULL] *)
Definition weather_where (state weather sev : Value) : bool :=
  (is_not_null state && ne_empty state)
  && (is_not_null weather && ne_empty weather) && is_not_null sev.

(** [State IS NOT NULL AND State != ''] *)
Definition state_where (state : Value) : bool := is_not_null state && ne_empty state.

(** *** The ORDER BY clauses *)

Definition first_dim (a : AggRow) : Value := hd VNull (dims a).

(** [ORDER BY k, n DESC] on pairs of a value and a count. *)
Definition asc_then_count_desc (ka : Value) (na : Z) (kb : Value) (nb : Z) : bool :=
  if value_leb ka kb then (if value_leb kb ka then nb <=? na else true) else false.

(** [ORDER BY year, accident_count DESC] *)
Definition by_year_count (a b : AggRow) : bool :=
  asc_then_count_desc (first_dim a) (accident_count a) (first_dim b) (accident_count b).

(** [ORDER BY hour], [ORDER BY day_of_week], [ORDER BY month] *)
Definition by_key (a b : AggRow) : bool := value_leb (first_dim a) (first_dim b).

(** [ORDER BY accident_count DESC] *)
Definition by_count_desc (a b : AggRow) : bool := accident_count b <=? accident_count a.

(** *** The queries *)

Definition agg_row (sev : Row -> Value) (g : Key * list Row) : AggRow :=
  mkAggRow (fst g) (count_star (snd g)) (avg (map sev (snd g))).

(** The query of [compute_risk] on the relation [accidents].  The WHERE
    clause binds first, then the items in the order of the list, then the
    aggregates. *)
Definition compute_risk_query (E : Engine) (levels : list string)
    (include_weather include_time : bool) (t : Table) : Outcome (list AggRow) :=
  st <- column t "Start_Time" ;;
  state <- column t "State" ;;
  sev <- column t "Severity" ;;
  _ <- timestamp_cast t "Start_Time" st ;;
  items <- mapM (bind_item t) (group_cols levels include_weather include_time) ;;
  _ <- number_column t "Severity" sev ;;
  _ <- text_column t "State" state ;;
  let kept := filter (fun r => risk_where (st r) (state r) (sev r)) (rows t) in
  let key := fun r => map (fun item => item r) items in
  Ok (sort_by by_year_count (map (agg_row sev) (grouped E key kept))).

Definition rate_row (sev : Row -> Value) (g : Key * list Row) : RateRow :=
  let total := count_star (snd g) in
  let severe := count_star (filter (fun r => ge3 (sev r)) (snd g)) in
  mkRateRow (nth 0 (fst g) VNull) (nth 1 (fst g) VNull) total severe
            (inject_Z (severe * 100) / inject_Z total)%Q.

(** [ORDER BY year, total_accidents DESC] *)
Definition by_year_total (a b : RateRow) : bool :=
  asc_then_count_desc (rate_year a) (total_accidents a) (rate_year b) (total_accidents b).

Definition compute_state_risk_rates_query (E : Engine) (t : Table)
  : Outcome (list RateRow) :=
  st <- column t "Start_Time" ;;
  state <- column t "State" ;;
  sev <- column t "Severity" ;;
  _ <- timestamp_cast t "Start_Time" st ;;
  _ <- number_column t "Severity" sev ;;
  _ <- text_column t "State" state ;;
  let kept := filter (fun r => risk_where (st r) (state r) (sev r)) (rows t) in
  let key := fun r => [extract Year (st r); state r] in
  Ok (sort_by by_year_total (map (rate_row sev) (grouped E key kept))).

(** [v IN (a, b, c)] *)
Definition in_months (v : Value) (ms : list Z) : bool :=
  match v with VInt m => existsb (Z.eqb m) ms | _ => false end.

(** The CASE of the seasonal query; it has no ELSE. *)
Definition season (month : Value) : Value :=
  if in_months month [12; 1; 2] then VStr "Winter"
  else if in_months month [3; 4; 5] then VStr "Spring"
  else if in_months month [6; 7; 8] then VStr "Summer"
  else if in_months month [9; 10; 11] then VStr "Fall"
  else VNull.

(** The common shape of the four temporal queries: rows with a start
    time, grouped by one expression of it. *)
Definition temporal_query (E : Engine) (key : Value -> Value)
    (order : AggRow -> AggRow -> bool) (t : Table) : Outcome (list AggRow) :=
  st <- column t "Start_Time" ;;
  _ <- timestamp_cast t "Start_Time" st ;;
  sev <- column t "Severity" ;;
  _ <- number_column t "Severity" sev ;;
  let kept := filter (fun r => is_not_null (st r)) (rows t) in
  Ok (sort_by order (map (agg_row sev) (grouped E (fun r => [key (st r)]) kept))).

Definition compute_temporal_patterns_query (E : Engine) (t : Table) : Outcome Patterns :=
  h <- temporal_query E (extract Hour) by_key t ;;
  d <- temporal_query E (extract Dow) by_key t ;;
  m <- temporal_query E (extract Month) by_key t ;;
  s <- temporal_query E (fun v => season (extract Month v)) by_count_desc t ;;
  Ok (mkPatterns h d m s).

(** A (State, Weather_Condition) group before the window functions. *)
Record WeatherAgg : Type := mkWeatherAgg {
  wa_state : Value;
  wa_weather : Value;
  wa_count : Z;
  wa_avg : option Q
}.

Definition weather_agg (sev : Row -> Value) (g : Key * list Row) : WeatherAgg :=
  mkWeatherAgg (nth 0 (fst g) VNull) (nth 1 (fst g) VNull)
               (count_star (snd g)) (avg (map sev (snd g))).

Definition same_value (a b : Value) : bool := same_key Value_eq_dec a b.

(** [SUM(COUNT( * )) OVER (PARTITION BY State)] *)
Definition state_total (aggs : list WeatherAgg) (s : Value) : Z :=
  sum_Z (map wa_count (filter (fun a => same_value (wa_state a) s) aggs)).

(** [ROW_NUMBER() OVER (PARTITION BY State ...)] along rows that are
    already in the window's order: a row is numbered one more than the
    rows of its state before it ([seen] holds their states). *)
Fixpoint row_numbers (all : list WeatherAgg) (seen : list Value)
    (l : list WeatherAgg) : list WeatherRow :=
  match l with
  | [] => []
  | a :: l' =>
      mkWeatherRow (wa_state a) (wa_weather a) (wa_count a) (wa_avg a)
        (inject_Z (wa_count a * 100) / inject_Z (state_total all (wa_state a)))%Q
        (1 + count_star (filter (same_value (wa_state a)) seen))
      :: row_numbers all (wa_state a :: seen) l'
  end.

(** The window's [ORDER BY COUNT( * ) DESC] *)
Definition window_order (a b : WeatherAgg) : bool := wa_count b <=? wa_count a.

(** [ORDER BY State, accident_count DESC] *)
Definition by_state_count (a b : WeatherRow) : bool :=
  asc_then_count_desc (w_state a) (w_count a) (w_state b) (w_count b).

Definition compute_weather_risk_query (E : Engine) (t : Table)
  : Outcome (list WeatherRow) :=
  state <- column t "State" ;;
  weather <- column t "Weather_Condition" ;;
  sev <- column t "Severity" ;;
  _ <- number_column t "Severity" sev ;;
  _ <- text_column t "State" state ;;
  _ <- text_column t "Weather_Condition" weather ;;
  let kept := filter (fun r => weather_where (state r) (weather r) (sev r)) (rows t) in
  let aggs := map (weather_agg sev) (grouped E (fun r => [state r; weather r]) kept) in
  let windowed := row_numbers aggs [] (sort_by window_order (emit E aggs)) in
  Ok (sort_by by_state_count (emit E windowed)).

(** The five queries of [generate_summary_report], in its order. *)
Definition total_query (t : Table) : Z := count_star (rows t).

Definition date_range_query (t : Table) : Outcome (Value * Value) :=
  st <- column t "Start_Time" ;;
  let vs := filter is_not_null (map st (rows t)) in
  Ok (min_value vs, max_value vs).

Definition state_count_query (t : Table) : Outcome Z :=
  state <- column t "State" ;;
  _ <- text_column t "State" state ;;
  Ok (count_distinct (filter state_where (map state (rows t)))).

Definition top_states_query (E : Engine) (t : Table) : Outcome (list (Value * Z)) :=
  state <- column t "State" ;;
  _ <- text_column t "State" state ;;
  let kept := filter (fun r => state_where (state r)) (rows t) in
  let counts := map (fun g => (nth 0 (fst g) VNull, count_star (snd g)))
                    (grouped E (fun r => [state r]) kept) in
  Ok (firstn 10 (sort_by (fun a b => snd b <=? snd a) counts)).

Definition severity_dist_query (E : Engine) (t : Table)
  : Outcome (list (Value * Z * Q)) :=
  sev <- column t "Severity" ;;
  let kept := filter (fun r => is_not_null (sev r)) (rows t) in
  let counts := map (fun g => (nth 0 (fst g) VNull, count_star (snd g)))
                    (grouped E (fun r => [sev r]) kept) in
  let grand := sum_Z (map snd counts) in
  Ok (sort_by (fun a b => value_leb (fst (fst a)) (fst (fst b)))
        (map (fun c => (fst c, snd c, (inject_Z (snd c * 100) / inject_Z grand)%Q))
             counts)).

Definition generate_summary_report_query (E : Engine) (t : Table) : Outcome Summary :=
  let total := total_query t in
  range <- date_range_query t ;;
  states <- state_count_query t ;;
  top <- top_states_query E t ;;
  dist <- severity_dist_query E t ;;
  Ok (mkSummary total range states top dist).

(** *** The object and its load state *)

Record RiskAnalyzer : Type := mkRiskAnalyzer {
  data_loader : Loader.DataLoader;
  conn : option nat;
  _data_loaded : bool
}.

(** What a method leaves behind: its outcome, the object, the world. *)
Definition Step (A : Type) : Type := Outcome A * RiskAnalyzer * World.

(** [RiskAnalyzer.__init__] *)
Definition init (path : string) (w : World) : Outcome RiskAnalyzer :=
  dl <- Loader.init path w ;;
  Ok (mkRiskAnalyzer dl None false).

(** [RiskAnalyzer._ensure_data_loaded] *)
Definition _ensure_data_loaded (a : RiskAnalyzer) (w : World) : Step unit :=
  if negb (_data_loaded a) then
    match Loader.load_to_duckdb (data_loader a) "accidents" w with
    | (Ok h, w') => (Ok tt, mkRiskAnalyzer (data_loader a) (Some h) true, w')
    | (Raise e, w') => (Raise e, a, w')
    end
  else (Ok tt, a, w).

(** The relation [accidents] that [self.conn] holds. *)
Definition accidents (a : RiskAnalyzer) (w : World) : option Table :=
  match conn a with
  | Some h => relation w h "accidents"
  | None => None
  end.

(** [self.conn.execute(query)]: no handler around it in any method. *)
Definition execute {A : Type} (a : RiskAnalyzer) (w : World)
    (query : Table -> Outcome A) : Outcome A :=
  match accidents a w with
  | Some t => query t
  | None => Raise ConnectionError
  end.

(** Every aggregation method: make sure of the data, then run the query. *)
Definition method {A : Type} (query : Table -> Outcome A)
    (a : RiskAnalyzer) (w : World) : Step A :=
  match _ensure_data_loaded a w with
  | (Ok _, a', w') => (execute a' w' query, a', w')
  | (Raise e, a', w') => (Raise e, a', w')
  end.

Definition compute_risk (E : Engine) (levels : list string)
    (include_weather include_time : bool) : RiskAnalyzer -> World -> Step (list AggRow) :=
  method (compute_risk_query E levels include_weather include_time).

Definition compute_state_risk_rates (E : Engine) : RiskAnalyzer -> World -> Step (list RateRow) :=
  method (compute_state_risk_rates_query E).

Definition compute_temporal_patterns (E : Engine) : RiskAnalyzer -> World -> Step Patterns :=
  method (compute_temporal_patterns_query E).

Definition compute_weather_risk (E : Engine) : RiskAnalyzer -> World -> Step (list WeatherRow) :=
  method (compute_weather_risk_query E).

Definition generate_summary_report (E : Engine) : RiskAnalyzer -> World -> Step Summary :=
  method (generate_summary_report_query E).

(** [RiskAnalyzer.close] *)
Definition close (a : RiskAnalyzer) (w : World) : RiskAnalyzer * World :=
  match conn a with
  | Some h => (mkRiskAnalyzer (data_loader a) (conn a) false, close_conn h w)
  | None => (a, w)
  end.

End Analyzer.


(** ** The public calls of an analyzer, as one transition function *)

Module Calls.
Import Sql Env Analyzer.

Inductive Call : Type :=
| ComputeRisk (levels : list string) (include_weather include_time : bool)
| ComputeStateRiskRates
| ComputeTemporalPatterns
| ComputeWeatherRisk
| GenerateSummaryReport
| Close.

Definition raised {A : Type} (o : Outcome A) : option Exn :=
  match o with Ok _ => None | Raise e => Some e end.

Definition forget {A : Type} (s : Step A) : option Exn * RiskAnalyzer * World :=
  let '(o, a, w) := s in (raised o, a, w).

(** One call on an analyzer: what was raised, if anything, and the object
    and the world it leaves. *)
Definition call (E : Engine) (c : Call) (a : RiskAnalyzer) (w : World)
  : option Exn * RiskAnalyzer * World :=
  match c with
  | ComputeRisk levels iw it => forget (compute_risk E levels iw it a w)
  | ComputeStateRiskRates => forget (compute_state_risk_rates E a w)
  | ComputeTemporalPatterns => forget (compute_temporal_patterns E a w)
  | ComputeWeatherRisk => forget (compute_weather_risk E a w)
  | GenerateSummaryReport => forget (generate_summary_report E a w)
  | Close => let '(a', w') := close a w in (None, a', w')
  end.

Definition is_close (c : Call) : bool :=
  match c with Close => true | _ => false end.


(** The relation without the rows that fail [p]. *)
Definition restrict (p : Row -> bool) (t : Table) : Table :=
  mkTable (schema t) (filter p (rows t)).

(** A row with a start time, a state that is neither NULL nor empty, and
    a severity. *)
Definition complete_row (t : Table) (r : Row) : bool :=
  risk_where (cell t "Start_Time" r) (cell t "State" r) (cell t "Severity" r).

Definition has_start (t : Table) (r : Row) : bool :=
  is_not_null (cell t "Start_Time" r).

Definition has_state (t : Table) (r : Row) : bool :=
  state_where (cell t "State" r).

Definition has_severity (t : Table) (r : Row) : bool :=
  is_not_null (cell t "Severity" r).

Definition weather_row (t : Table) (r : Row) : bool :=
  weather_where (cell t "State" r) (cell t "Weather_Condition" r) (cell t "Severity" r).

End Calls.

(** ** The rows behind a row of a result *)

Module Groups.
Import Sql Env Analyzer Calls.

Definition year_of (t : Table) (x : Row) : Value :=
  extract Year (cell t "Start_Time" x).

Definition severities (t : Table) (rs : list Row) : list Value :=
  map (cell t "Severity") rs.

(** The grouping values of a row under [compute_risk]. *)
Definition risk_key (t : Table) (levels : list string) (iw it : bool) (x : Row) : Key :=
  map (fun c => item_value t c x) (group_cols levels iw it).

(** The complete rows whose grouping values are [k]. *)
Definition risk_group (t : Table) (levels : list string) (iw it : bool) (k : Key)
  : list Row :=
  filter (fun x => complete_row t x
                   && same_key Key_eq_dec (risk_key t levels iw it x) k) (rows t).

(** The complete rows of year [y] and state [s]. *)
Definition rate_group (t : Table) (y s : Value) : list Row :=
  filter (fun x => complete_row t x
                   && same_key Key_eq_dec [year_of t x; cell t "State" x] [y; s]) (rows t).

(** The rows with a start time whose [f] is [k]. *)
Definition temporal_group (t : Table) (f : Value -> Value) (k : Key) : list Row :=
  filter (fun x => has_start t x
                   && same_key Key_eq_dec [f (cell t "Start_Time" x)] k) (rows t).

(** The rows that [compute_weather_risk] keeps, of state [s] and weather [wx]. *)
Definition weather_group (t : Table) (s wx : Value) : list Row :=
  filter (fun x => weather_row t x
                   && same_key Key_eq_dec
                        [cell t "State" x; cell t "Weather_Condition" x] [s; wx]) (rows t).

(** The rows that [compute_weather_risk] keeps, of state [s]. *)
Definition state_group (t : Table) (s : Value) : list Row :=
  filter (fun x => weather_row t x && same_value (cell t "State" x) s) (rows t).

(** The rows of a weather result that are of state [s]. *)
Definition of_state (s : Value) (out : list WeatherRow) : list WeatherRow :=
  filter (fun r => same_value (w_state r) s) out.

Definition sum_Q (qs : list Q) : Q := fold_right Qplus 0%Q qs.

End Groups.

(** ** Datasets used below *)

Module Scenario.
Import Sql Env Analyzer.

Definition accident_schema : list string :=
  ["ID"; "Start_Time"; "State"; "Severity"; "Weather_Condition"].

Definition at_time (y m d h : Z) : Value := VTs (mkTimestamp y m d h 0 0).

(** Two accidents of 2020 in CA, of severity 2 in clear weather and of
    severity 4 in rain. *)
Definition two_rows : Table :=
  mkTable accident_schema
    [ [VStr "A-1"; at_time 2020 3 1 8; VStr "CA"; VInt 2; VStr "Clear"];
      [VStr "A-2"; at_time 2020 6 1 9; VStr "CA"; VInt 4; VStr "Rain"] ].

Definition group_sev2 : Key * list Row :=
  ([VInt 2020; VStr "CA"; VInt 2],
   [[VStr "A-1"; at_time 2020 3 1 8; VStr "CA"; VInt 2; VStr "Clear"]]).
Definition group_sev4 : Key * list Row :=
  ([VInt 2020; VStr "CA"; VInt 4],
   [[VStr "A-2"; at_time 2020 6 1 9; VStr "CA"; VInt 4; VStr "Rain"]]).

Definition row_sev2 : AggRow :=
  mkAggRow [VInt 2020; VStr "CA"; VInt 2] 1 (Some (2 # 1)%Q).
Definition row_sev4 : AggRow :=
  mkAggRow [VInt 2020; VStr "CA"; VInt 4] 1 (Some (4 # 1)%Q).

(** One complete accident and one whose state is NULL. *)
Definition stateless_row : Table :=
  mkTable accident_schema
    [ [VStr "A-1"; at_time 2020 3 1 8; VStr "CA"; VInt 2; VStr "Clear"];
      [VStr "A-2"; at_time 2020 3 1 8; VNull; VInt 4; VStr "Rain"] ].

(** Ten accidents of 2021 in CA, three of them severe, and two in NV. *)
Definition ca_row (i : Z) (sev : Z) (wx : string) : Row :=
  [VInt i; at_time 2021 7 4 17; VStr "CA"; VInt sev; VStr wx].

Definition mixed : Table :=
  mkTable accident_schema
    [ ca_row 1 2 "Clear"; ca_row 2 3 "Rain"; ca_row 3 2 "Clear"; ca_row 4 4 "Fog";
      ca_row 5 1 "Clear"; ca_row 6 2 "Rain"; ca_row 7 3 "Clear"; ca_row 8 2 "Clear";
      ca_row 9 2 "Rain"; ca_row 10 2 "Clear";
      [VInt 11; at_time 2021 12 24 6; VStr "NV"; VInt 2; VStr "Snow"];
      [VInt 12; at_time 2022 1 2 23; VStr "NV"; VNull; VStr "Clear"];
      [VInt 13; VNull; VStr ""; VInt 3; VNull] ].

(** The rows of [compute_weather_risk] on [mixed]. *)
Definition mixed_weather : list WeatherRow :=
  [ mkWeatherRow (VStr "CA") (VStr "Clear") 6 (Some (12 # 6)%Q) (600 # 10)%Q 1;
    mkWeatherRow (VStr "CA") (VStr "Rain") 3 (Some (7 # 3)%Q) (300 # 10)%Q 2;
    mkWeatherRow (VStr "CA") (VStr "Fog") 1 (Some (4 # 1)%Q) (100 # 10)%Q 3;
    mkWeatherRow (VStr "NV") (VStr "Snow") 1 (Some (2 # 1)%Q) (100 # 1)%Q 1 ].

(** A file with a header line and no data line. *)
Definition header_only : Table := mkTable accident_schema [].

(** The row of [compute_state_risk_rates] for CA in 2021 on [mixed]. *)
Definition ca_2021 : RateRow :=
  mkRateRow (VInt 2021) (VStr "CA") 10 3 (300 # 10)%Q.

(** A file without the [Severity] and [Weather_Condition] columns. *)
Definition narrow : Table :=
  mkTable ["ID"; "Start_Time"; "State"]
    [ [VStr "A-1"; at_time 2020 3 1 8; VStr "CA"];
      [VStr "A-2"; VNull; VStr ""] ].

(** A file whose columns are all text, without [Start_Time] and
    [Severity]. *)
Definition text_only : Table :=
  mkTable ["ID"; "State"; "Weather_Condition"]
    [ [VStr "A-1"; VStr "CA"; VStr "Clear"];
      [VStr "A-2"; VNull; VStr "Rain"] ].

(** A world with one good file, one that cannot be ingested, and no
    connection yet. *)
Definition world0 : World :=
  mkWorld [("data.csv", Some two_rows); ("broken.csv", None)] 0 [].

Definition fresh (path : string) : RiskAnalyzer :=
  mkRiskAnalyzer (Loader.mkDataLoader path) None false.


Definition world1 : World :=
  mkWorld (files world0) 1 [(0%nat, [("accidents", two_rows)])].

End Scenario.

(** ** The rows behind a row of the summary report *)

Module ReportGroups.
Import Sql Env Analyzer Calls.

(** The rows of state [s], for a state that is neither NULL nor empty. *)
Definition state_rows (t : Table) (s : Value) : list Row :=
  filter (fun r => has_state t r && same_key Key_eq_dec [cell t "State" r] [s]) (rows t).

(** The rows of severity [v], for a severity that is not NULL. *)
Definition severity_rows (t : Table) (v : Value) : list Row :=
  filter (fun r => has_severity t r && same_key Key_eq_dec [cell t "Severity" r] [v])
         (rows t).

(** The start times that are not NULL. *)
Definition start_times (t : Table) : list Value :=
  filter is_not_null (map (cell t "Start_Time") (rows t)).

End ReportGroups.

(** ** A session: calls one after the other, and the [with] block *)

Module Session.
Import Sql Env Analyzer Calls.

(** Calls made one after the other, up to the first that raises. *)
Fixpoint run (E : Engine) (cs : list Call) (a : RiskAnalyzer) (w : World)
  : option Exn * RiskAnalyzer * World :=
  match cs with
  | [] => (None, a, w)
  | c :: cs' =>
      match call E c a w with
      | (None, a', w') => run E cs' a' w'
      | (Some e, a', w') => (Some e, a', w')
      end
  end.

(** [with RiskAnalyzer(path) as analyzer: body]: [__enter__] hands out the
    object, [__exit__] closes it whether or not the body raised, and what
    was raised goes on to the caller. *)
Definition with_analyzer (E : Engine) (path : string) (body : list Call) (w : World)
  : option Exn * World :=
  match init path w with
  | Raise e => (Some e, w)
  | Ok a =>
      let '(r, a', w') := run E body a w in
      let '(_, w'') := close a' w' in
      (r, w'')
  end.

(** Connection handles are handed out in increasing order: every open
    one is below the next. *)
Definition well_formed (w : World) : Prop :=
  Forall (fun c => (fst c < next_conn w)%nat) (conns w).

(** What an analyzer holds: when it is loaded, its handle is the one open
    connection beyond those of [base]; when it is not, nothing beyond
    [base] is open. *)
Definition holds (base : list (nat * list (string * Table)))
    (a : RiskAnalyzer) (w : World) : Prop :=
  well_formed w
  /\ match conn a with
     | Some h =>
         if _data_loaded a
         then is_open w h = true
              /\ filter (fun c => negb (Nat.eqb (fst c) h)) (conns w) = base
         else conns w = base /\ is_open w h = false
     | None => _data_loaded a = false /\ conns w = base
     end.

End Session.

(** ** [DataLoader.estimate_memory_usage] *)

Module Estimate.

Record Estimate : Type := mkEstimate {
  file_size_mb : Q;
  estimated_memory_mb : Q;
  recommended_approach : string
}.

(** The method on the size that [stat()] reports, in bytes.  The two
    divisions and the comparison are taken on exact rationals. *)
Definition estimate_memory_usage (st_size : Z) : Estimate :=
  let file_size_mb := (inject_Z st_size / inject_Z (1024 * 1024))%Q in
  let estimated_memory_mb := (file_size_mb / (25 # 10))%Q in
  mkEstimate file_size_mb estimated_memory_mb
             (if negb (Qle_bool estimated_memory_mb 1000) then "DuckDB" else "Pandas").

End Estimate.

(** ** [accidents/cli.py] *)

Module Cli.
Import Sql Env Analyzer Calls Session.

Inductive Analysis : Type := risk | temporal | weather | severity | all.

(** The parsed arguments. *)
Record Args : Type := mkArgs {
  data : string;
  analysis : Analysis;
  output : string;
  summary : bool;
  levels : list string;
  visualize : bool
}.

(** [args.analysis in [...]] *)
Definition one_of (a : Analysis) (l : list Analysis) : bool :=
  existsb (fun b => match a, b with
                    | risk, risk | temporal, temporal | weather, weather
                    | severity, severity | all, all => true
                    | _, _ => false
                    end) l.

(** What [main] does outside the analyzer, and whether it goes through:
    creating the output directory, writing a file of the output directory
    ([to_csv], [json.dump]), setting up the visualizer, and drawing and
    saving a figure. *)
Record Outside : Type := mkOutside {
  mkdir_ok : string -> bool;
  write_ok : string -> bool;
  style_ok : bool;
  plot_ok : string -> bool
}.

Inductive Event : Type :=
| Mkdir (dir : string)
| Wrote (file : string)
| Saved (figure : string).

(** What can be raised inside the [try]. *)
Inductive Failure : Type :=
| Raised (e : Exn)
| OSError (what : string)
| NameError (name : string).

Record State : Type := mkState {
  analyzer : RiskAnalyzer;
  world : World;
  log : list Event
}.

(** A piece of the body of the [with] block. *)
Definition Prog : Type := State -> option Failure * State.

Definition skip : Prog := fun s => (None, s).

Definition seq (p q : Prog) : Prog :=
  fun s => match p s with
           | (None, s') => q s'
           | (Some f, s') => (Some f, s')
           end.

Definition when (b : bool) (p : Prog) : Prog := if b then p else skip.

(** A call of a method of the analyzer. *)
Definition query (E : Engine) (c : Call) : Prog :=
  fun s =>
    let '(r, a', w') := call E c (analyzer s) (world s) in
    (option_map Raised r, mkState a' w' (log s)).

(** [df.to_csv(output_dir / name)], [json.dump(..., f)] *)
Definition write (O : Outside) (name : string) : Prog :=
  fun s =>
    if write_ok O name
    then (None, mkState (analyzer s) (world s) (log s ++ [Wrote name]))
    else (Some (OSError name), s).

(** [AccidentVisualizer()] *)
Definition new_visualizer (O : Outside) : Prog :=
  fun s => if style_ok O then (None, s) else (Some (OSError "style"), s).

(** [fig = visualizer.plot_...(...)] and [visualizer.save_figure(fig, name, ...)] *)
Definition plot (O : Outside) (name : string) : Prog :=
  fun s =>
    if plot_ok O name
    then (None, mkState (analyzer s) (world s) (log s ++ [Saved name]))
    else (Some (OSError name), s).

(** [plt.close(fig)]: the module does not import [plt]. *)
Definition plt_close : Prog := fun s => (Some (NameError "plt"), s).

(** The body of the [with] block. *)
Definition body (E : Engine) (O : Outside) (args : Args) : Prog :=
  if summary args then
    seq (query E GenerateSummaryReport) (write O "summary_report.json")
  else
    seq (when (one_of (analysis args) [risk; all])
           (seq (query E (ComputeRisk (levels args) true true))
                (write O "risk_metrics.csv")))
   (seq (when (one_of (analysis args) [temporal; all])
           (seq (query E ComputeTemporalPatterns)
           (seq (write O "temporal_hourly.csv")
           (seq (write O "temporal_daily.csv")
           (seq (write O "temporal_monthly.csv")
                (write O "temporal_seasonal.csv"))))))
   (seq (when (one_of (analysis args) [weather; all])
           (seq (query E ComputeWeatherRisk) (write O "weather_analysis.csv")))
        (when (visualize args)
           (seq (new_visualizer O)
           (seq (when (one_of (analysis args) [risk; all])
                   (seq (query E ComputeStateRiskRates)
                   (seq (plot O "geographic_distribution.png") plt_close)))
                (when (one_of (analysis args) [temporal; all])
                   (seq (query E ComputeTemporalPatterns)
                   (seq (plot O "time_patterns.png") plt_close)))))))).

(** [main]: the exit status of the process, what was created and written,
    and the world it leaves.  A missing data file is [sys.exit(1)]; a
    failing [mkdir] is outside the [try] and ends the process with status
    1; anything raised inside the [try] is [sys.exit(1)], after
    [__exit__] has closed the analyzer. *)
Definition main (E : Engine) (O : Outside) (args : Args) (w : World)
  : Z * list Event * World :=
  if negb (exists_file w (data args)) then (1, [], w)
  else if negb (mkdir_ok O (output args)) then (1, [], w)
  else
    match init (data args) w with
    | Raise _ => (1, [Mkdir (output args)], w)
    | Ok a =>
        let '(r, s) := body E O args (mkState a w [Mkdir (output args)]) in
        let '(_, w') := close (analyzer s) (world s) in
        (match r with None => 0 | Some _ => 1 end, log s, w')
    end.

(** The files written and the figures saved, in order. *)
Definition files (l : list Event) : list string :=
  flat_map (fun e => match e with Wrote f => [f] | _ => [] end) l.

Definition figures (l : list Event) : list string :=
  flat_map (fun e => match e with Saved f => [f] | _ => [] end) l.

(** A piece of the body keeps what the analyzer holds. *)
Definition keeps (base : list (nat * list (string * Table))) (p : Prog) : Prop :=
  forall s, holds base (analyzer s) (world s) ->
            holds base (analyzer (snd (p s))) (world (snd (p s))).

End Cli.

(** ** [scripts/data_processing.py] *)

Module Processor.
Import Sql Env.

Record AccidentsDataProcessor : Type := mkProcessor {
  data_path : string;
  conn : nat
}.

(** [AccidentsDataProcessor.__init__] *)
Definition init (path : string) (w : World) : Outcome AccidentsDataProcessor * World :=
  if exists_file w path then
    let '(h, w1) := connect w in (Ok (mkProcessor path h), w1)
  else (Raise (FileNotFoundError path), w).

(** What [load_and_validate] prints, line by line (the fixed headings of
    the integrity report are left out). *)
Inductive Line : Type :=
| LoadingData
| DataLoaded
| ErrorLoading (e : Exn)
| TotalRecords (n : Z)
| TotalColumns (n : Z)
| MissingValues (col : string) (missing : Z) (pct : Q)
| ErrorChecking (col : string) (e : Exn)
| SeverityRange (lo hi : Value) (unique : Z)
| SeverityRangeError
| DateRange (lo hi : Value)
| DateRangeError
| UniqueStates (n : Z)
| StatesError.

(** [try: ... except Exception as e: ...] *)
Definition try_except {A : Type} (m : Outcome A) (handler : Exn -> Outcome A)
  : Outcome A :=
  match m with
  | Ok a => Ok a
  | Raise e => handler e
  end.

(** [SELECT COUNT( * ) FROM accidents WHERE "col" IS NULL OR "col" = ''] *)
Definition missing_query (t : Table) (col : string) : Outcome Z :=
  f <- column t col ;;
  _ <- text_column t col f ;;
  Ok (count_star (filter (fun r => is_missing (f r)) (rows t))).

(** The body of the loop over the key columns. *)
Definition check_column (t : Table) (total_rows : Z) (col : string) : Outcome Line :=
  try_except
    (missing <- missing_query t col ;;
     q <- Loader.true_div missing total_rows ;;
     Ok (MissingValues col missing (q * 100)%Q))
    (fun e => Ok (ErrorChecking col e)).

(** [_check_data_ranges] *)
Definition _check_data_ranges (t : Table) : Outcome (list Line) :=
  s <- try_except
         (r <- Loader.severity_range_query t ;;
          Ok (SeverityRange (fst (fst r)) (snd (fst r)) (snd r)))
         (fun _ => Ok SeverityRangeError) ;;
  d <- try_except
         (r <- Loader.date_range_query t ;; Ok (DateRange (fst r) (snd r)))
         (fun _ => Ok DateRangeError) ;;
  n <- try_except
         (n <- Loader.state_count_query t ;; Ok (UniqueStates n))
         (fun _ => Ok StatesError) ;;
  Ok [s; d; n].

(** [_perform_integrity_checks] on the relation [accidents]. *)
Definition _perform_integrity_checks (t : Table) : Outcome (list Line) :=
  let total_rows := count_star (rows t) in
  let columns_info := schema t in
  cols <- mapM (check_column t total_rows) Loader.key_columns ;;
  ranges <- _check_data_ranges t ;;
  Ok (TotalRecords total_rows :: TotalColumns (count_star columns_info)
      :: cols ++ ranges).

(** [CREATE TABLE accidents AS SELECT * FROM read_csv_auto(path)] on the
    processor's connection: it needs the connection open, no relation of
    that name yet, and a file that can be ingested. *)
Definition create_accidents (p : AccidentsDataProcessor) (w : World) : Outcome World :=
  match lookup_conn (conn p) (conns w) with
  | None => Raise ConnectionError
  | Some db =>
      match lookup "accidents" db with
      | Some _ => Raise (QueryError "accidents")
      | None =>
          t <- read_csv_auto w (data_path p) ;;
          Ok (create_table (conn p) "accidents" t w)
      end
  end.

(** [load_and_validate]: the answer and what was printed.  [False] when
    the load raises, else the checks (outside the [try]) and [True]. *)
Definition load_and_validate (p : AccidentsDataProcessor) (w : World)
  : Outcome (bool * list Line) * World :=
  match create_accidents p w with
  | Raise e => (Ok (false, [LoadingData; ErrorLoading e]), w)
  | Ok w1 =>
      (match relation w1 (conn p) "accidents" with
       | Some t =>
           lines <- _perform_integrity_checks t ;;
           Ok (true, LoadingData :: DataLoaded :: lines)
       | None => Raise ConnectionError
       end, w1)
  end.

(** [close] *)
Definition close (p : AccidentsDataProcessor) (w : World) : World :=
  close_conn (conn p) w.

End Processor.

(** ** [scripts/risk_analysis.py] *)

Module RiskScript.
Import Sql Env.

(** A row of a counting query: the grouping values and [COUNT( * )]. *)
Definition CountRow : Type := Key * Z.

Definition dim (i : nat) (r : CountRow) : Value := nth i (fst r) VNull.

(** [SELECT key..., COUNT( * ) ... GROUP BY key...], before ORDER BY. *)
Definition count_rows (E : Engine) (key : Row -> Key) (kept : list Row)
  : list CountRow :=
  map (fun g => (fst g, count_star (snd g))) (grouped E key kept).





(** [ORDER BY year, total_accidents DESC] *)
Definition by_year_total (a b : CountRow) : bool :=
  Analyzer.asc_then_count_desc (dim 0 a) (snd a) (dim 0 b) (snd b).

(** [ORDER BY a, b] on the first two, or the first three, grouping values *)
Definition by_two (a b : CountRow) : bool :=
  if value_leb (dim 0 a) (dim 0 b) then
    if value_leb (dim 0 b) (dim 0 a) then value_leb (dim 1 a) (dim 1 b) else true
  else false.




(** [compute_annual_state_totals] *)
Definition compute_annual_state_totals_query (E : Engine) (t : Table)
  : Outcome (list CountRow) :=
  st <- column t "Start_Time" ;;
  state <- column t "State" ;;
  let kept := filter (fun r => is_not_null (st r)
                               && (is_not_null (state r) && ne_empty (state r)))
                     (rows t) in
  let key := fun r => [extract Year (st r); state r] in
  Ok (sort_by by_year_total (count_rows E key kept)).

(** A row of [compute_severity_trends]. *)
Record TrendRow : Type := mkTrendRow {
  trend_year : Value;
  trend_severity : Value;
  trend_count : Z;
  trend_percentage : Q
}.

(** [SUM(COUNT( * )) OVER (PARTITION BY EXTRACT(year ...))] *)
Definition year_total (counts : list CountRow) (y : Value) : Z :=
  sum_Z (map snd (filter (fun c => Analyzer.same_value (dim 0 c) y) counts)).

Definition trend_row (counts : list CountRow) (c : CountRow) : TrendRow :=
  mkTrendRow (dim 0 c) (dim 1 c) (snd c)
             (inject_Z (snd c * 100) / inject_Z (year_total counts (dim 0 c)))%Q.

(** [ORDER BY year, Severity] *)
Definition by_year_severity (a b : TrendRow) : bool :=
  if value_leb (trend_year a) (trend_year b) then
    if value_leb (trend_year b) (trend_year a)
    then value_leb (trend_severity a) (trend_severity b)
    else true
  else false.

(** [compute_severity_trends] *)
Definition compute_severity_trends_query (E : Engine) (t : Table)
  : Outcome (list TrendRow) :=
  st <- column t "Start_Time" ;;
  sev <- column t "Severity" ;;
  let kept := filter (fun r => is_not_null (st r) && is_not_null (sev r)) (rows t) in
  let counts := count_rows E (fun r => [extract Year (st r); sev r]) kept in
  Ok (sort_by by_year_severity (map (trend_row counts) (emit E counts))).

(** A row of the CTE [weather_counts]. *)
Record WeatherCount : Type := mkWeatherCount {
  wc_state : Value;
  wc_weather : Value;
  wc_count : Z;
  rn : Z
}.

(** [ROW_NUMBER() OVER (PARTITION BY State ORDER BY COUNT( * ) DESC)] along
    rows already in the window's order ([seen] holds the states of the rows
    before). *)
Fixpoint number_rows (seen : list Value) (l : list CountRow) : list WeatherCount :=
  match l with
  | [] => []
  | c :: l' =>
      mkWeatherCount (dim 0 c) (dim 1 c) (snd c)
        (1 + count_star (filter (Analyzer.same_value (dim 0 c)) seen))
      :: number_rows (dim 0 c :: seen) l'
  end.

(** The window's [ORDER BY COUNT( * ) DESC] *)
Definition by_count_desc (a b : CountRow) : bool := snd b <=? snd a.

(** [ORDER BY State, accident_count DESC] *)
Definition by_state_count (a b : CountRow) : bool :=
  Analyzer.asc_then_count_desc (dim 0 a) (snd a) (dim 0 b) (snd b).

(** [compute_weather_by_state] *)
Definition compute_weather_by_state_query (E : Engine) (t : Table)
  : Outcome (list CountRow) :=
  state <- column t "State" ;;
  weather <- column t "Weather_Condition" ;;
  let kept := filter (fun r => (is_not_null (state r) && ne_empty (state r))
                               && (is_not_null (weather r) && ne_empty (weather r)))
                     (rows t) in
  let counts := count_rows E (fun r => [state r; weather r]) kept in
  let weather_counts := number_rows [] (sort_by by_count_desc (emit E counts)) in
  let top := filter (fun c => rn c <=? 5) (emit E weather_counts) in
  Ok (sort_by by_state_count
        (map (fun c => ([wc_state c; wc_weather c], wc_count c)) top)).


(** *** The object *)

Record RiskAnalyzer : Type := mkRiskAnalyzer {
  data_path : string;
  conn : nat
}.

(** [RiskAnalyzer.__init__] with [_load_data]: the load has no handler, so
    a file that cannot be ingested raises with the connection open. *)
Definition init (path : string) (w : World) : Outcome RiskAnalyzer * World :=
  if exists_file w path then
    let '(h, w1) := connect w in
    match read_csv_auto w1 path with
    | Ok t => (Ok (mkRiskAnalyzer path h), create_table h "accidents" t w1)
    | Raise e => (Raise e, w1)
    end
  else (Raise (FileNotFoundError path), w).

(** [self.conn.execute(query)] *)
Definition execute {A : Type} (a : RiskAnalyzer) (w : World)
    (query : Table -> Outcome A) : Outcome A :=
  match relation w (conn a) "accidents" with
  | Some t => query t
  | None => Raise ConnectionError
  end.






(** [close] *)
Definition close (a : RiskAnalyzer) (w : World) : World := close_conn (conn a) w.

End RiskScript.

(** ** The rows behind a row of a result of the script *)

Module ScriptGroups.
Import Sql Env Analyzer Calls Groups.

(** A row that [compute_weather_by_state] counts: state and weather
    condition neither NULL nor empty. *)
Definition paired_row (t : Table) (r : Row) : bool :=
  (is_not_null (cell t "State" r) && ne_empty (cell t "State" r))
  && (is_not_null (cell t "Weather_Condition" r)
      && ne_empty (cell t "Weather_Condition" r)).

(** The counted rows of state [s] and weather condition [wx]. *)
Definition pair_group (t : Table) (s wx : Value) : list Row :=
  filter (fun x => paired_row t x
                   && same_key Key_eq_dec
                        [cell t "State" x; cell t "Weather_Condition" x] [s; wx]) (rows t).

(** The counted rows of state [s]. *)
Definition state_pairs (t : Table) (s : Value) : list Row :=
  filter (fun x => paired_row t x && same_value (cell t "State" x) s) (rows t).

(** The rows of a counting result whose first grouping value is [v]. *)
Definition of_first (v : Value) (out : list RiskScript.CountRow)
  : list RiskScript.CountRow :=
  filter (fun c => same_value (RiskScript.dim 0 c) v) out.

(** A row that [compute_severity_trends] counts. *)
Definition dated_severity (t : Table) (r : Row) : bool :=
  is_not_null (cell t "Start_Time" r) && is_not_null (cell t "Severity" r).

(** The counted rows of year [y] and severity [sv]. *)
Definition trend_group (t : Table) (y sv : Value) : list Row :=
  filter (fun x => dated_severity t x
                   && same_key Key_eq_dec [year_of t x; cell t "Severity" x] [y; sv]) (rows t).

(** The counted rows of year [y]. *)
Definition year_group (t : Table) (y : Value) : list Row :=
  filter (fun x => dated_severity t x && same_value (year_of t x) y) (rows t).

(** The rows of a result of [compute_severity_trends] of year [y]. *)
Definition of_year (y : Value) (out : list RiskScript.TrendRow)
  : list RiskScript.TrendRow :=
  filter (fun r => same_value (RiskScript.trend_year r) y) out.

(** A row that [compute_annual_state_totals] counts. *)
Definition located_row (t : Table) (r : Row) : bool :=
  is_not_null (cell t "Start_Time" r)
  && (is_not_null (cell t "State" r) && ne_empty (cell t "State" r)).

(** The counted rows of year [y] and state [s]. *)
Definition annual_group (t : Table) (y s : Value) : list Row :=
  filter (fun x => located_row t x
                   && same_key Key_eq_dec [year_of t x; cell t "State" x] [y; s]) (rows t).

End ScriptGroups.

(** * Facts about the operators *)

Section SortByFacts.
Context {A : Type} (leb : A -> A -> bool).
Local Abbreviation insert_by := (insert_by leb).
Local Abbreviation sort_by := (sort_by leb).
Local Abbreviation le_of := (le_of leb).

Lemma insert_by_perm x l : Permutation (x :: l) (insert_by x l).
Proof.
  induction l as [|y l IH]; simpl; [reflexivity|].
  destruct (leb x y); [reflexivity|].
  rewrite perm_swap. now constructor.
Qed.

Lemma sort_by_perm l : Permutation l (sort_by l).
Proof.
  induction l as [|x l IH]; simpl; [constructor|].
  etransitivity; [|apply insert_by_perm]. now constructor.
Qed.

Hypothesis leb_total : forall a b, leb a b = true \/ leb b a = true.

Lemma insert_by_sorted x l : Sorted le_of l -> Sorted le_of (insert_by x l).
Proof.
  induction 1 as [|y l Hs IH Hd]; simpl.
  - repeat constructor.
  - destruct (leb x y) eqn:Hxy.
    + constructor; [now constructor|]. now constructor.
    + constructor; [exact IH|].
      assert (Hyx : le_of y x) by (destruct (leb_total x y); [congruence|assumption]).
      destruct l as [|z l]; simpl in *; [now constructor|].
      destruct (leb x z); constructor; [exact Hyx|].
      now inversion Hd.
Qed.

Lemma sort_by_sorted l : Sorted le_of (sort_by l).
Proof.
  induction l as [|x l IH]; simpl; [constructor|].
  now apply insert_by_sorted.
Qed.

Hypothesis leb_trans : forall a b c, leb a b = true -> leb b c = true -> leb a c = true.

Lemma sort_by_strongly_sorted l : StronglySorted le_of (sort_by l).
Proof.
  apply Sorted_StronglySorted; [|apply sort_by_sorted].
  intros a b c. apply leb_trans.
Qed.
End SortByFacts.

Section GroupByFacts.
Context {K R : Type} (K_eq_dec : forall a b : K, {a = b} + {a <> b}).
Local Abbreviation same_key := (same_key K_eq_dec).
Local Abbreviation distinct := (distinct K_eq_dec).
Local Abbreviation group_by := (group_by K_eq_dec).

Lemma same_key_true k k' : same_key k k' = true <-> k = k'.
Proof. unfold same_key. destruct (K_eq_dec k k'); split; congruence. Qed.

Lemma same_key_refl k : same_key k k = true.
Proof. now apply same_key_true. Qed.

Lemma distinct_In l k : In k (distinct l) <-> In k l.
Proof.
  induction l as [|x l IH]; simpl; [tauto|].
  rewrite filter_In, IH. split.
  - intros [H|[H _]]; auto.
  - intros [H|H]; auto.
    destruct (K_eq_dec x k) as [E|N]; [now left|right].
    split; [assumption|].
    destruct (same_key k x) eqn:Hs; [|reflexivity].
    apply same_key_true in Hs. congruence.
Qed.

Lemma distinct_NoDup l : NoDup (distinct l).
Proof.
  induction l as [|x l IH]; simpl; constructor.
  - rewrite filter_In. intros [_ H]. now rewrite same_key_refl in H.
  - now apply NoDup_filter.
Qed.

Lemma group_by_keys (key : R -> K) (rs : list R) : map fst (group_by key rs) = distinct (map key rs).
Proof.
  unfold group_by. rewrite map_map. simpl. apply map_id.
Qed.

Lemma group_by_In (key : R -> K) (rs : list R) k ms :
  In (k, ms) (group_by key rs) ->
  ms = filter (fun r => same_key (key r) k) rs /\ In k (map key rs).
Proof.
  unfold group_by. rewrite in_map_iff. intros (k' & E & Hin).
  inversion E; subst. split; [reflexivity|]. apply (proj1 (distinct_In _ _)). assumption.
Qed.

Lemma group_by_nonempty (key : R -> K) (rs : list R) k :
  In k (map key rs) -> filter (fun r => same_key (key r) k) rs <> [].
Proof.
  rewrite in_map_iff. intros (r & E & Hin) Hnil.
  assert (Hr : In r (filter (fun r => same_key (key r) k) rs)).
  { apply filter_In. split; [assumption|]. now apply same_key_true. }
  rewrite Hnil in Hr. contradiction.
Qed.

(** Every row falls in exactly one group: the group sizes add up. *)
Lemma count_hits k0 (ks : list K) :
  NoDup ks -> In k0 ks ->
  list_sum (map (fun k => if same_key k0 k then 1%nat else 0%nat) ks) = 1%nat.
Proof.
  induction 1 as [|k ks Hnin Hnd IH]; simpl; [contradiction|].
  intros [E|Hin].
  - subst. rewrite same_key_refl.
    assert (Hz : list_sum (map (fun k => if same_key k0 k then 1%nat else 0%nat) ks) = 0%nat).
    { clear IH Hnd. induction ks as [|k ks IHk]; simpl; [reflexivity|].
      destruct (same_key k0 k) eqn:Hs.
      - apply same_key_true in Hs. subst. exfalso. apply Hnin. now left.
      - apply IHk. intro. apply Hnin. now right. }
    now rewrite Hz.
  - destruct (same_key k0 k) eqn:Hs.
    + apply same_key_true in Hs. subst. contradiction.
    + now apply IH.
Qed.

Lemma partition_sizes (key : R -> K) (ks : list K) (rs : list R) :
  NoDup ks -> (forall r, In r rs -> In (key r) ks) ->
  list_sum (map (fun k => List.length (filter (fun r => same_key (key r) k) rs)) ks)
  = List.length rs.
Proof.
  intros Hnd. induction rs as [|r rs IH]; intros Hcov; simpl.
  - clear. induction ks as [|k ks IHk]; simpl; auto.
  - rewrite <- IH by (intros; apply Hcov; now right).
    change (S ?n) with (1 + n)%nat.
    rewrite <- (count_hits (key r) ks Hnd) at 1 by (apply Hcov; now left).
    clear. induction ks as [|k ks IHk]; simpl; [reflexivity|].
    rewrite IHk. destruct (same_key (key r) k); simpl; lia.
Qed.
End GroupByFacts.

(** The checks of the types of the columns, passed one after the other
    in a query that gives a result. *)
Ltac pass_guards :=
  cbn [bind];
  repeat match goal with
  | |- context [Sql.number_column ?t ?c ?f] =>
      destruct (Sql.number_column t c f) as [[]|]; cbn [bind]; [|discriminate]
  | |- context [Sql.text_column ?t ?c ?f] =>
      destruct (Sql.text_column t c f) as [[]|]; cbn [bind]; [|discriminate]
  | |- context [Sql.timestamp_cast ?t ?c ?f] =>
      destruct (Sql.timestamp_cast t c f) as [[]|]; cbn [bind]; [|discriminate]
  end.

Ltac pass_guards_in H :=
  cbn [bind] in H;
  repeat match type of H with
  | context [Sql.number_column ?t ?c ?f] =>
      destruct (Sql.number_column t c f) as [[]|]; cbn [bind] in H; [|discriminate H]
  | context [Sql.text_column ?t ?c ?f] =>
      destruct (Sql.text_column t c f) as [[]|]; cbn [bind] in H; [|discriminate H]
  | context [Sql.timestamp_cast ?t ?c ?f] =>
      destruct (Sql.timestamp_cast t c f) as [[]|]; cbn [bind] in H; [|discriminate H]
  end.

Section SqlFacts.
Import Sql.

Lemma value_leb_total a b : value_leb a b = true \/ value_leb b a = true.
Proof.
  destruct a, b; simpl; try (left; reflexivity); try (right; reflexivity).
  - rewrite !Z.leb_le. lia.
  - apply String.leb_total.
  - rewrite !Z.leb_le. lia.
Qed.

Lemma same_name_refl c : same_name c c = true.
Proof. apply String.eqb_refl. Qed.

Lemma index_of_Some c sch i :
  index_of c sch = Some i -> exists c', In c' sch /\ same_name c c' = true.
Proof.
  revert i. induction sch as [|c' sch IH]; cbn [index_of]; [discriminate|].
  intros i. destruct (same_name c c') eqn:Hs.
  - intros _. exists c'. split; [now left|assumption].
  - destruct (index_of c sch); cbn [option_map]; [|discriminate].
    intros _. destruct (IH n eq_refl) as (c'' & Hin & Hc). exists c''. split; [now right|assumption].
Qed.

Lemma index_of_None c sch :
  index_of c sch = None <-> forall c', In c' sch -> same_name c c' = false.
Proof.
  induction sch as [|c' sch IH]; cbn [index_of].
  - split; [intros _ c'' []|reflexivity].
  - destruct (same_name c c') eqn:Hs.
    + split; [discriminate|]. intros H. rewrite (H c' (or_introl eq_refl)) in Hs. discriminate.
    + assert (Hm : option_map S (index_of c sch) = None <-> index_of c sch = None)
        by (destruct (index_of c sch); cbn; split; congruence).
      rewrite Hm, IH. split.
      * intros H c'' [<-|Hin]; [assumption|now apply H].
      * intros H c'' Hin. apply H. now right.
Qed.

Lemma column_cell t c f : column t c = Ok f -> forall r, f r = cell t c r.
Proof.
  unfold column, cell. destruct (index_of c (schema t)); [|discriminate].
  intros E r. now inversion E.
Qed.

Lemma column_is_cell t c f : column t c = Ok f -> f = cell t c.
Proof.
  unfold column, cell. destruct (index_of c (schema t)); [|discriminate].
  intros H. now inversion H.
Qed.

Lemma column_Raise t c e :
  column t c = Raise e -> e = QueryError c /\ has_column t c = false.
Proof.
  unfold column, has_column. destruct (index_of c (schema t)); [discriminate|].
  intros E. inversion E. auto.
Qed.

Lemma column_Ok t c : has_column t c = true -> exists f, column t c = Ok f.
Proof.
  unfold column, has_column. destruct (index_of c (schema t)); [eauto|discriminate].
Qed.

(** A name that [DESCRIBE] lists binds. *)
Lemma listed_has_column t c : listed t c = true -> has_column t c = true.
Proof.
  unfold listed, has_column. intros H. apply existsb_exists in H.
  destruct H as (c' & Hin & Hc). apply String.eqb_eq in Hc. subst c'.
  destruct (index_of c (schema t)) eqn:Hi; [reflexivity|].
  rewrite index_of_None in Hi. pose proof (same_name_refl c) as Hr.
  rewrite (Hi c Hin) in Hr. discriminate.
Qed.

Lemma grouped_spec E key rs :
  NoDup (map fst (grouped E key rs))
  /\ (forall k ms, In (k, ms) (grouped E key rs) ->
        ms = filter (fun r => same_key Key_eq_dec (key r) k) rs
        /\ In k (map key rs))
  /\ (forall r, In r rs -> In (key r) (map fst (grouped E key rs))).
Proof.
  unfold grouped.
  pose proof (emit_perm E _ (group_by Key_eq_dec key rs)) as HP.
  repeat split.
  - eapply Permutation_NoDup; [apply Permutation_map, Permutation_sym, HP|].
    rewrite group_by_keys. apply distinct_NoDup.
  - eapply group_by_In. eapply Permutation_in; [exact HP|]. eassumption.
  - eapply group_by_In. eapply Permutation_in; [exact HP|]. eassumption.
  - intros r Hr. eapply Permutation_in; [apply Permutation_map, Permutation_sym, HP|].
    rewrite group_by_keys. apply distinct_In. now apply in_map.
Qed.

End SqlFacts.

(** * The load state of the analyzer *)

Section LoadFacts.
Import Sql Env Analyzer Calls.

Lemma lookup_conn_filter {A : Type} (h h' : nat) (l : list (nat * A)) :
  lookup_conn h (filter (fun c => negb (Nat.eqb (fst c) h')) l)
  = if Nat.eqb h h' then None else lookup_conn h l.
Proof.
  induction l as [|[k x] l IH]; simpl.
  - now destruct (Nat.eqb h h').
  - destruct (Nat.eqb k h') eqn:Ek; simpl.
    + rewrite IH. destruct (Nat.eqb h h') eqn:Eh; [reflexivity|].
      destruct (Nat.eqb h k) eqn:Ehk; [|reflexivity].
      apply Nat.eqb_eq in Ehk, Ek. subst. now rewrite Nat.eqb_refl in Eh.
    + destruct (Nat.eqb h k) eqn:Ehk.
      * apply Nat.eqb_eq in Ehk. subst. now rewrite Ek.
      * exact IH.
Qed.

Lemma read_after_connect w path : read_csv_auto (snd (connect w)) path = read_csv_auto w path.
Proof. reflexivity. Qed.

Lemma load_succeeds dl name w t :
  read_csv_auto w (Loader.data_path dl) = Ok t ->
  exists w', Loader.load_to_duckdb dl name w = (Ok (next_conn w), w')
             /\ relation w' (next_conn w) name = Some t
             /\ next_conn w' = S (next_conn w).
Proof.
  intros Hr. unfold Loader.load_to_duckdb. simpl.
  change (read_csv_auto _ (Loader.data_path dl)) with (read_csv_auto w (Loader.data_path dl)).
  rewrite Hr. eexists. split; [reflexivity|]. split; [|reflexivity].
  unfold relation, create_table. simpl.
  rewrite !Nat.eqb_refl. simpl. now rewrite String.eqb_refl.
Qed.

Lemma load_fails dl name w e :
  read_csv_auto w (Loader.data_path dl) = Raise e ->
  exists w', Loader.load_to_duckdb dl name w = (Raise e, w')
             /\ is_open w' (next_conn w) = false
             /\ forall h, h <> next_conn w ->
                  lookup_conn h (conns w') = lookup_conn h (conns w).
Proof.
  intros Hr. unfold Loader.load_to_duckdb. simpl.
  change (read_csv_auto _ (Loader.data_path dl)) with (read_csv_auto w (Loader.data_path dl)).
  rewrite Hr. eexists. split; [reflexivity|]. split.
  - unfold is_open, close_conn. cbn [conns].
    rewrite lookup_conn_filter. now rewrite Nat.eqb_refl.
  - intros h Hh. unfold close_conn. cbn [conns].
    rewrite lookup_conn_filter.
    destruct (Nat.eqb h (next_conn w)) eqn:E; [apply Nat.eqb_eq in E; contradiction|].
    simpl. destruct (Nat.eqb h (next_conn w)); [discriminate|reflexivity].
Qed.

Lemma method_loaded {A : Type} (q : Table -> Outcome A) a w :
  _data_loaded a = true -> method q a w = (execute a w q, a, w).
Proof. intros H. unfold method, _ensure_data_loaded. now rewrite H. Qed.

Lemma method_load_fails {A : Type} (q : Table -> Outcome A) a w e w' :
  _data_loaded a = false ->
  Loader.load_to_duckdb (data_loader a) "accidents" w = (Raise e, w') ->
  method q a w = (Raise e, a, w').
Proof. intros H Hl. unfold method, _ensure_data_loaded. now rewrite H, Hl. Qed.

Lemma method_load_succeeds {A : Type} (q : Table -> Outcome A) a w h w' :
  _data_loaded a = false ->
  Loader.load_to_duckdb (data_loader a) "accidents" w = (Ok h, w') ->
  method q a w
  = (execute (mkRiskAnalyzer (data_loader a) (Some h) true) w' q,
     mkRiskAnalyzer (data_loader a) (Some h) true, w').
Proof. intros H Hl. unfold method, _ensure_data_loaded. now rewrite H, Hl. Qed.

End LoadFacts.

Import Sql Env Analyzer Calls Groups ReportGroups Session.

(** C7.  The load state of an analyzer.  (1) On an unloaded analyzer whose
    file can be ingested, [_ensure_data_loaded] opens one fresh connection,
    loads the relation into it and sets the flag; and every call other than
    [close] does just this before its query, so whatever the query gives,
    the call leaves the analyzer loaded, with that handle.  (2) On a loaded
    analyzer [_ensure_data_loaded] changes nothing, and every call other
    than [close] leaves the object and the world as they were: the same
    handle is used and nothing is loaded again.  (3) [close] on an analyzer
    with a handle clears the flag and closes the handle, and the next call
    other than [close] loads again, into a fresh connection, and leaves the
    analyzer loaded with the new handle.  (4) When the file cannot be
    ingested, every call other than [close] on an unloaded analyzer raises
    the loader's exception and leaves the object as it was, unloaded; the
    connection that was opened for the load is closed and no other
    connection is touched. *)
Theorem load_state_machine (E : Engine) (a : RiskAnalyzer) (w : World) :
  (_data_loaded a = false ->
   forall t, read_csv_auto w (Loader.data_path (data_loader a)) = Ok t ->
   exists w',
     _ensure_data_loaded a w
     = (Ok tt, mkRiskAnalyzer (data_loader a) (Some (next_conn w)) true, w')
     /\ relation w' (next_conn w) "accidents" = Some t
     /\ forall c, is_close c = false ->
          snd (fst (call E c a w))
          = mkRiskAnalyzer (data_loader a) (Some (next_conn w)) true
          /\ snd (call E c a w) = w')
  /\ (_data_loaded a = true ->
      _ensure_data_loaded a w = (Ok tt, a, w)
      /\ forall c, is_close c = false ->
           snd (fst (call E c a w)) = a /\ snd (call E c a w) = w)
  /\ (forall h, conn a = Some h ->
      _data_loaded (fst (close a w)) = false
      /\ data_loader (fst (close a w)) = data_loader a
      /\ is_open (snd (close a w)) h = false
      /\ forall t, read_csv_auto w (Loader.data_path (data_loader a)) = Ok t ->
           exists w',
             _ensure_data_loaded (fst (close a w)) (snd (close a w))
             = (Ok tt, mkRiskAnalyzer (data_loader a) (Some (next_conn w)) true, w')
             /\ relation w' (next_conn w) "accidents" = Some t
             /\ forall c, is_close c = false ->
                  snd (fst (call E c (fst (close a w)) (snd (close a w))))
                  = mkRiskAnalyzer (data_loader a) (Some (next_conn w)) true
                  /\ snd (call E c (fst (close a w)) (snd (close a w))) = w')
  /\ (_data_loaded a = false ->
      forall e, read_csv_auto w (Loader.data_path (data_loader a)) = Raise e ->
      forall c, is_close c = false ->
      exists w',
        call E c a w = (Some e, a, w')
        /\ is_open w' (next_conn w) = false
        /\ forall h, h <> next_conn w ->
             lookup_conn h (conns w') = lookup_conn h (conns w)).
Proof.
  split; [|split; [|split]].
  - intros Hu t Hr.
    destruct (load_succeeds (data_loader a) "accidents" w t Hr) as (w' & Hl & Hrel & _).
    exists w'. split; [|split; [exact Hrel|]].
    + unfold _ensure_data_loaded. now rewrite Hu, Hl.
    + intros c Hc.
      destruct c; try discriminate; cbn [call];
        unfold compute_risk, compute_state_risk_rates, compute_temporal_patterns,
               compute_weather_risk, generate_summary_report;
        rewrite (method_load_succeeds _ a w _ w' Hu Hl); split; reflexivity.
  - intros Hl. split; [unfold _ensure_data_loaded; now rewrite Hl|].
    intros c Hc.
    destruct c; try discriminate; simpl;
      unfold compute_risk, compute_state_risk_rates, compute_temporal_patterns,
             compute_weather_risk, generate_summary_report;
      rewrite method_loaded by assumption; split; reflexivity.
  - intros h Hh. unfold close. rewrite Hh. cbn [fst snd _data_loaded data_loader].
    split; [reflexivity|]. split; [reflexivity|]. split.
    + unfold is_open, close_conn. cbn [conns].
      rewrite lookup_conn_filter. now rewrite Nat.eqb_refl.
    + intros t Hr.
      assert (Hr' : read_csv_auto (close_conn h w) (Loader.data_path (data_loader a)) = Ok t)
        by exact Hr.
      destruct (load_succeeds (data_loader a) "accidents" (close_conn h w) t Hr')
        as (w' & Hl & Hrel & _).
      exists w'. split; [|split; [exact Hrel|]].
      * unfold _ensure_data_loaded. cbn [_data_loaded data_loader negb].
        cbv iota. now rewrite Hl.
      * intros c Hc.
        destruct c; try discriminate; cbn [call];
          unfold compute_risk, compute_state_risk_rates, compute_temporal_patterns,
                 compute_weather_risk, generate_summary_report;
          rewrite (method_load_succeeds _ (mkRiskAnalyzer (data_loader a) (Some h) false)
                     (close_conn h w) _ w' eq_refl Hl); split; reflexivity.
  - intros Hu e Hr c Hc.
    destruct (load_fails (data_loader a) "accidents" w e Hr) as (w' & Hl & Hcl & Hothers).
    exists w'. split; [|split; assumption].
    destruct c; try discriminate; simpl;
      unfold compute_risk, compute_state_risk_rates, compute_temporal_patterns,
             compute_weather_risk, generate_summary_report;
      now rewrite (method_load_fails _ a w e w') by assumption.
Qed.

(** * Binding the select list *)

Lemma mapM_Ok {A B : Type} (f : A -> Outcome B) (l : list A) :
  (forall x, In x l -> exists b, f x = Ok b) -> exists bs, mapM f l = Ok bs.
Proof.
  induction l as [|x l IH]; simpl; intros H; [eauto|].
  destruct (H x (or_introl eq_refl)) as (b & ->). simpl.
  destruct IH as (bs & ->); [intros; apply H; now right|]. simpl. eauto.
Qed.

Lemma mapM_Ok_map {A B : Type} (f : A -> Outcome B) (g : A -> B) (l : list A) :
  (forall x, In x l -> f x = Ok (g x)) -> mapM f l = Ok (map g l).
Proof.
  induction l as [|x l IH]; simpl; intros H; [reflexivity|].
  rewrite (H x (or_introl eq_refl)). simpl.
  rewrite IH by (intros; apply H; now right). reflexivity.
Qed.



Lemma Ok_inj {A : Type} (a b : A) : Ok a = Ok b -> a = b.
Proof. intros H. now inversion H. Qed.


Lemma column_present t c :
  has_column t c = true -> column t c = Ok (cell t c).
Proof.
  unfold has_column, column, cell. destruct (index_of c (schema t)); [reflexivity|discriminate].
Qed.

Lemma column_missing t c :
  has_column t c = false -> column t c = Raise (QueryError c).
Proof.
  unfold has_column, column. destruct (index_of c (schema t)); [discriminate|reflexivity].
Qed.








(** * Validation *)

Lemma listed_In t c : listed t c = true <-> In c (schema t).
Proof.
  unfold listed. rewrite existsb_exists. split.
  - intros (c' & Hin & Hc). apply String.eqb_eq in Hc. now subst.
  - intros Hin. exists c. split; [assumption|apply String.eqb_refl].
Qed.

Lemma listed_column t c : listed t c = true -> column t c = Ok (cell t c).
Proof. intros H. apply column_present. now apply listed_has_column. Qed.

(** With no row every column is text. *)
Lemma textual_no_row t (f : Row -> Value) : rows t = [] -> textual (map f (rows t)) = true.
Proof. intros ->. reflexivity. Qed.

(** With no row at all, the first key column that is listed divides by
    zero. *)
Lemma check_all_zero t cols acc :
  rows t = [] ->
  Loader.check_all t 0 cols acc
  = if existsb (listed t) cols then Raise ZeroDivisionError else Ok acc.
Proof.
  intros Hnil. revert acc.
  induction cols as [|c cols IH]; intros acc; cbn [Loader.check_all existsb]; [reflexivity|].
  unfold Loader.check_missing. destruct (listed t c) eqn:Hl; cbn [orb bind].
  - rewrite (listed_column _ _ Hl). cbn [bind]. unfold text_column.
    rewrite (textual_no_row t _ Hnil). reflexivity.
  - apply IH.
Qed.

(** With a row, every key column that is listed gets its entry, in order,
    when these columns are text. *)
Lemma check_all_nonzero t total cols acc :
  total <> 0 ->
  forallb (fun c => negb (listed t c) || textual (map (cell t c) (rows t))) cols = true ->
  Loader.check_all t total cols acc
  = Ok (acc ++ flat_map (fun c =>
          if listed t c
          then [(c, Loader.mkMissing
                      (count_star (filter (fun r => is_missing (cell t c r)) (rows t)))
                      (inject_Z (count_star (filter (fun r => is_missing (cell t c r)) (rows t)))
                       / inject_Z total * 100)%Q)]
          else []) cols).
Proof.
  intros Hz. revert acc.
  induction cols as [|c cols IH]; intros acc Htext; cbn [Loader.check_all flat_map].
  - now rewrite app_nil_r.
  - cbn [forallb] in Htext. apply andb_prop in Htext. destruct Htext as (Hc & Htext).
    unfold Loader.check_missing, Loader.true_div.
    destruct (Z.eqb_spec total 0) as [E'|_]; [contradiction|].
    destruct (listed t c) eqn:Hl; cbn [negb orb] in Hc; cbn [bind].
    + rewrite (listed_column _ _ Hl). cbn [bind]. unfold text_column. rewrite Hc.
      cbn [bind]. rewrite IH by assumption. now rewrite <- app_assoc.
    + now apply IH.
Qed.

(** What the loop over the key columns can raise: the division by zero,
    or the conversion of [''] for a listed column that is not text. *)
Lemma check_all_Raise t total cols acc e :
  Loader.check_all t total cols acc = Raise e ->
  (e = ZeroDivisionError /\ total = 0)
  \/ exists c, In c cols /\ listed t c = true
               /\ textual (map (cell t c) (rows t)) = false
               /\ e = ConversionException c.
Proof.
  revert acc. induction cols as [|c cols IH]; intros acc; cbn [Loader.check_all];
    [discriminate|].
  unfold Loader.check_missing at 1.
  destruct (listed t c) eqn:Hl; cbn [bind].
  - rewrite (listed_column _ _ Hl). cbn [bind]. unfold text_column.
    destruct (textual (map (cell t c) (rows t))) eqn:Ht; cbn [bind].
    + unfold Loader.true_div. destruct (Z.eqb_spec total 0) as [->|Hz]; cbn [bind].
      * intros H. inversion H. left. auto.
      * intros H. destruct (IH _ H) as [Hd|(c' & Hin & Hc')]; [now left|right].
        exists c'. split; [now right|assumption].
    + intros H. inversion H. right. exists c. split; [now left|]. auto.
  - intros H. destruct (IH _ H) as [Hd|(c' & Hin & Hc')]; [now left|right].
    exists c'. split; [now right|assumption].
Qed.

(** What the loop has done when it comes to its end. *)
Lemma check_all_Ok t total cols acc m :
  Loader.check_all t total cols acc = Ok m ->
  m = acc ++ flat_map (fun c =>
          if listed t c
          then [(c, Loader.mkMissing
                      (count_star (filter (fun r => is_missing (cell t c r)) (rows t)))
                      (inject_Z (count_star (filter (fun r => is_missing (cell t c r)) (rows t)))
                       / inject_Z total * 100)%Q)]
          else []) cols
  /\ (existsb (listed t) cols = true -> total <> 0)
  /\ (forall c, In c cols -> listed t c = true ->
                textual (map (cell t c) (rows t)) = true).
Proof.
  revert acc. induction cols as [|c cols IH]; intros acc;
    cbn [Loader.check_all flat_map existsb].
  - intros H. apply Ok_inj in H. subst m. rewrite app_nil_r.
    split; [reflexivity|]. split; [discriminate|intros c []].
  - unfold Loader.check_missing at 1.
    destruct (listed t c) eqn:Hl; cbn [bind orb].
    + rewrite (listed_column _ _ Hl). cbn [bind]. unfold text_column.
      destruct (textual (map (cell t c) (rows t))) eqn:Ht; cbn [bind]; [|discriminate].
      unfold Loader.true_div. destruct (Z.eqb_spec total 0) as [->|Hz]; cbn [bind];
        [discriminate|].
      intros H. destruct (IH _ H) as (-> & _ & Htext). rewrite <- app_assoc.
      split; [reflexivity|]. split; [intros _; exact Hz|].
      intros c' [<-|Hin] Hl'; [exact Ht|now apply Htext].
    + intros H. destruct (IH _ H) as (-> & Hz & Htext).
      split; [reflexivity|]. split; [exact Hz|].
      intros c' [<-|Hin] Hl'; [congruence|now apply Htext].
Qed.


Lemma count_star_zero {A : Type} (l : list A) : count_star l = 0 <-> l = [].
Proof.
  unfold count_star. destruct l; simpl; split; try reflexivity; try discriminate; lia.
Qed.

Lemma validate_data_table dl w t :
  read_csv_auto w (Loader.data_path dl) = Ok t ->
  fst (Loader.validate_data dl w) = Loader.validate_table t.
Proof.
  intros Hr. unfold Loader.validate_data. simpl.
  change (read_csv_auto _ (Loader.data_path dl)) with (read_csv_auto w (Loader.data_path dl)).
  now rewrite Hr.
Qed.

(** What [validate_table] raises, and when it returns. *)
Lemma validate_table_Raise t e :
  Loader.validate_table t = Raise e ->
  (e = ZeroDivisionError /\ rows t = [])
  \/ exists c, In c Loader.key_columns /\ listed t c = true
               /\ textual (map (cell t c) (rows t)) = false
               /\ e = ConversionException c.
Proof.
  unfold Loader.validate_table.
  destruct (Loader.check_all t (count_star (rows t)) Loader.key_columns []) as [m|e0] eqn:Hc;
    cbn [bind]; [discriminate|].
  intros H. inversion H; subst e0.
  destruct (check_all_Raise _ _ _ _ _ Hc) as [(-> & Hz)|Hconv]; [left|now right].
  split; [reflexivity|]. now apply count_star_zero.
Qed.

Lemma validate_table_Ok t :
  rows t <> [] -> Loader.text_key_columns t = true ->
  exists r, Loader.validate_table t = Ok r.
Proof.
  intros Hne Htext. unfold Loader.validate_table.
  rewrite (check_all_nonzero t _ _ []) by (try assumption; now rewrite count_star_zero).
  cbn [bind]. eauto.
Qed.

(** C10.  The percentage of missing values is [missing / total_rows] with
    no guard.  For a file that is ingested as a relation with no row and
    with at least one of the key columns, [validate_data] raises
    [ZeroDivisionError] and returns no report.  With at least one row the
    division is defined: [validate_data] does not raise
    [ZeroDivisionError], and it returns a report when the key columns that
    the relation has are text (on a key column of another type the count
    of missing values fails before the division is reached). *)
Theorem validate_data_zero_rows (dl : Loader.DataLoader) (w : World) (t : Table) :
  read_csv_auto w (Loader.data_path dl) = Ok t ->
  (rows t = [] ->
   (exists c, In c Loader.key_columns /\ In c (schema t)) ->
   fst (Loader.validate_data dl w) = Raise ZeroDivisionError)
  /\ (rows t <> [] -> fst (Loader.validate_data dl w) <> Raise ZeroDivisionError)
  /\ (rows t <> [] -> Loader.text_key_columns t = true ->
      exists r, fst (Loader.validate_data dl w) = Ok r).
Proof.
  intros Hr. rewrite (validate_data_table dl w t Hr). split; [|split].
  - intros Hnil (c & Hkey & Hin). unfold Loader.validate_table.
    rewrite Hnil at 1. change (count_star (@nil Row)) with 0.
    rewrite (check_all_zero t _ _ Hnil).
    assert (He : existsb (listed t) Loader.key_columns = true).
    { apply existsb_exists. exists c. split; [assumption|]. now apply listed_In. }
    now rewrite He.
  - intros Hne H. destruct (validate_table_Raise _ _ H) as [(_ & Hnil)|(c & _ & _ & _ & Hc)];
      [contradiction|discriminate].
  - apply validate_table_Ok.
Qed.

Lemma validate_data_zero_rows_witness :
  fst (Loader.validate_data (Loader.mkDataLoader "empty.csv")
         (mkWorld [("empty.csv", Some Scenario.header_only)] 0 []))
  = Raise ZeroDivisionError
  /\ exists r, fst (Loader.validate_data (Loader.mkDataLoader "text.csv")
                      (mkWorld [("text.csv", Some Scenario.text_only)] 0 []))
               = Ok r.
Proof.
  split.
  - apply (proj1 (validate_data_zero_rows (Loader.mkDataLoader "empty.csv")
                    (mkWorld [("empty.csv", Some Scenario.header_only)] 0 [])
                    Scenario.header_only eq_refl)).
    + reflexivity.
    + exists "ID". simpl. auto.
  - apply (proj2 (proj2 (validate_data_zero_rows (Loader.mkDataLoader "text.csv")
                           (mkWorld [("text.csv", Some Scenario.text_only)] 0 [])
                           Scenario.text_only eq_refl))).
    + discriminate.
    + reflexivity.
Defined.



(** * The two-row scenario *)

Lemma emit_two (E : Engine) {A : Type} (x y : A) :
  emit E [x; y] = [x; y] \/ emit E [x; y] = [y; x].
Proof.
  apply Permutation_length_2_inv. apply Permutation_sym. apply emit_perm.
Qed.

Lemma two_rows_call (E : Engine) :
  fst (fst (compute_risk E ["State"; "Severity"] false false
              (Scenario.fresh "data.csv") Scenario.world0))
  = compute_risk_query E ["State"; "Severity"] false false Scenario.two_rows.
Proof. reflexivity. Qed.

(** The query on the two rows, up to the order of its two groups. *)
Lemma two_rows_query (E : Engine) :
  compute_risk_query E ["State"; "Severity"] false false Scenario.two_rows
  = Ok (sort_by by_year_count
          (map (agg_row (cell Scenario.two_rows "Severity"))
               (emit E [Scenario.group_sev2; Scenario.group_sev4]))).
Proof.
  unfold compute_risk_query.
  rewrite !column_present by reflexivity. cbn [bind].
  assert (Hcast : timestamp_cast Scenario.two_rows "Start_Time"
                    (cell Scenario.two_rows "Start_Time") = Ok tt) by reflexivity.
  rewrite Hcast. cbn [bind].
  assert (Hitems : mapM (bind_item Scenario.two_rows)
                     (group_cols ["State"; "Severity"] false false)
                   = Ok [fun r => extract Year (cell Scenario.two_rows "Start_Time" r);
                         cell Scenario.two_rows "State";
                         cell Scenario.two_rows "Severity"]) by reflexivity.
  rewrite Hitems. cbn [bind].
  assert (Hnum : number_column Scenario.two_rows "Severity"
                   (cell Scenario.two_rows "Severity") = Ok tt) by reflexivity.
  assert (Htext : text_column Scenario.two_rows "State"
                    (cell Scenario.two_rows "State") = Ok tt) by reflexivity.
  rewrite Hnum. cbn [bind]. rewrite Htext. cbn [bind]. unfold grouped. do 3 f_equal.
Qed.

(** C6, as it stands, would hold for every engine; it fails for one that
    hands out its groups last one first. *)
Lemma two_rows_order_counterexample :
  ~ (forall E : Engine,
       fst (fst (compute_risk E ["State"; "Severity"] false false
                   (Scenario.fresh "data.csv") Scenario.world0))
       = Ok [Scenario.row_sev2; Scenario.row_sev4]).
Proof.
  intros H. specialize (H lifo). vm_compute in H. discriminate H.
Qed.

(** C6, amended.  On the two-row dataset [compute_risk(['State',
    'Severity'], False, False)] returns exactly two rows, the one of
    severity 2 and the one of severity 4, each with [accident_count] 1 and
    with [avg_severity] 2 and 4.  Both rows are of 2020 and have the same
    count, and the query has no further sort key: their order is the order
    in which the engine hands out the two groups.  An engine that hands
    them out in order of first occurrence gives the input order, one that
    hands them out in reverse gives the other. *)
Theorem two_rows_scenario :
  (forall E : Engine,
     fst (fst (compute_risk E ["State"; "Severity"] false false
                 (Scenario.fresh "data.csv") Scenario.world0))
     = Ok [Scenario.row_sev2; Scenario.row_sev4]
     \/ fst (fst (compute_risk E ["State"; "Severity"] false false
                    (Scenario.fresh "data.csv") Scenario.world0))
        = Ok [Scenario.row_sev4; Scenario.row_sev2])
  /\ fst (fst (compute_risk fifo ["State"; "Severity"] false false
                 (Scenario.fresh "data.csv") Scenario.world0))
     = Ok [Scenario.row_sev2; Scenario.row_sev4]
  /\ fst (fst (compute_risk lifo ["State"; "Severity"] false false
                 (Scenario.fresh "data.csv") Scenario.world0))
     = Ok [Scenario.row_sev4; Scenario.row_sev2].
Proof.
  split; [|split; vm_compute; reflexivity].
  intros E. rewrite two_rows_call, two_rows_query.
  destruct (emit_two E Scenario.group_sev2 Scenario.group_sev4) as [H|H];
    rewrite H; [left|right]; vm_compute; reflexivity.
Qed.

(** * Which rows each aggregation leaves out *)

Lemma filter_twice {A : Type} (p q : A -> bool) (l : list A) :
  (forall x, p x = q x) -> filter p (filter q l) = filter p l.
Proof.
  intros H. induction l as [|x l IH]; simpl; [reflexivity|].
  destruct (q x) eqn:Hq; simpl; rewrite H, Hq; [now rewrite IH|exact IH].
Qed.

Lemma map_filter_comm {A B : Type} (f : A -> B) (p : B -> bool) (l : list A) :
  filter p (map f l) = map f (filter (fun x => p (f x)) l).
Proof.
  induction l as [|x l IH]; simpl; [reflexivity|].
  destruct (p (f x)); simpl; now rewrite IH.
Qed.

(** C2, as it stands, says that every aggregation gives what it would
    give on the complete rows alone.  The temporal patterns count a row
    whose state is NULL. *)
Lemma temporal_counts_stateless_row :
  ~ (forall (E : Engine) (t : Table),
       compute_temporal_patterns_query E t
       = compute_temporal_patterns_query E (restrict (complete_row t) t)).
Proof.
  intros H. specialize (H fifo Scenario.stateless_row).
  vm_compute in H. discriminate H.
Qed.

(** * Orders *)

Lemma string_leb_iff a b :
  String.leb a b = true <-> a = b \/ OrderedTypeEx.String_as_OT.lt a b.
Proof.
  unfold String.leb.
  destruct (String.compare a b) eqn:E.
  - apply OrderedTypeEx.String_as_OT.cmp_eq in E. tauto.
  - apply OrderedTypeEx.String_as_OT.cmp_lt in E. tauto.
  - split; [discriminate|]. intros [->|H].
    + assert (String.compare b b = Eq) by now apply OrderedTypeEx.String_as_OT.cmp_eq.
      congruence.
    + apply OrderedTypeEx.String_as_OT.cmp_lt in H. unfold OrderedTypeEx.String_as_OT.cmp in H. congruence.
Qed.

Lemma string_leb_trans a b c :
  String.leb a b = true -> String.leb b c = true -> String.leb a c = true.
Proof.
  rewrite !string_leb_iff. intros [->|H1] [->|H2]; auto.
  right. eapply OrderedTypeEx.String_as_OT.lt_trans; eassumption.
Qed.

Lemma value_leb_trans a b c :
  value_leb a b = true -> value_leb b c = true -> value_leb a c = true.
Proof.
  destruct a, b, c; simpl; try reflexivity; try discriminate;
    rewrite ?Z.leb_le; try lia.
  apply string_leb_trans.
Qed.

Lemma asc_then_count_desc_iff ka na kb nb :
  asc_then_count_desc ka na kb nb = true
  <-> value_leb ka kb = true /\ (value_leb kb ka = true -> nb <= na).
Proof.
  unfold asc_then_count_desc.
  destruct (value_leb ka kb), (value_leb kb ka); rewrite ?Z.leb_le;
    intuition (try discriminate; try lia).
Qed.

Lemma asc_then_count_desc_total ka na kb nb :
  asc_then_count_desc ka na kb nb = true \/ asc_then_count_desc kb nb ka na = true.
Proof.
  rewrite !asc_then_count_desc_iff.
  destruct (value_leb_total ka kb) as [H|H].
  - destruct (value_leb kb ka) eqn:H'.
    + destruct (Z.le_ge_cases nb na); [left|right]; auto.
    + left. split; [assumption|discriminate].
  - destruct (value_leb ka kb) eqn:H'.
    + destruct (Z.le_ge_cases nb na); [left|right]; auto.
    + right. split; [assumption|discriminate].
Qed.

Lemma asc_then_count_desc_trans ka na kb nb kc nc :
  asc_then_count_desc ka na kb nb = true ->
  asc_then_count_desc kb nb kc nc = true ->
  asc_then_count_desc ka na kc nc = true.
Proof.
  rewrite !asc_then_count_desc_iff. intros [Hab Hba] [Hbc Hcb]. split.
  - eapply value_leb_trans; eassumption.
  - intros Hca.
    assert (value_leb kb ka = true) by (eapply value_leb_trans; eassumption).
    assert (value_leb kc kb = true) by (eapply value_leb_trans; eassumption).
    specialize (Hba H). specialize (Hcb H0). lia.
Qed.

Lemma StronglySorted_impl {A : Type} (R S : A -> A -> Prop) (l : list A) :
  (forall a b, R a b -> S a b) -> StronglySorted R l -> StronglySorted S l.
Proof.
  intros H. induction 1 as [|a l Hs IH Hf]; constructor; [assumption|].
  eapply Forall_impl; [|exact Hf]. intros b. apply H.
Qed.

(** * Rows of a grouped aggregation *)

Lemma filter_filter_and {A : Type} (p q : A -> bool) (l : list A) :
  filter p (filter q l) = filter (fun x => q x && p x) l.
Proof.
  induction l as [|x l IH]; simpl; [reflexivity|].
  destruct (q x); simpl; [destruct (p x)|]; now rewrite IH.
Qed.

Lemma filter_ext_eq {A : Type} (p q : A -> bool) (l : list A) :
  (forall x, p x = q x) -> filter p l = filter q l.
Proof.
  intros H. induction l as [|x l IH]; simpl; [reflexivity|]. now rewrite H, IH.
Qed.

Lemma In_sort_by {A : Type} (leb : A -> A -> bool) (l : list A) x :
  In x (sort_by leb l) <-> In x l.
Proof.
  split; apply Permutation_in; [apply Permutation_sym|]; apply sort_by_perm.
Qed.

(** A row of [SELECT ... GROUP BY key ORDER BY ...] is made from one group:
    a key that occurs, with all the rows that have it. *)
Lemma In_grouped_rows {B : Type} (E : Engine) (leb : B -> B -> bool)
    (mk : Key * list Row -> B) (key : Row -> Key) (kept : list Row) (b : B) :
  In b (sort_by leb (map mk (grouped E key kept))) ->
  exists x, In x kept
            /\ b = mk (key x, filter (fun r => same_key Key_eq_dec (key r) (key x)) kept).
Proof.
  rewrite In_sort_by, in_map_iff. intros ([k ms] & <- & Hin).
  destruct (grouped_spec E key kept) as (_ & Hg & _).
  destruct (Hg k ms Hin) as (-> & Hk).
  apply in_map_iff in Hk. destruct Hk as (x & <- & Hx).
  exists x. split; [assumption|reflexivity].
Qed.

(** Conversely every kept row is in the group of some row of the result. *)
Lemma grouped_rows_cover {B : Type} (E : Engine) (leb : B -> B -> bool)
    (mk : Key * list Row -> B) (key : Row -> Key) (kept : list Row) (x : Row) :
  In x kept ->
  In (mk (key x, filter (fun r => same_key Key_eq_dec (key r) (key x)) kept))
     (sort_by leb (map mk (grouped E key kept))).
Proof.
  intros Hx. rewrite In_sort_by, in_map_iff.
  destruct (grouped_spec E key kept) as (_ & Hg & Hc).
  specialize (Hc x Hx). apply in_map_iff in Hc. destruct Hc as ([k ms] & Hk & Hin).
  simpl in Hk. subst k. exists (key x, ms). split; [|assumption].
  destruct (Hg _ _ Hin) as (-> & _). reflexivity.
Qed.

Lemma grouped_keys_NoDup {B : Type} (E : Engine) (leb : B -> B -> bool)
    (mk : Key * list Row -> B) (proj : B -> Key) (key : Row -> Key) (kept : list Row) :
  (forall g, proj (mk g) = fst g) ->
  NoDup (map proj (sort_by leb (map mk (grouped E key kept)))).
Proof.
  intros Hp.
  eapply Permutation_NoDup; [apply Permutation_map, sort_by_perm|].
  rewrite map_map. rewrite (map_ext _ fst) by (intros; apply Hp).
  apply grouped_spec.
Qed.

Lemma count_star_filter_le {A : Type} (p : A -> bool) (l : list A) :
  count_star (filter p l) <= count_star l.
Proof.
  unfold count_star. apply inj_le. apply filter_length_le.
Qed.

Lemma count_star_pos {A : Type} (l : list A) x : In x l -> 0 < count_star l.
Proof.
  unfold count_star. destruct l; simpl; [contradiction|lia].
Qed.

Lemma count_star_nonneg {A : Type} (l : list A) : 0 <= count_star l.
Proof. unfold count_star. lia. Qed.

Lemma percentage_bounds (s n : Z) :
  0 <= s <= n -> 0 < n ->
  (0 <= inject_Z (s * 100) / inject_Z n /\ inject_Z (s * 100) / inject_Z n <= 100)%Q.
Proof.
  intros Hs Hn.
  assert (Hq : (0 < inject_Z n)%Q) by (change 0%Q with (inject_Z 0); rewrite <- Zlt_Qlt; lia).
  split.
  - apply Qle_shift_div_l; [assumption|]. rewrite Qmult_0_l.
    change 0%Q with (inject_Z 0). rewrite <- Zle_Qle. lia.
  - apply Qle_shift_div_r; [assumption|].
    change 100%Q with (inject_Z 100). rewrite <- inject_Z_mult, <- Zle_Qle. lia.
Qed.

(** * State risk rates *)

Lemma In_state_risk_rates E t out r :
  compute_state_risk_rates_query E t = Ok out -> In r out ->
  total_accidents r = count_star (rate_group t (rate_year r) (rate_state r))
  /\ 0 < total_accidents r
  /\ severe_accidents r
     = count_star (filter (fun x => ge3 (cell t "Severity" x))
                          (rate_group t (rate_year r) (rate_state r)))
  /\ severe_accident_rate r
     = (inject_Z (severe_accidents r * 100) / inject_Z (total_accidents r))%Q.
Proof.
  unfold compute_state_risk_rates_query.
  destruct (column t "Start_Time") as [st|] eqn:Hst; [|discriminate].
  destruct (column t "State") as [state|] eqn:Hstate; [|discriminate].
  destruct (column t "Severity") as [sev|] eqn:Hsev; [|discriminate].
  cbn [bind].
  pass_guards. intros H Hin. inversion H; subst out; clear H.
  apply In_grouped_rows in Hin. destruct Hin as (x & Hx & ->).
  unfold rate_row. cbn [fst snd nth rate_year rate_state total_accidents
                        severe_accidents severe_accident_rate].
  assert (Hg : filter (fun r => same_key Key_eq_dec [extract Year (st r); state r]
                                  [extract Year (st x); state x])
                 (filter (fun r => risk_where (st r) (state r) (sev r)) (rows t))
               = rate_group t (extract Year (st x)) (state x)).
  { rewrite filter_filter_and. unfold rate_group. apply filter_ext_eq. intros r.
    unfold complete_row, year_of.
    now rewrite (column_cell _ _ _ Hst), (column_cell _ _ _ Hstate), (column_cell _ _ _ Hsev). }
  rewrite Hg. split; [reflexivity|]. split.
  - apply (count_star_pos _ x). rewrite <- Hg. apply filter_In. split; [assumption|].
    apply same_key_refl.
  - split; [|reflexivity]. f_equal. apply filter_ext_eq. intros r.
    now rewrite (column_cell _ _ _ Hsev).
Qed.

(** C4.  In every row of [compute_state_risk_rates], [total_accidents] is
    the number of complete rows of that year and state (at least one),
    [severe_accidents] the number of those whose severity is at least 3,
    and [severe_accident_rate] is [severe_accidents * 100 /
    total_accidents]; so [severe_accidents <= total_accidents] and the rate
    lies between 0 and 100.  (The rate is kept as a rational.) *)
Theorem state_risk_rates_rows (E : Engine) (t : Table) (out : list RateRow) (r : RateRow) :
  compute_state_risk_rates_query E t = Ok out -> In r out ->
  total_accidents r = count_star (rate_group t (rate_year r) (rate_state r))
  /\ severe_accidents r
     = count_star (filter (fun x => ge3 (cell t "Severity" x))
                          (rate_group t (rate_year r) (rate_state r)))
  /\ severe_accident_rate r
     = (inject_Z (severe_accidents r * 100) / inject_Z (total_accidents r))%Q
  /\ 0 <= severe_accidents r <= total_accidents r
  /\ (0 <= severe_accident_rate r /\ severe_accident_rate r <= 100)%Q.
Proof.
  intros H Hin. destruct (In_state_risk_rates E t out r H Hin) as (Ht & Hpos & Hs & Hr).
  assert (Hle : 0 <= severe_accidents r <= total_accidents r).
  { rewrite Hs, Ht. split; [apply count_star_nonneg|apply count_star_filter_le]. }
  repeat split; try assumption; try apply Hle; rewrite Hr; now apply percentage_bounds.
Qed.

Lemma state_risk_rates_rows_witness :
  total_accidents Scenario.ca_2021
  = count_star (rate_group Scenario.mixed (VInt 2021) (VStr "CA"))
  /\ severe_accidents Scenario.ca_2021
     = count_star (filter (fun x => ge3 (cell Scenario.mixed "Severity" x))
                          (rate_group Scenario.mixed (VInt 2021) (VStr "CA")))
  /\ severe_accident_rate Scenario.ca_2021 = (inject_Z (3 * 100) / inject_Z 10)%Q
  /\ 0 <= 3 <= 10
  /\ (0 <= severe_accident_rate Scenario.ca_2021
      /\ severe_accident_rate Scenario.ca_2021 <= 100)%Q.
Proof.
  apply (state_risk_rates_rows fifo Scenario.mixed
           [Scenario.ca_2021;
            mkRateRow (VInt 2021) (VStr "NV") 1 0 (0 # 1)%Q]
           Scenario.ca_2021).
  - vm_compute. reflexivity.
  - simpl. auto.
Defined.

(** * The multi-dimensional aggregation *)

Lemma bind_item_value t c f :
  bind_item t c = Ok f -> forall r, f r = item_value t c r.
Proof.
  unfold bind_item, item_value. destruct (parse_item c) as [p|c'|x].
  - destruct (column t "Start_Time") as [st|] eqn:Hst; [|discriminate].
    simpl. intros H r. inversion H. now rewrite (column_cell _ _ _ Hst).
  - apply column_cell.
  - discriminate.
Qed.

Lemma mapM_bind_items t cols items :
  mapM (bind_item t) cols = Ok items ->
  forall r, map (fun item => item r) items = map (fun c => item_value t c r) cols.
Proof.
  revert items. induction cols as [|c cols IH]; simpl; intros items.
  - intros H. now inversion H.
  - destruct (bind_item t c) as [f|] eqn:Hf; [|discriminate]. simpl.
    pass_guards.
    destruct (mapM (bind_item t) cols) as [fs|]; [|discriminate]. simpl.
    intros H r. inversion H; subst. simpl.
    now rewrite (bind_item_value _ _ _ Hf), (IH fs eq_refl).
Qed.





(** * Temporal patterns *)

Lemma sum_Z_perm l l' : Permutation l l' -> sum_Z l = sum_Z l'.
Proof. induction 1; simpl; lia. Qed.

Lemma sum_Z_lengths {A : Type} (ls : list (list A)) :
  sum_Z (map count_star ls) = Z.of_nat (list_sum (map (@List.length A) ls)).
Proof.
  induction ls as [|l ls IH]; simpl; [reflexivity|].
  rewrite IH. unfold count_star. lia.
Qed.

(** The counts of the groups add up to the number of rows grouped. *)
Lemma grouped_counts (E : Engine) (key : Row -> Key) (kept : list Row) :
  sum_Z (map (fun g => count_star (snd g)) (grouped E key kept)) = count_star kept.
Proof.
  destruct (grouped_spec E key kept) as (Hnd & Hg & Hc).
  rewrite <- (map_map snd count_star), sum_Z_lengths. unfold count_star. f_equal.
  rewrite <- (partition_sizes Key_eq_dec key (map fst (grouped E key kept)) kept Hnd Hc).
  rewrite !map_map. f_equal. apply map_ext_in. intros [k ms] Hin. simpl.
  now destruct (Hg k ms Hin) as (-> & _).
Qed.

Lemma temporal_query_counts E key order t out :
  temporal_query E key order t = Ok out ->
  sum_Z (map accident_count out) = count_star (filter (has_start t) (rows t)).
Proof.
  unfold temporal_query.
  destruct (column t "Start_Time") as [st|] eqn:Hst; [|discriminate].
  pass_guards.
  destruct (column t "Severity") as [sev|] eqn:Hsev; [|discriminate].
  cbn [bind].
  pass_guards. intros H. inversion H; subst out; clear H.
  rewrite <- (sum_Z_perm _ _ (Permutation_map accident_count (sort_by_perm order _))).
  rewrite map_map. unfold agg_row. cbn [accident_count].
  rewrite grouped_counts. f_equal. apply filter_ext_eq. intros r.
  unfold has_start. now rewrite (column_cell _ _ _ Hst).
Qed.


Lemma temporal_query_rows E key order t out :
  temporal_query E key order t = Ok out ->
  NoDup (map dims out)
  /\ forall r, In r out ->
       (exists x, In x (rows t) /\ has_start t x = true
                  /\ dims r = [key (cell t "Start_Time" x)])
       /\ accident_count r = count_star (temporal_group t key (dims r))
       /\ avg_severity r = avg (severities t (temporal_group t key (dims r))).
Proof.
  unfold temporal_query.
  destruct (column t "Start_Time") as [st|] eqn:Hst; [|discriminate].
  pass_guards.
  destruct (column t "Severity") as [sev|] eqn:Hsev; [|discriminate].
  cbn [bind].
  pass_guards. intros H. inversion H; subst out; clear H. split.
  - apply (grouped_keys_NoDup E order (agg_row sev) dims). reflexivity.
  - intros r Hin. apply In_grouped_rows in Hin. destruct Hin as (x & Hx & ->).
    unfold agg_row. cbn [fst snd dims accident_count avg_severity].
    assert (Hg : filter (fun r => same_key Key_eq_dec [key (st r)] [key (st x)])
                   (filter (fun r => is_not_null (st r)) (rows t))
                 = temporal_group t key [key (st x)]).
    { rewrite filter_filter_and. unfold temporal_group. apply filter_ext_eq.
      intros r. unfold has_start. now rewrite (column_cell _ _ _ Hst). }
    rewrite Hg. apply filter_In in Hx. destruct Hx as (Hx & Hn).
    split; [|split].
    + exists x. unfold has_start. rewrite <- (column_cell _ _ _ Hst). auto.
    + reflexivity.
    + unfold severities. f_equal. apply map_ext. intros r. apply (column_cell _ _ _ Hsev).
Qed.







(** * Weather by state *)

Lemma filter_perm {A : Type} (p : A -> bool) (l l' : list A) :
  Permutation l l' -> Permutation (filter p l) (filter p l').
Proof.
  induction 1 as [|x l l' _ IH|x y l|l l' l'' _ IH1 _ IH2]; simpl.
  - constructor.
  - destruct (p x); [now constructor|assumption].
  - destruct (p y), (p x); try reflexivity. apply perm_swap.
  - etransitivity; eassumption.
Qed.

Lemma same_value_true a b : same_value a b = true <-> a = b.
Proof. apply same_key_true. Qed.

Lemma same_value_refl a : same_value a a = true.
Proof. now apply same_value_true. Qed.

Lemma same_value_sym a b : same_value a b = same_value b a.
Proof.
  destruct (same_value a b) eqn:E1, (same_value b a) eqn:E2; try reflexivity.
  - apply same_value_true in E1. subst. now rewrite same_value_refl in E2.
  - apply same_value_true in E2. subst. now rewrite same_value_refl in E1.
Qed.

(** A numbered row carries the fields of the group it numbers. *)
Lemma row_numbers_In all seen l r :
  In r (row_numbers all seen l) ->
  exists a, In a l /\ w_state r = wa_state a /\ w_weather r = wa_weather a
            /\ w_count r = wa_count a
            /\ state_percentage r
               = (inject_Z (wa_count a * 100) / inject_Z (state_total all (wa_state a)))%Q.
Proof.
  revert seen. induction l as [|a l IH]; simpl; intros seen; [contradiction|].
  intros [<-|Hin].
  - exists a. simpl. auto 6.
  - destruct (IH _ Hin) as (a' & Ha' & H). exists a'. auto.
Qed.

Lemma row_numbers_counts all seen l s :
  map w_count (filter (fun r => same_value (w_state r) s) (row_numbers all seen l))
  = map wa_count (filter (fun a => same_value (wa_state a) s) l).
Proof.
  revert seen. induction l as [|a l IH]; simpl; intros seen; [reflexivity|].
  destruct (same_value (wa_state a) s); simpl; now rewrite IH.
Qed.

Lemma row_numbers_keys all seen l :
  map (fun r => [w_state r; w_weather r]) (row_numbers all seen l)
  = map (fun a => [wa_state a; wa_weather a]) l.
Proof.
  revert seen. induction l as [|a l IH]; simpl; intros seen; [reflexivity|].
  now rewrite IH.
Qed.

Lemma count_seen_cons s x seen :
  count_star (filter (same_value s) (x :: seen))
  = (if same_value s x then 1 else 0) + count_star (filter (same_value s) seen).
Proof.
  cbn [filter]. destruct (same_value s x); unfold count_star; cbn [List.length]; lia.
Qed.

(** Within one state the numbers run on from the rows already seen. *)
Lemma row_numbers_ranks all seen l s :
  map weather_rank (filter (fun r => same_value (w_state r) s) (row_numbers all seen l))
  = map Z.of_nat
        (seq (S (List.length (filter (same_value s) seen)))
             (List.length (filter (fun a => same_value (wa_state a) s) l))).
Proof.
  revert seen. induction l as [|a l IH]; intros seen; [reflexivity|].
  cbn [row_numbers filter w_state].
  destruct (same_value (wa_state a) s) eqn:Hs.
  - apply same_value_true in Hs. subst s.
    cbn [map weather_rank List.length seq]. rewrite IH. f_equal.
    + unfold count_star. lia.
    + cbn [filter]. rewrite same_value_refl. reflexivity.
  - rewrite IH. cbn [filter]. rewrite (same_value_sym s), Hs. reflexivity.
Qed.

Lemma row_numbers_rank_ge all seen l r :
  In r (row_numbers all seen l) ->
  1 + count_star (filter (same_value (w_state r)) seen) <= weather_rank r.
Proof.
  revert seen. induction l as [|a l IH]; intros seen; [contradiction|].
  cbn [row_numbers In]. intros [<-|Hin].
  - cbn [w_state weather_rank]. lia.
  - specialize (IH _ Hin). rewrite count_seen_cons in IH.
    destruct (same_value (w_state r) (wa_state a)); lia.
Qed.

(** In rows ordered by count descending, the row numbered first in its
    state has the largest count of its state. *)
Lemma row_numbers_first all seen l r r' :
  StronglySorted (le_of window_order) l ->
  In r (row_numbers all seen l) -> In r' (row_numbers all seen l) ->
  w_state r' = w_state r ->
  weather_rank r = 1 + count_star (filter (same_value (w_state r)) seen) ->
  w_count r' <= w_count r.
Proof.
  intros Hs. revert seen. induction Hs as [|a l Hs IH Hf]; intros seen;
    [contradiction|].
  cbn [row_numbers In]. intros [<-|Hr] [<-|Hr'] Hst Hrank.
  - lia.
  - cbn [w_count]. destruct (row_numbers_In _ _ _ _ Hr') as (a' & Ha' & _ & _ & -> & _).
    rewrite Forall_forall in Hf. specialize (Hf a' Ha').
    unfold le_of, window_order in Hf. now apply Z.leb_le in Hf.
  - exfalso. pose proof (row_numbers_rank_ge _ _ _ _ Hr) as Hge.
    rewrite count_seen_cons in Hge. cbn [w_state] in Hst. rewrite Hst in Hge.
    rewrite same_value_refl in Hge. lia.
  - apply (IH (wa_state a :: seen)); try assumption.
    pose proof (row_numbers_rank_ge _ _ _ _ Hr) as Hge.
    rewrite count_seen_cons in *.
    destruct (same_value (w_state r) (wa_state a)); lia.
Qed.

Lemma window_order_total a b : window_order a b = true \/ window_order b a = true.
Proof. unfold window_order. rewrite !Z.leb_le. lia. Qed.

Lemma window_order_trans a b c :
  window_order a b = true -> window_order b c = true -> window_order a c = true.
Proof. unfold window_order. rewrite !Z.leb_le. lia. Qed.

Lemma filter_all {A : Type} (p : A -> bool) (l : list A) :
  (forall x, In x l -> p x = true) -> filter p l = l.
Proof.
  induction l as [|x l IH]; simpl; intros H; [reflexivity|].
  rewrite (H x (or_introl eq_refl)), IH; [reflexivity|]. intros; apply H; now right.
Qed.

Section WeatherGroups.
Variables (E : Engine) (state weather sev : Row -> Value) (kept : list Row).

Let key : Row -> Key := fun r => [state r; weather r].
Let gs : list (Key * list Row) := grouped E key kept.
Let aggs : list WeatherAgg := map (weather_agg sev) gs.

(** The keys of the groups of one state. *)
Let keys_of (s : Value) : list Key :=
  filter (fun k => same_value (nth 0 k VNull) s) (map fst gs).

Lemma keys_of_NoDup s : NoDup (keys_of s).
Proof. apply NoDup_filter. apply grouped_spec. Qed.

Lemma keys_of_In s k :
  In k (keys_of s) <-> exists x, In x kept /\ state x = s /\ k = [s; weather x].
Proof.
  unfold keys_of. rewrite filter_In. destruct (grouped_spec E key kept) as (_ & Hg & Hc).
  split.
  - intros (Hin & Hs). apply in_map_iff in Hin. destruct Hin as ([k' ms] & <- & Hin).
    destruct (Hg _ _ Hin) as (_ & Hk). apply in_map_iff in Hk.
    destruct Hk as (x & Hx & Hxin). simpl in *. subst k'.
    apply same_value_true in Hs. simpl in Hs. exists x. subst s. auto.
  - intros (x & Hx & Hs & ->). split.
    + subst s. apply (Hc x Hx).
    + simpl. apply same_value_refl.
Qed.

Lemma aggs_of_state s :
  filter (fun a => same_value (wa_state a) s) aggs
  = map (weather_agg sev) (filter (fun g => same_value (nth 0 (fst g) VNull) s) gs).
Proof. unfold aggs. now rewrite map_filter_comm. Qed.

Lemma keys_of_groups s :
  keys_of s = map fst (filter (fun g => same_value (nth 0 (fst g) VNull) s) gs).
Proof. unfold keys_of. now rewrite map_filter_comm. Qed.

(** [SUM(COUNT( * )) OVER (PARTITION BY State)] is the number of kept rows
    of the state. *)
Lemma grouped_state_total s :
  state_total aggs s = count_star (filter (fun r => same_value (state r) s) kept).
Proof.
  unfold state_total. rewrite aggs_of_state, map_map.
  change (fun x => wa_count (weather_agg sev x)) with (fun x : Key * list Row => count_star (snd x)).
  rewrite <- (map_map snd count_star), sum_Z_lengths. unfold count_star. f_equal.
  rewrite <- (partition_sizes Key_eq_dec key (keys_of s)
                (filter (fun r => same_value (state r) s) kept) (keys_of_NoDup s)).
  - rewrite keys_of_groups, !map_map. f_equal. apply map_ext_in. intros [k ms] Hin. simpl.
    apply filter_In in Hin. destruct Hin as (Hin & Hs). simpl in Hs.
    destruct (grouped_spec E key kept) as (_ & Hg & _).
    destruct (Hg _ _ Hin) as (-> & Hk). f_equal.
    rewrite filter_filter_and. apply filter_ext_eq. intros r.
    destruct (same_key Key_eq_dec (key r) k) eqn:Hr; [|now rewrite andb_false_r].
    rewrite andb_true_r. apply same_key_true in Hr. subst k. symmetry. exact Hs.
  - intros r Hr. apply filter_In in Hr. destruct Hr as (Hr & Hs).
    apply keys_of_In. exists r. apply same_value_true in Hs. subst s. auto.
Qed.

(** A state has as many groups as its kept rows have weather conditions. *)
Lemma grouped_state_size s :
  List.length (filter (fun a => same_value (wa_state a) s) aggs)
  = List.length (distinct Value_eq_dec
                   (map weather (filter (fun r => same_value (state r) s) kept))).
Proof.
  rewrite aggs_of_state, length_map.
  transitivity (List.length (map (fun k => nth 1 k VNull) (keys_of s))).
  { rewrite length_map, keys_of_groups, length_map. reflexivity. }
  apply Permutation_length. apply NoDup_Permutation.
  - apply NoDup_map_NoDup_ForallPairs; [|apply keys_of_NoDup].
    intros k k' Hk Hk' Heq.
    apply keys_of_In in Hk, Hk'.
    destruct Hk as (x & _ & _ & ->), Hk' as (x' & _ & _ & ->).
    simpl in Heq. now rewrite Heq.
  - apply distinct_NoDup.
  - intros w. rewrite distinct_In, !in_map_iff. split.
    + intros (k & <- & Hk). apply keys_of_In in Hk. destruct Hk as (x & Hx & Hs & ->).
      exists x. split; [reflexivity|]. apply filter_In. split; [assumption|].
      now apply same_value_true.
    + intros (x & <- & Hx). apply filter_In in Hx. destruct Hx as (Hx & Hs).
      apply same_value_true in Hs.
      exists [s; weather x]. split; [reflexivity|]. apply keys_of_In. eauto.
Qed.

(** Every group stands for a kept row and counts the rows like it. *)
Lemma aggs_In a :
  In a aggs ->
  exists x, In x kept /\ wa_state a = state x /\ wa_weather a = weather x
            /\ wa_count a
               = count_star (filter (fun r => same_key Key_eq_dec (key r) (key x)) kept).
Proof.
  unfold aggs. rewrite in_map_iff. intros ([k ms] & <- & Hin).
  destruct (grouped_spec E key kept) as (_ & Hg & _).
  destruct (Hg _ _ Hin) as (-> & Hk). apply in_map_iff in Hk.
  destruct Hk as (x & <- & Hx). exists x. simpl. auto.
Qed.

Lemma aggs_keys_NoDup : NoDup (map (fun a => [wa_state a; wa_weather a]) aggs).
Proof.
  unfold aggs. rewrite map_map.
  destruct (grouped_spec E key kept) as (Hnd & Hg & _).
  rewrite (map_ext_in _ fst); [exact Hnd|].
  intros [k ms] Hin. destruct (Hg _ _ Hin) as (_ & Hk).
  apply in_map_iff in Hk. destruct Hk as (x & <- & _). reflexivity.
Qed.

End WeatherGroups.

(** What a result of the weather query is made of. *)
Lemma compute_weather_risk_query_Ok E t out :
  compute_weather_risk_query E t = Ok out ->
  exists aggs ordered,
    aggs = map (weather_agg (cell t "Severity"))
               (grouped E (fun r => [cell t "State" r; cell t "Weather_Condition" r])
                        (filter (weather_row t) (rows t)))
    /\ Permutation aggs ordered
    /\ StronglySorted (le_of window_order) ordered
    /\ Permutation (row_numbers aggs [] ordered) out.
Proof.
  unfold compute_weather_risk_query.
  destruct (column t "State") as [state|] eqn:Hstate; [|discriminate].
  destruct (column t "Weather_Condition") as [weather|] eqn:Hw; [|discriminate].
  destruct (column t "Severity") as [sev|] eqn:Hsev; [|discriminate].
  apply column_is_cell in Hstate, Hw, Hsev. subst state weather sev.
  cbn [bind].
  pass_guards. intros H. inversion H; clear H.
  eexists. eexists. split; [reflexivity|]. split; [|split].
  - etransitivity; [apply Permutation_sym, emit_perm|apply sort_by_perm].
  - apply sort_by_strongly_sorted; [apply window_order_total|apply window_order_trans].
  - etransitivity; [apply Permutation_sym, emit_perm|apply sort_by_perm].
Qed.

Lemma state_group_kept t s :
  state_group t s
  = filter (fun r => same_value (cell t "State" r) s) (filter (weather_row t) (rows t)).
Proof. unfold state_group. now rewrite filter_filter_and. Qed.

Lemma weather_group_kept t s wx :
  weather_group t s wx
  = filter (fun r => same_key Key_eq_dec
                       [cell t "State" r; cell t "Weather_Condition" r] [s; wx])
           (filter (weather_row t) (rows t)).
Proof. unfold weather_group. now rewrite filter_filter_and. Qed.

Lemma sum_Q_shares (T : Z) (cs : list Z) :
  (sum_Q (map (fun c => inject_Z (c * 100) / inject_Z T) cs)
   == inject_Z (sum_Z cs * 100) / inject_Z T)%Q.
Proof.
  induction cs as [|c cs IH]; cbn [map sum_Q sum_Z fold_right].
  - unfold Qdiv. now rewrite Qmult_0_l.
  - fold (sum_Q (map (fun c => inject_Z (c * 100) / inject_Z T)%Q cs)).
    fold (sum_Z cs). rewrite IH.
    rewrite Z.mul_add_distr_r, inject_Z_plus. unfold Qdiv. ring.
Qed.

Lemma share_of_total (T : Z) : 0 < T -> (inject_Z (T * 100) / inject_Z T == 100)%Q.
Proof.
  intros H. rewrite inject_Z_mult. change (inject_Z 100) with 100%Q. field.
  intros E. unfold Qeq in E. simpl in E. lia.
Qed.

Lemma sum_Q_perm l l' : Permutation l l' -> (sum_Q l == sum_Q l')%Q.
Proof.
  induction 1 as [|x l l' _ IH|x y l|l l' l'' _ IH1 _ IH2]; cbn [sum_Q fold_right].
  - reflexivity.
  - fold (sum_Q l). fold (sum_Q l'). now rewrite IH.
  - fold (sum_Q l). ring.
  - etransitivity; eassumption.
Qed.

(** C3.  In a result of [compute_weather_risk]: each row counts the kept
    rows of its state and weather condition (kept: state and weather
    neither NULL nor empty, severity not NULL), no pair of state and
    weather condition occurs twice, and [state_percentage] is the row's
    count times 100 over the number of kept rows of its state.  For every
    state, the state has as many rows as its kept rows have distinct
    weather conditions; their [weather_rank]s are a permutation of 1..k for
    that number k; the row ranked 1 has the largest count of the state; and
    the percentages of a state that occurs add up to 100 (exactly, the
    percentages being kept as rationals). *)
Theorem weather_risk_ranks (E : Engine) (t : Table) (out : list WeatherRow) :
  compute_weather_risk_query E t = Ok out ->
  (forall r, In r out ->
     w_count r = count_star (weather_group t (w_state r) (w_weather r))
     /\ 0 < w_count r
     /\ state_percentage r
        = (inject_Z (w_count r * 100)
           / inject_Z (count_star (state_group t (w_state r))))%Q)
  /\ NoDup (map (fun r => [w_state r; w_weather r]) out)
  /\ (forall s,
        Z.of_nat (List.length (of_state s out))
        = count_distinct (map (cell t "Weather_Condition") (state_group t s))
        /\ Permutation (map weather_rank (of_state s out))
                       (map Z.of_nat (seq 1 (List.length (of_state s out))))
        /\ (forall r r', In r (of_state s out) -> In r' (of_state s out) ->
                         weather_rank r = 1 -> w_count r' <= w_count r)
        /\ (of_state s out <> [] ->
            (sum_Q (map state_percentage (of_state s out)) == 100)%Q)).
Proof.
  intros H. apply compute_weather_risk_query_Ok in H.
  destruct H as (aggs & ordered & Haggs & Hord & Hsorted & Hout).
  set (kept := filter (weather_row t) (rows t)) in *.
  set (state := cell t "State") in *.
  set (weather := cell t "Weather_Condition") in *.
  set (sev := cell t "Severity") in *.
  (* a row of the result, traced back to its group and to a kept row *)
  assert (Hrow : forall r, In r out ->
            exists x, In x kept /\ w_state r = state x /\ w_weather r = weather x
              /\ w_count r = count_star (weather_group t (state x) (weather x))
              /\ state_percentage r
                 = (inject_Z (w_count r * 100)
                    / inject_Z (count_star (state_group t (state x))))%Q).
  { intros r Hr. apply (Permutation_in _ (Permutation_sym Hout)) in Hr.
    destruct (row_numbers_In _ _ _ _ Hr) as (a & Ha & Hs & Hw & Hc & Hp).
    apply (Permutation_in _ (Permutation_sym Hord)) in Ha. rewrite Haggs in Ha.
    destruct (aggs_In E state weather sev kept a Ha) as (x & Hx & Hsx & Hwx & Hcx).
    exists x. rewrite Hs, Hw, Hc, Hp, Hsx, Hwx, Hcx.
    rewrite weather_group_kept, state_group_kept.
    repeat split; try assumption; try reflexivity.
    rewrite Haggs, (grouped_state_total E state weather sev kept). reflexivity. }
  split; [|split].
  - intros r Hr. destruct (Hrow r Hr) as (x & Hx & -> & -> & Hc & Hp).
    split; [assumption|]. split; [|assumption].
    rewrite Hc. apply (count_star_pos _ x). rewrite weather_group_kept.
    apply filter_In. split; [assumption|]. apply same_key_refl.
  - eapply Permutation_NoDup; [apply Permutation_map; exact Hout|].
    rewrite row_numbers_keys.
    eapply Permutation_NoDup; [apply Permutation_map; exact Hord|].
    rewrite Haggs. apply aggs_keys_NoDup.
  - intros s.
    assert (Hs_out : Permutation (of_state s (row_numbers aggs [] ordered)) (of_state s out))
      by (apply filter_perm; exact Hout).
    assert (Hs_ord : Permutation (filter (fun a => same_value (wa_state a) s) aggs)
                                 (filter (fun a => same_value (wa_state a) s) ordered))
      by (apply filter_perm; exact Hord).
    assert (Hlen : List.length (of_state s out)
                   = List.length (filter (fun a => same_value (wa_state a) s) ordered)).
    { rewrite <- (Permutation_length Hs_out).
      rewrite <- (length_map w_count). unfold of_state.
      now rewrite row_numbers_counts, length_map. }
    assert (Hsum : sum_Z (map w_count (of_state s out)) = count_star (state_group t s)).
    { rewrite <- (sum_Z_perm _ _ (Permutation_map w_count Hs_out)). unfold of_state.
      rewrite row_numbers_counts.
      rewrite <- (sum_Z_perm _ _ (Permutation_map wa_count Hs_ord)).
      fold (state_total aggs s).
      rewrite Haggs, (grouped_state_total E state weather sev kept), state_group_kept.
      reflexivity. }
    split; [|split; [|split]].
    + rewrite Hlen, <- (Permutation_length Hs_ord), Haggs.
      rewrite (grouped_state_size E state weather sev kept).
      unfold count_distinct, count_star. rewrite state_group_kept. fold kept. fold state.
      f_equal. f_equal. f_equal. symmetry. apply filter_all.
      intros w Hw. apply in_map_iff in Hw. destruct Hw as (x & <- & Hx).
      apply filter_In in Hx. destruct Hx as (Hx & _). unfold kept in Hx.
      apply filter_In in Hx. destruct Hx as (_ & Hx).
      unfold weather_row, weather_where in Hx.
      apply andb_prop in Hx. destruct Hx as (Hx & _).
      apply andb_prop in Hx. destruct Hx as (_ & Hx).
      apply andb_prop in Hx. now destruct Hx as (Hx & _).
    + etransitivity; [apply Permutation_map, Permutation_sym, Hs_out|].
      unfold of_state at 1. rewrite row_numbers_ranks. cbn [filter List.length].
      rewrite Hlen. reflexivity.
    + intros r r' Hr Hr' Hrank.
      apply (Permutation_in _ (Permutation_sym Hs_out)) in Hr, Hr'.
      unfold of_state in Hr, Hr'. apply filter_In in Hr, Hr'.
      destruct Hr as (Hr & Hrs), Hr' as (Hr' & Hrs').
      apply same_value_true in Hrs, Hrs'.
      apply (row_numbers_first aggs [] ordered r r' Hsorted Hr Hr').
      * congruence.
      * rewrite Hrank. reflexivity.
    + intros Hne.
      assert (Hpos : 0 < count_star (state_group t s)).
      { destruct (of_state s out) as [|r rs] eqn:Hrs; [contradiction|].
        assert (Hr : In r (of_state s out)) by (rewrite Hrs; now left).
        unfold of_state in Hr. apply filter_In in Hr. destruct Hr as (Hr & Hs).
        apply same_value_true in Hs.
        destruct (Hrow r Hr) as (x & Hx & Hsx & _).
        apply (count_star_pos _ x). rewrite state_group_kept.
        apply filter_In. split; [assumption|]. apply same_value_true. fold state.
        congruence. }
      assert (Hmap : map state_percentage (of_state s out)
                     = map (fun c => inject_Z (c * 100)
                                     / inject_Z (count_star (state_group t s)))%Q
                           (map w_count (of_state s out))).
      { rewrite map_map. apply map_ext_in. intros r Hr.
        unfold of_state in Hr. apply filter_In in Hr. destruct Hr as (Hr & Hs).
        apply same_value_true in Hs.
        destruct (Hrow r Hr) as (x & _ & Hsx & _ & _ & ->). congruence. }
      rewrite Hmap, sum_Q_shares, Hsum. now apply share_of_total.
Qed.

Lemma weather_risk_ranks_witness :
  Permutation (map weather_rank (of_state (VStr "CA") Scenario.mixed_weather))
              (map Z.of_nat (seq 1 3))
  /\ (sum_Q (map state_percentage (of_state (VStr "CA") Scenario.mixed_weather)) == 100)%Q.
Proof.
  destruct (weather_risk_ranks fifo Scenario.mixed Scenario.mixed_weather)
    as (_ & _ & H); [vm_compute; reflexivity|].
  destruct (H (VStr "CA")) as (_ & Hp & _ & Hs).
  split; [exact Hp|]. apply Hs. discriminate.
Defined.

(** * Further properties of the aggregations *)

Lemma sum_Z_ge_length (l : list Z) :
  (forall n, In n l -> 1 <= n) -> Z.of_nat (List.length l) <= sum_Z l.
Proof.
  induction l as [|n l IH]; intros H; cbn [sum_Z fold_right List.length]; [lia|].
  fold (sum_Z l). specialize (IH (fun m Hm => H m (or_intror Hm))).
  specialize (H n (or_introl eq_refl)). lia.
Qed.

(** Every row of a grouped aggregation counts at least one row. *)
Lemma grouped_rows_positive {B : Type} (E : Engine) (leb : B -> B -> bool)
    (mk : Key * list Row -> B) (cnt : B -> Z) (key : Row -> Key) (kept : list Row) :
  (forall g, cnt (mk g) = count_star (snd g)) ->
  forall b, In b (sort_by leb (map mk (grouped E key kept))) -> 1 <= cnt b.
Proof.
  intros Hc b Hb. apply In_grouped_rows in Hb. destruct Hb as (x & Hx & ->).
  rewrite Hc. cbn [snd].
  assert (0 < count_star (filter (fun r => same_key Key_eq_dec (key r) (key x)) kept)).
  { apply (count_star_pos _ x). apply filter_In. split; [assumption|apply same_key_refl]. }
  lia.
Qed.

Lemma grouped_rows_total {B : Type} (E : Engine) (leb : B -> B -> bool)
    (mk : Key * list Row -> B) (cnt : B -> Z) (key : Row -> Key) (kept : list Row) :
  (forall g, cnt (mk g) = count_star (snd g)) ->
  sum_Z (map cnt (sort_by leb (map mk (grouped E key kept)))) = count_star kept.
Proof.
  intros Hc.
  rewrite <- (sum_Z_perm _ _ (Permutation_map cnt (sort_by_perm leb _))).
  rewrite map_map, (map_ext _ (fun g => count_star (snd g))) by (intros; apply Hc).
  apply grouped_counts.
Qed.

(** X1.  In a result of [compute_risk] every row counts at least one
    accident, the counts add up to the number of complete rows, and there
    are no more rows than complete rows. *)
Theorem compute_risk_counts (E : Engine) (t : Table) (levels : list string)
    (include_weather include_time : bool) (out : list AggRow) :
  compute_risk_query E levels include_weather include_time t = Ok out ->
  (forall r, In r out -> 1 <= accident_count r)
  /\ sum_Z (map accident_count out) = count_star (filter (complete_row t) (rows t))
  /\ Z.of_nat (List.length out) <= count_star (filter (complete_row t) (rows t)).
Proof.
  unfold compute_risk_query.
  destruct (column t "Start_Time") as [st|] eqn:Hst; [|discriminate].
  destruct (column t "State") as [state|] eqn:Hstate; [|discriminate].
  destruct (column t "Severity") as [sev|] eqn:Hsev; [|discriminate].
  apply column_is_cell in Hst, Hstate, Hsev. subst st state sev. cbn [bind].
  pass_guards.
  destruct (mapM (bind_item t) (group_cols levels include_weather include_time))
    as [items|]; [|discriminate].
  cbn [bind].
  pass_guards. intros H. inversion H; subst out; clear H.
  assert (Hpos : forall r,
            In r (sort_by by_year_count
                    (map (agg_row (cell t "Severity"))
                       (grouped E (fun r => map (fun item : Row -> Value => item r) items)
                          (filter (complete_row t) (rows t))))) ->
            1 <= accident_count r)
    by (apply grouped_rows_positive; reflexivity).
  assert (Hsum : sum_Z (map accident_count
                    (sort_by by_year_count
                       (map (agg_row (cell t "Severity"))
                          (grouped E (fun r => map (fun item : Row -> Value => item r) items)
                             (filter (complete_row t) (rows t))))))
                 = count_star (filter (complete_row t) (rows t)))
    by (apply grouped_rows_total; reflexivity).
  split; [exact Hpos|]. split; [exact Hsum|].
  rewrite <- Hsum, <- (length_map accident_count). apply sum_Z_ge_length.
  intros n Hn. apply in_map_iff in Hn. destruct Hn as (r & <- & Hr). now apply Hpos.
Qed.

Lemma compute_risk_counts_witness :
  (forall r, In r [Scenario.row_sev2; Scenario.row_sev4] -> 1 <= accident_count r)
  /\ sum_Z (map accident_count [Scenario.row_sev2; Scenario.row_sev4])
     = count_star (filter (complete_row Scenario.two_rows) (rows Scenario.two_rows))
  /\ Z.of_nat (List.length [Scenario.row_sev2; Scenario.row_sev4])
     <= count_star (filter (complete_row Scenario.two_rows) (rows Scenario.two_rows)).
Proof.
  apply (compute_risk_counts fifo Scenario.two_rows ["State"; "Severity"] false false).
  vm_compute. reflexivity.
Defined.

Lemma filter_comm {A : Type} (p q : A -> bool) (l : list A) :
  filter p (filter q l) = filter q (filter p l).
Proof.
  rewrite !filter_filter_and. apply filter_ext_eq. intros x. apply andb_comm.
Qed.

(** Counting, group by group, the rows with a property counts the kept
    rows with that property. *)
Lemma grouped_filtered_counts (E : Engine) (key : Row -> Key) (kept : list Row)
    (p : Row -> bool) :
  sum_Z (map (fun g => count_star (filter p (snd g))) (grouped E key kept))
  = count_star (filter p kept).
Proof.
  destruct (grouped_spec E key kept) as (Hnd & Hg & Hc).
  rewrite <- (map_map (fun g => filter p (snd g)) count_star), sum_Z_lengths.
  unfold count_star. f_equal.
  rewrite <- (partition_sizes Key_eq_dec key (map fst (grouped E key kept))
                (filter p kept) Hnd).
  - rewrite !map_map. f_equal. apply map_ext_in. intros [k ms] Hin. simpl.
    destruct (Hg k ms Hin) as (-> & _). now rewrite filter_comm.
  - intros r Hr. apply filter_In in Hr. apply Hc. tauto.
Qed.

Lemma by_year_total_total a b : by_year_total a b = true \/ by_year_total b a = true.
Proof. apply asc_then_count_desc_total. Qed.

Lemma by_year_total_trans a b c :
  by_year_total a b = true -> by_year_total b c = true -> by_year_total a c = true.
Proof. apply asc_then_count_desc_trans. Qed.

(** X2.  A result of [compute_state_risk_rates] is ordered by year
    ascending and, within a year, by total descending; no pair of year and
    state occurs twice; the totals add up to the number of complete rows
    and the severe counts to the number of complete rows of severity 3 or
    more. *)
Theorem state_risk_rates_table (E : Engine) (t : Table) (out : list RateRow) :
  compute_state_risk_rates_query E t = Ok out ->
  StronglySorted
    (fun a b => value_leb (rate_year a) (rate_year b) = true
                /\ (value_leb (rate_year b) (rate_year a) = true ->
                    total_accidents b <= total_accidents a)) out
  /\ NoDup (map (fun r => [rate_year r; rate_state r]) out)
  /\ sum_Z (map total_accidents out) = count_star (filter (complete_row t) (rows t))
  /\ sum_Z (map severe_accidents out)
     = count_star (filter (fun x => ge3 (cell t "Severity" x))
                          (filter (complete_row t) (rows t))).
Proof.
  unfold compute_state_risk_rates_query.
  destruct (column t "Start_Time") as [st|] eqn:Hst; [|discriminate].
  destruct (column t "State") as [state|] eqn:Hstate; [|discriminate].
  destruct (column t "Severity") as [sev|] eqn:Hsev; [|discriminate].
  apply column_is_cell in Hst, Hstate, Hsev. subst st state sev. cbn [bind].
  pass_guards. intros H. inversion H; subst out; clear H.
  set (key := fun r : Row => [extract Year (cell t "Start_Time" r); cell t "State" r]).
  change (filter (fun r => risk_where (cell t "Start_Time" r) (cell t "State" r)
                             (cell t "Severity" r)) (rows t))
    with (filter (complete_row t) (rows t)).
  set (kept := filter (complete_row t) (rows t)).
  split; [|split; [|split]].
  - eapply StronglySorted_impl;
      [|apply sort_by_strongly_sorted;
        [apply by_year_total_total|apply by_year_total_trans]].
    intros a b Hab. now apply asc_then_count_desc_iff.
  - eapply Permutation_NoDup; [apply Permutation_map, sort_by_perm|].
    rewrite map_map. destruct (grouped_spec E key kept) as (Hnd & Hg & _).
    rewrite (map_ext_in _ fst); [exact Hnd|].
    intros [k ms] Hin. destruct (Hg _ _ Hin) as (_ & Hk).
    apply in_map_iff in Hk. destruct Hk as (x & <- & _). reflexivity.
  - apply (grouped_rows_total E by_year_total (rate_row (cell t "Severity"))
             total_accidents key kept). reflexivity.
  - rewrite <- (sum_Z_perm _ _ (Permutation_map severe_accidents (sort_by_perm _ _))).
    rewrite map_map. unfold rate_row. cbn [severe_accidents].
    apply grouped_filtered_counts.
Qed.

Lemma state_risk_rates_table_witness :
  sum_Z (map total_accidents
           [Scenario.ca_2021; mkRateRow (VInt 2021) (VStr "NV") 1 0 (0 # 1)%Q])
  = count_star (filter (complete_row Scenario.mixed) (rows Scenario.mixed))
  /\ sum_Z (map severe_accidents
              [Scenario.ca_2021; mkRateRow (VInt 2021) (VStr "NV") 1 0 (0 # 1)%Q])
     = count_star (filter (fun x => ge3 (cell Scenario.mixed "Severity" x))
                          (filter (complete_row Scenario.mixed) (rows Scenario.mixed))).
Proof.
  destruct (state_risk_rates_table fifo Scenario.mixed
              [Scenario.ca_2021; mkRateRow (VInt 2021) (VStr "NV") 1 0 (0 # 1)%Q])
    as (_ & _ & H1 & H2); [vm_compute; reflexivity|].
  split; assumption.
Defined.

(** X3.  The hourly, daily, monthly and seasonal breakdowns of one call of
    [compute_temporal_patterns] all count the same accidents: in each the
    counts add up to the number of rows with a start time, whatever their
    state or severity, and no row of a breakdown has count 0. *)
Theorem temporal_patterns_totals (E : Engine) (t : Table) (p : Patterns) :
  compute_temporal_patterns_query E t = Ok p ->
  sum_Z (map accident_count (hourly p)) = count_star (filter (has_start t) (rows t))
  /\ sum_Z (map accident_count (daily p)) = count_star (filter (has_start t) (rows t))
  /\ sum_Z (map accident_count (monthly p)) = count_star (filter (has_start t) (rows t))
  /\ sum_Z (map accident_count (seasonal p)) = count_star (filter (has_start t) (rows t))
  /\ (forall r, In r (hourly p ++ daily p ++ monthly p ++ seasonal p) ->
                1 <= accident_count r).
Proof.
  unfold compute_temporal_patterns_query.
  destruct (temporal_query E (extract Hour) by_key t) as [h|] eqn:Hh; [|discriminate].
  destruct (temporal_query E (extract Dow) by_key t) as [d|] eqn:Hd; [|discriminate].
  destruct (temporal_query E (extract Month) by_key t) as [m|] eqn:Hm; [|discriminate].
  destruct (temporal_query E (fun v => season (extract Month v)) by_count_desc t)
    as [s|] eqn:Hs; [|discriminate].
  cbn [bind]. intros H. inversion H; subst p; clear H.
  cbn [hourly daily monthly seasonal].
  repeat (split; [eapply temporal_query_counts; eassumption|]).
  assert (Hpos : forall key order out r,
            temporal_query E key order t = Ok out -> In r out -> 1 <= accident_count r).
  { intros key order out r Hq Hr. unfold temporal_query in Hq.
    destruct (column t "Start_Time") as [st|]; [|discriminate].
    pass_guards_in Hq.
    destruct (column t "Severity") as [sev|]; [|discriminate].
    cbn [bind] in Hq.
    pass_guards_in Hq. inversion Hq; subst out; clear Hq.
    revert Hr. apply grouped_rows_positive. reflexivity. }
  intros r Hr.
  apply in_app_or in Hr. destruct Hr as [Hr|Hr]; [exact (Hpos _ _ _ _ Hh Hr)|].
  apply in_app_or in Hr. destruct Hr as [Hr|Hr]; [exact (Hpos _ _ _ _ Hd Hr)|].
  apply in_app_or in Hr. destruct Hr as [Hr|Hr]; [exact (Hpos _ _ _ _ Hm Hr)|].
  exact (Hpos _ _ _ _ Hs Hr).
Qed.

Lemma temporal_patterns_totals_witness :
  exists p, compute_temporal_patterns_query fifo Scenario.stateless_row = Ok p
            /\ sum_Z (map accident_count (hourly p)) = 2
            /\ sum_Z (map accident_count (seasonal p)) = 2.
Proof.
  destruct (compute_temporal_patterns_query fifo Scenario.stateless_row) as [p|] eqn:Hp;
    [|vm_compute in Hp; discriminate Hp].
  destruct (temporal_patterns_totals fifo Scenario.stateless_row p Hp)
    as (Hh & _ & _ & Hs & _).
  exists p. split; [reflexivity|]. split; [exact Hh|exact Hs].
Defined.

(** * Which columns each method needs *)

Lemma column_has t c f : column t c = Ok f -> has_column t c = true.
Proof.
  unfold column, has_column. destruct (index_of c (schema t)); [reflexivity|discriminate].
Qed.

Lemma number_column_Ok t c f :
  number_column t c f = Ok tt -> textual (map f (rows t)) = false.
Proof.
  unfold number_column, textual. destruct (numeric (map f (rows t))); [reflexivity|discriminate].
Qed.

(** A query whose first step binds [c] does not get past a relation
    without [c]. *)
Ltac first_column c :=
  let Hb := fresh "Hb" in let Hn := fresh "Hn" in let Hq := fresh "Hq" in
  destruct (column _ c) as [?f|?e] eqn:Hb; cbn [bind];
  [pose proof (column_has _ _ _ Hb) as ?Hhas; apply column_is_cell in Hb; subst
  |apply column_Raise in Hb; destruct Hb as (-> & Hn);
   split; [intros ? Hq; discriminate Hq|];
   intros _ _ _; exists c; split; [simpl; tauto|split; [exact Hn|reflexivity]]].

Ltac no_column_missing :=
  let c := fresh "c" in let Hin := fresh "Hin" in let Hc := fresh "Hc" in
  intros c Hin Hc; simpl in Hin;
  repeat (destruct Hin as [<-|Hin]; [congruence|]); contradiction.

Lemma temporal_query_columns E key order t :
  (forall out, temporal_query E key order t = Ok out ->
     has_column t "Start_Time" = true /\ has_column t "Severity" = true
     /\ textual (map (cell t "Severity") (rows t)) = false)
  /\ (has_column t "Start_Time" = false ->
      temporal_query E key order t = Raise (QueryError "Start_Time"))
  /\ (has_column t "Start_Time" = true ->
      timestamps (map (cell t "Start_Time") (rows t)) = true ->
      has_column t "Severity" = false ->
      temporal_query E key order t = Raise (QueryError "Severity")).
Proof.
  unfold temporal_query.
  destruct (column t "Start_Time") as [st|e] eqn:Hst; cbn [bind].
  - pose proof (column_has _ _ _ Hst) as Hhas. apply column_is_cell in Hst. subst st.
    split; [|split; [congruence|]].
    + intros out.
      destruct (timestamp_cast t "Start_Time" (cell t "Start_Time")) as [[]|];
        cbn [bind]; [|discriminate].
      destruct (column t "Severity") as [sev|] eqn:Hsev; [|discriminate].
      pose proof (column_has _ _ _ Hsev) as Hhas'.
      apply column_is_cell in Hsev. subst sev. cbn [bind].
      destruct (number_column t "Severity" (cell t "Severity")) as [[]|] eqn:Hnum;
        cbn [bind]; [|discriminate].
      intros _. apply number_column_Ok in Hnum. auto.
    + intros _ Hts Hsev. unfold timestamp_cast. rewrite Hts. cbn [bind].
      now rewrite (column_missing _ _ Hsev).
  - apply column_Raise in Hst. destruct Hst as (-> & Hn).
    split; [intros out H; discriminate H|]. split; [reflexivity|congruence].
Qed.

(** X4.  The columns a method needs.  A result of
    [compute_state_risk_rates] means that the relation has [Start_Time],
    [State] and [Severity], whatever the case of their letters, and that
    [Severity] is not a column of text (so that it has a row); when one
    of the three is missing the query raises the [QueryError] of one that
    is missing.  The same holds of [compute_weather_risk] with [State],
    [Weather_Condition] and [Severity].  A result of
    [compute_temporal_patterns] means the same of [Start_Time] and
    [Severity]; without [Start_Time] it raises the [QueryError] of
    [Start_Time], and with start times that are timestamps and without
    [Severity] that of [Severity]. *)
Theorem required_columns (E : Engine) (t : Table) :
  ((forall out, compute_state_risk_rates_query E t = Ok out ->
      has_column t "Start_Time" = true /\ has_column t "State" = true
      /\ has_column t "Severity" = true
      /\ textual (map (cell t "Severity") (rows t)) = false)
   /\ (forall c, In c ["Start_Time"; "State"; "Severity"] -> has_column t c = false ->
        exists c', In c' ["Start_Time"; "State"; "Severity"] /\ has_column t c' = false
                   /\ compute_state_risk_rates_query E t = Raise (QueryError c')))
  /\ ((forall p, compute_temporal_patterns_query E t = Ok p ->
         has_column t "Start_Time" = true /\ has_column t "Severity" = true
         /\ textual (map (cell t "Severity") (rows t)) = false)
      /\ (has_column t "Start_Time" = false ->
          compute_temporal_patterns_query E t = Raise (QueryError "Start_Time"))
      /\ (has_column t "Start_Time" = true ->
          timestamps (map (cell t "Start_Time") (rows t)) = true ->
          has_column t "Severity" = false ->
          compute_temporal_patterns_query E t = Raise (QueryError "Severity")))
  /\ ((forall out, compute_weather_risk_query E t = Ok out ->
         has_column t "State" = true /\ has_column t "Weather_Condition" = true
         /\ has_column t "Severity" = true
         /\ textual (map (cell t "Severity") (rows t)) = false)
      /\ (forall c, In c ["State"; "Weather_Condition"; "Severity"] ->
           has_column t c = false ->
           exists c', In c' ["State"; "Weather_Condition"; "Severity"]
                      /\ has_column t c' = false
                      /\ compute_weather_risk_query E t = Raise (QueryError c'))).
Proof.
  split; [|split].
  - unfold compute_state_risk_rates_query.
    first_column "Start_Time". first_column "State". first_column "Severity".
    split; [|no_column_missing].
    intros out.
    destruct (timestamp_cast t "Start_Time" (cell t "Start_Time")) as [[]|];
      cbn [bind]; [|discriminate].
    destruct (number_column t "Severity" (cell t "Severity")) as [[]|] eqn:Hnum;
      cbn [bind]; [|discriminate].
    intros _. apply number_column_Ok in Hnum. auto.
  - unfold compute_temporal_patterns_query.
    destruct (temporal_query_columns E (extract Hour) by_key t) as (Hh & Hst & Hsev).
    split; [|split].
    + intros p Hp.
      destruct (temporal_query E (extract Hour) by_key t) as [h|e1];
        [|discriminate Hp].
      now apply (Hh h).
    + intros Hn. now rewrite (Hst Hn).
    + intros Hhas Hts Hn. now rewrite (Hsev Hhas Hts Hn).
  - unfold compute_weather_risk_query.
    first_column "State". first_column "Weather_Condition". first_column "Severity".
    destruct (number_column t "Severity" (cell t "Severity")) as [[]|e] eqn:Hnum;
      cbn [bind].
    + split; [|no_column_missing].
      intros out _. apply number_column_Ok in Hnum. auto.
    + split; [intros out H; discriminate H|no_column_missing].
Qed.

(** * The summary report *)

Lemma summary_parts E t s :
  generate_summary_report_query E t = Ok s ->
  report_total_accidents s = count_star (rows t)
  /\ date_range_query t = Ok (report_date_range s)
  /\ state_count_query t = Ok (report_states_covered s)
  /\ top_states_query E t = Ok (report_top_states s)
  /\ severity_dist_query E t = Ok (report_severity_distribution s).
Proof.
  unfold generate_summary_report_query.
  destruct (date_range_query t); [|discriminate].
  destruct (state_count_query t); [|discriminate].
  destruct (top_states_query E t); [|discriminate].
  destruct (severity_dist_query E t); [|discriminate].
  cbn [bind]. intros H. inversion H. cbn. auto.
Qed.

Lemma StronglySorted_app {A : Type} (R : A -> A -> Prop) (l1 l2 : list A) :
  StronglySorted R (l1 ++ l2) ->
  StronglySorted R l1 /\ forall a b, In a l1 -> In b l2 -> R a b.
Proof.
  induction l1 as [|x l1 IH]; simpl; intros H.
  - split; [constructor|contradiction].
  - inversion H as [|? ? Hs Hf]; subst. destruct (IH Hs) as (Hs1 & Hcross).
    rewrite Forall_app in Hf. destruct Hf as (Hf1 & Hf2). split.
    + now constructor.
    + intros a b [<-|Ha] Hb; [|now apply Hcross].
      rewrite Forall_forall in Hf2. now apply Hf2.
Qed.

Lemma NoDup_firstn {A : Type} (n : nat) (l : list A) : NoDup l -> NoDup (firstn n l).
Proof.
  intros H. rewrite <- (firstn_skipn n l) in H. now apply NoDup_app_remove_r in H.
Qed.

Lemma In_firstn {A : Type} (n : nat) (l : list A) x : In x (firstn n l) -> In x l.
Proof.
  intros H. rewrite <- (firstn_skipn n l). apply in_or_app. now left.
Qed.

(** Mapping an injective function does not change how many distinct
    elements a list has. *)
Lemma distinct_map_length {A B : Type}
    (decA : forall a b : A, {a = b} + {a <> b})
    (decB : forall a b : B, {a = b} + {a <> b}) (f : A -> B) (l : list A) :
  (forall x y, f x = f y -> x = y) ->
  List.length (distinct decB (map f l)) = List.length (distinct decA l).
Proof.
  intros Hinj. rewrite <- (length_map f (distinct decA l)).
  apply Permutation_length. apply NoDup_Permutation.
  - apply distinct_NoDup.
  - apply NoDup_map_NoDup_ForallPairs; [|apply distinct_NoDup].
    intros x y _ _. apply Hinj.
  - intros b. rewrite distinct_In, !in_map_iff. split.
    + intros (x & <- & Hx). exists x. split; [reflexivity|]. now apply distinct_In.
    + intros (x & <- & Hx). exists x. split; [reflexivity|]. now apply distinct_In in Hx.
Qed.

Lemma distinct_keys_of_one (f : Row -> Value) (l : list Row) :
  List.length (distinct Key_eq_dec (map (fun r => [f r]) l))
  = List.length (distinct Value_eq_dec (map f l)).
Proof.
  rewrite <- (map_map f (fun v => [v])).
  apply distinct_map_length. intros x y H. now inversion H.
Qed.

Lemma grouped_length (E : Engine) (key : Row -> Key) (kept : list Row) :
  List.length (grouped E key kept)
  = List.length (distinct Key_eq_dec (map key kept)).
Proof.
  unfold grouped. rewrite (Permutation_length (emit_perm E _ _)).
  unfold group_by. now rewrite length_map.
Qed.

Lemma state_where_not_null v : state_where v = true -> is_not_null v = true.
Proof. unfold state_where. intros H. apply andb_prop in H. tauto. Qed.

(** X5.  The [top_states] of the summary report: at most 10 rows, as many
    as there are states when [states_covered] is below 10; ordered by count
    descending; no state twice; each row is a state that is neither NULL
    nor empty with the number of its rows; and a state that is left out has
    no more rows than any state listed. *)
Theorem summary_top_states (E : Engine) (t : Table) (s : Summary) :
  generate_summary_report_query E t = Ok s ->
  Z.of_nat (List.length (report_top_states s)) = Z.min 10 (report_states_covered s)
  /\ StronglySorted (fun a b => snd b <= snd a) (report_top_states s)
  /\ NoDup (map fst (report_top_states s))
  /\ (forall st n, In (st, n) (report_top_states s) ->
        n = count_star (state_rows t st) /\ 1 <= n)
  /\ (forall x, In x (rows t) -> has_state t x = true ->
        ~ In (cell t "State" x) (map fst (report_top_states s)) ->
        forall st n, In (st, n) (report_top_states s) ->
                     count_star (state_rows t (cell t "State" x)) <= n).
Proof.
  intros H. destruct (summary_parts E t s H) as (_ & _ & Hcount & Htop & _).
  unfold top_states_query in Htop. unfold state_count_query in Hcount.
  destruct (column t "State") as [state|] eqn:Hstate; [|discriminate].
  apply column_is_cell in Hstate. subst state. cbn [bind] in *.
  destruct (text_column t "State" (cell t "State")) as [[]|];
    cbn [bind] in *; [|discriminate].
  apply Ok_inj in Hcount, Htop. rewrite <- Hcount, <- Htop. clear H Hcount Htop.
  set (key := fun r : Row => [cell t "State" r]).
  change (filter (fun r => state_where (cell t "State" r)) (rows t))
    with (filter (has_state t) (rows t)).
  set (kept := filter (has_state t) (rows t)).
  pose (mk := fun g : Key * list Row => (nth 0 (fst g) VNull, count_star (snd g))).
  pose (order := fun a b : Value * Z => snd b <=? snd a).
  match goal with |- context [firstn 10 ?l] => set (full0 := l) end.
  assert (Hdef : full0 = sort_by order (map mk (grouped E key kept))) by reflexivity.
  clearbody full0. subst full0.
  set (full := sort_by order (map mk (grouped E key kept))).
  assert (Hsorted : StronglySorted (fun a b : Value * Z => snd b <= snd a) full).
  { eapply StronglySorted_impl; [|apply (sort_by_strongly_sorted order)].
    - intros a b Hab. unfold le_of, order in Hab. now apply Z.leb_le.
    - intros a b. unfold order. rewrite !Z.leb_le. lia.
    - intros a b c. unfold order. rewrite !Z.leb_le. lia. }
  assert (Hrow : forall st n, In (st, n) full ->
            exists x, In x kept /\ st = cell t "State" x
                      /\ n = count_star (state_rows t st)).
  { intros st n Hin. apply In_grouped_rows in Hin. destruct Hin as (x & Hx & Heq).
    unfold mk in Heq. cbn [fst snd nth key] in Heq. inversion Heq; subst st n.
    exists x. split; [assumption|]. split; [reflexivity|].
    unfold state_rows, kept. now rewrite filter_filter_and. }
  assert (Hkeys : NoDup (map fst full)).
  { eapply Permutation_NoDup; [apply Permutation_map, sort_by_perm|].
    rewrite map_map. unfold mk. cbn [fst].
    apply NoDup_map_NoDup_ForallPairs; [|].
    - intros [k ms] [k' ms'] Hin Hin' Heq. cbn [fst] in Heq.
      destruct (grouped_spec E key kept) as (_ & Hg & _).
      destruct (Hg _ _ Hin) as (-> & Hk), (Hg _ _ Hin') as (-> & Hk').
      apply in_map_iff in Hk, Hk'.
      destruct Hk as (x & <- & _), Hk' as (x' & <- & _).
      unfold key in *. cbn [nth] in Heq. now rewrite Heq.
    - apply (NoDup_map_inv fst). apply grouped_spec. }
  assert (Hlen : Z.of_nat (List.length full)
                 = count_distinct (filter state_where (map (cell t "State") (rows t)))).
  { unfold full. rewrite <- (Permutation_length (sort_by_perm _ _)).
    rewrite length_map, grouped_length.
    unfold count_distinct, count_star. f_equal.
    etransitivity; [apply (distinct_keys_of_one (cell t "State") kept)|].
    f_equal. f_equal. unfold kept. rewrite map_filter_comm.
    symmetry. apply filter_all.
    intros v Hv. apply in_map_iff in Hv. destruct Hv as (r & <- & Hr).
    apply filter_In in Hr. now apply state_where_not_null. }
  split; [|split; [|split; [|split]]].
  - rewrite <- Hlen. rewrite length_firstn. lia.
  - rewrite <- (firstn_skipn 10 full) in Hsorted. now apply StronglySorted_app in Hsorted.
  - rewrite <- firstn_map. now apply NoDup_firstn.
  - intros st n Hin. apply In_firstn in Hin.
    destruct (Hrow st n Hin) as (x & Hx & -> & ->). split; [reflexivity|].
    assert (0 < count_star (state_rows t (cell t "State" x))); [|lia].
    apply (count_star_pos _ x). unfold state_rows. apply filter_In.
    unfold kept in Hx. apply filter_In in Hx. destruct Hx as (Hx & Hs).
    split; [assumption|]. rewrite Hs. apply same_key_refl.
  - intros x Hx Hs Hout st n Hin.
    assert (Hfull : In (cell t "State" x, count_star (state_rows t (cell t "State" x))) full).
    { assert (Hg : In (mk (key x, filter (fun r => same_key Key_eq_dec (key r) (key x)) kept))
                      full)
        by (apply grouped_rows_cover; apply filter_In; auto).
      unfold mk, key in Hg. cbn [fst snd nth] in Hg.
      unfold kept in Hg. rewrite filter_filter_and in Hg. exact Hg. }
    rewrite <- (firstn_skipn 10 full) in Hfull, Hsorted.
    apply in_app_or in Hfull. destruct Hfull as [Hfull|Hfull].
    + exfalso. apply Hout. apply in_map_iff.
      exists (cell t "State" x, count_star (state_rows t (cell t "State" x))). auto.
    + apply StronglySorted_app in Hsorted. destruct Hsorted as (_ & Hcross).
      apply (Hcross _ _ Hin Hfull).
Qed.

Lemma summary_top_states_witness :
  exists s, generate_summary_report_query fifo Scenario.mixed = Ok s
            /\ Z.of_nat (List.length (report_top_states s))
               = Z.min 10 (report_states_covered s)
            /\ NoDup (map fst (report_top_states s)).
Proof.
  destruct (generate_summary_report_query fifo Scenario.mixed) as [s|] eqn:Hs;
    [|vm_compute in Hs; discriminate Hs].
  destruct (summary_top_states fifo Scenario.mixed s Hs) as (Hlen & _ & Hnd & _).
  exists s. split; [reflexivity|]. split; assumption.
Defined.

(** X6.  The [severity_distribution] of the summary report: ordered by
    severity ascending, no severity twice; each row is a severity with the
    number of its rows (at least one) and that number times 100 over the
    number of rows with a severity; the counts add up to the number of rows
    with a severity, and the percentages, when there is a row, to 100. *)
Theorem summary_severity_distribution (E : Engine) (t : Table) (s : Summary) :
  generate_summary_report_query E t = Ok s ->
  StronglySorted (fun a b => value_leb (fst (fst a)) (fst (fst b)) = true)
                 (report_severity_distribution s)
  /\ NoDup (map (fun x => fst (fst x)) (report_severity_distribution s))
  /\ sum_Z (map (fun x => snd (fst x)) (report_severity_distribution s))
     = count_star (filter (has_severity t) (rows t))
  /\ (forall v n q, In (v, n, q) (report_severity_distribution s) ->
        n = count_star (severity_rows t v) /\ 1 <= n
        /\ q = (inject_Z (n * 100)
                / inject_Z (count_star (filter (has_severity t) (rows t))))%Q)
  /\ (report_severity_distribution s <> [] ->
      (sum_Q (map snd (report_severity_distribution s)) == 100)%Q).
Proof.
  intros H. destruct (summary_parts E t s H) as (_ & _ & _ & _ & Hd).
  unfold severity_dist_query in Hd.
  destruct (column t "Severity") as [sev|] eqn:Hsev; [|discriminate].
  apply column_is_cell in Hsev. subst sev. cbn [bind] in Hd.
  apply Ok_inj in Hd. rewrite <- Hd. clear H Hd.
  pose (key := fun r : Row => [cell t "Severity" r] : Key).
  pose (kept := filter (has_severity t) (rows t)).
  pose (mk := fun g : Key * list Row => (nth 0 (fst g) VNull, count_star (snd g))).
  pose (counts := map mk (grouped E key kept)).
  pose (share_of := fun (grand : Z) (c : Value * Z) =>
          (fst c, snd c, (inject_Z (snd c * 100) / inject_Z grand)%Q)).
  pose (order := fun a b : Value * Z * Q => value_leb (fst (fst a)) (fst (fst b))).
  assert (Hgrand : sum_Z (map snd counts) = count_star kept).
  { unfold counts. rewrite map_map. apply grouped_counts. }
  match goal with |- StronglySorted _ ?l /\ _ => set (d0 := l) end.
  assert (Hdef : d0 = sort_by order (map (share_of (sum_Z (map snd counts))) counts))
    by reflexivity.
  clearbody d0. subst d0. rewrite Hgrand.
  pose (share := share_of (count_star kept)).
  change (share_of (count_star kept)) with share.
  set (d := sort_by order (map share counts)).
  assert (Hperm : Permutation (map share counts) d) by apply sort_by_perm.
  assert (Hrow : forall v n q, In (v, n, q) d ->
            exists x, In x kept /\ v = cell t "Severity" x
                      /\ n = count_star (severity_rows t v)
                      /\ q = (inject_Z (n * 100) / inject_Z (count_star kept))%Q).
  { intros v n q Hin. apply (Permutation_in _ (Permutation_sym Hperm)) in Hin.
    apply in_map_iff in Hin. destruct Hin as ([v' n'] & Heq & Hin).
    unfold share, share_of in Heq. cbn [fst snd] in Heq. inversion Heq; subst v' n' q.
    unfold counts in Hin. apply in_map_iff in Hin. destruct Hin as ([k ms] & Heq' & Hin).
    unfold mk in Heq'. cbn [fst snd] in Heq'. inversion Heq'; subst v n.
    destruct (grouped_spec E key kept) as (_ & Hg & _).
    destruct (Hg _ _ Hin) as (-> & Hk). apply in_map_iff in Hk.
    destruct Hk as (x & <- & Hx). exists x. unfold key. cbn [nth].
    split; [assumption|]. split; [reflexivity|]. split; [|reflexivity].
    unfold severity_rows, kept. now rewrite filter_filter_and. }
  split; [|split; [|split; [|split]]].
  - apply (sort_by_strongly_sorted order).
    + intros a b. apply value_leb_total.
    + intros a b c. apply value_leb_trans.
  - eapply Permutation_NoDup; [apply Permutation_map; exact Hperm|].
    unfold counts. rewrite !map_map. unfold share, share_of, mk. cbn [fst snd].
    apply NoDup_map_NoDup_ForallPairs.
    + intros [k ms] [k' ms'] Hin Hin' Heq. cbn [fst] in Heq.
      destruct (grouped_spec E key kept) as (_ & Hg & _).
      destruct (Hg _ _ Hin) as (-> & Hk), (Hg _ _ Hin') as (-> & Hk').
      apply in_map_iff in Hk, Hk'.
      destruct Hk as (x & <- & _), Hk' as (x' & <- & _).
      unfold key in *. cbn [nth] in Heq. now rewrite Heq.
    + apply (NoDup_map_inv fst). apply grouped_spec.
  - rewrite <- (sum_Z_perm _ _ (Permutation_map (fun x => snd (fst x)) Hperm)).
    rewrite map_map. unfold share, share_of. cbn [fst snd]. exact Hgrand.
  - intros v n q Hin. destruct (Hrow v n q Hin) as (x & Hx & -> & Hn & Hq).
    split; [assumption|]. split; [|assumption].
    assert (0 < count_star (severity_rows t (cell t "Severity" x))); [|lia].
    apply (count_star_pos _ x). unfold severity_rows. apply filter_In.
    unfold kept in Hx. apply filter_In in Hx. destruct Hx as (Hx & Hs).
    split; [assumption|]. rewrite Hs. apply same_key_refl.
  - intros Hne.
    assert (Hpos : 0 < count_star kept).
    { destruct d as [|[[v n] q] d'] eqn:Hd; [contradiction|].
      destruct (Hrow v n q (or_introl eq_refl)) as (x & Hx & _).
      now apply (count_star_pos _ x). }
    rewrite <- (sum_Q_perm _ _ (Permutation_map snd Hperm)).
    rewrite map_map. unfold share, share_of. cbn [snd].
    rewrite <- (map_map snd (fun c => inject_Z (c * 100) / inject_Z (count_star kept))%Q).
    rewrite sum_Q_shares, Hgrand. now apply share_of_total.
Qed.

Lemma summary_severity_distribution_witness :
  exists s, generate_summary_report_query fifo Scenario.mixed = Ok s
            /\ sum_Z (map (fun x => snd (fst x)) (report_severity_distribution s)) = 12
            /\ (sum_Q (map snd (report_severity_distribution s)) == 100)%Q.
Proof.
  destruct (generate_summary_report_query fifo Scenario.mixed) as [s|] eqn:Hs;
    [|vm_compute in Hs; discriminate Hs].
  destruct (summary_severity_distribution fifo Scenario.mixed s Hs)
    as (_ & _ & Hsum & _ & Hq).
  exists s. split; [reflexivity|]. split; [exact Hsum|].
  apply Hq. intros Hnil. rewrite Hnil in Hsum. vm_compute in Hsum. discriminate Hsum.
Defined.

(** * MIN and MAX *)

Lemma value_leb_refl v : value_leb v v = true.
Proof. destruct (value_leb_total v v); assumption. Qed.

Lemma min_value_cons v vs :
  is_not_null v = true ->
  min_value (v :: vs)
  = if is_not_null (min_value vs)
    then (if value_leb v (min_value vs) then v else min_value vs)
    else v.
Proof.
  intros Hv. cbn [min_value fold_right]. fold (min_value vs).
  destruct v; [discriminate| | |]; destruct (min_value vs); reflexivity.
Qed.

Lemma max_value_cons v vs :
  is_not_null v = true ->
  max_value (v :: vs)
  = if is_not_null (max_value vs)
    then (if value_leb (max_value vs) v then v else max_value vs)
    else v.
Proof.
  intros Hv. cbn [max_value fold_right]. fold (max_value vs).
  destruct v; [discriminate| | |]; destruct (max_value vs); reflexivity.
Qed.

(** Over values that are not NULL, [MIN] is an element below all others. *)
Lemma min_value_spec vs :
  (forall v, In v vs -> is_not_null v = true) -> vs <> [] ->
  In (min_value vs) vs /\ forall v, In v vs -> value_leb (min_value vs) v = true.
Proof.
  induction vs as [|v vs IH]; intros Hnn Hne; [congruence|].
  assert (Hv : is_not_null v = true) by (apply Hnn; now left).
  rewrite (min_value_cons v vs Hv).
  destruct vs as [|w vs'].
  - cbn. split; [now left|]. intros x [<-|[]]. apply value_leb_refl.
  - destruct IH as (Hin & Hlow); [intros; apply Hnn; now right|discriminate|].
    set (m := min_value (w :: vs')) in *.
    assert (Hm : is_not_null m = true) by (apply Hnn; now right).
    rewrite Hm. destruct (value_leb v m) eqn:Hvm.
    + split; [now left|]. intros x [<-|Hx]; [apply value_leb_refl|].
      eapply value_leb_trans; [exact Hvm|now apply Hlow].
    + split; [now right|]. intros x [<-|Hx]; [|now apply Hlow].
      destruct (value_leb_total v m); [congruence|assumption].
Qed.

Lemma max_value_spec vs :
  (forall v, In v vs -> is_not_null v = true) -> vs <> [] ->
  In (max_value vs) vs /\ forall v, In v vs -> value_leb v (max_value vs) = true.
Proof.
  induction vs as [|v vs IH]; intros Hnn Hne; [congruence|].
  assert (Hv : is_not_null v = true) by (apply Hnn; now left).
  rewrite (max_value_cons v vs Hv).
  destruct vs as [|w vs'].
  - cbn. split; [now left|]. intros x [<-|[]]. apply value_leb_refl.
  - destruct IH as (Hin & Hup); [intros; apply Hnn; now right|discriminate|].
    set (m := max_value (w :: vs')) in *.
    assert (Hm : is_not_null m = true) by (apply Hnn; now right).
    rewrite Hm. destruct (value_leb m v) eqn:Hmv.
    + split; [now left|]. intros x [<-|Hx]; [apply value_leb_refl|].
      eapply value_leb_trans; [now apply Hup|exact Hmv].
    + split; [now right|]. intros x [<-|Hx]; [|now apply Hup].
      destruct (value_leb_total m v); [congruence|assumption].
Qed.

Lemma start_times_not_null t v : In v (start_times t) -> is_not_null v = true.
Proof. unfold start_times. intros H. apply filter_In in H. tauto. Qed.

(** X7.  The [date_range] of the summary report.  When no row has a start
    time both ends are NULL.  Otherwise both ends are start times of rows,
    every start time lies between them, and the first is not after the
    second. *)
Theorem summary_date_range (E : Engine) (t : Table) (s : Summary) :
  generate_summary_report_query E t = Ok s ->
  (start_times t = [] ->
   fst (report_date_range s) = VNull /\ snd (report_date_range s) = VNull)
  /\ (start_times t <> [] ->
      In (fst (report_date_range s)) (start_times t)
      /\ In (snd (report_date_range s)) (start_times t)
      /\ (forall v, In v (start_times t) ->
            value_leb (fst (report_date_range s)) v = true
            /\ value_leb v (snd (report_date_range s)) = true)
      /\ value_leb (fst (report_date_range s)) (snd (report_date_range s)) = true).
Proof.
  intros H. destruct (summary_parts E t s H) as (_ & Hr & _).
  unfold date_range_query in Hr.
  destruct (column t "Start_Time") as [st|] eqn:Hst; [|discriminate].
  apply column_is_cell in Hst. subst st. cbn [bind] in Hr.
  apply Ok_inj in Hr. rewrite <- Hr. cbn [fst snd]. fold (start_times t). split.
  - intros ->. split; reflexivity.
  - intros Hne.
    destruct (min_value_spec (start_times t) (start_times_not_null t) Hne) as (Hlo & Hlow).
    destruct (max_value_spec (start_times t) (start_times_not_null t) Hne) as (Hhi & Hup).
    repeat split; auto.
Qed.

Lemma summary_date_range_witness :
  exists s, generate_summary_report_query fifo Scenario.mixed = Ok s
            /\ In (fst (report_date_range s)) (start_times Scenario.mixed)
            /\ value_leb (fst (report_date_range s)) (snd (report_date_range s)) = true.
Proof.
  destruct (generate_summary_report_query fifo Scenario.mixed) as [s|] eqn:Hs;
    [|vm_compute in Hs; discriminate Hs].
  destruct (summary_date_range fifo Scenario.mixed s Hs) as (_ & H).
  destruct H as (Hlo & _ & _ & Hle); [vm_compute; discriminate|].
  exists s. split; [reflexivity|]. split; assumption.
Defined.

(** * What each aggregation leaves out *)

Lemma not_null_iff v : is_not_null v = true <-> v <> VNull.
Proof. destruct v; cbn; split; congruence. Qed.

Lemma ne_empty_iff v : ne_empty v = true <-> v <> VNull /\ v <> VStr "".
Proof.
  destruct v as [|n|s|ts]; cbn.
  - split; [discriminate|]. intros (H & _). congruence.
  - split; [|reflexivity]. intros _. split; discriminate.
  - destruct (String.eqb_spec s "") as [->|Hs]; cbn.
    + split; [discriminate|]. intros (_ & H). congruence.
    + split; [|reflexivity]. intros _. split; congruence.
  - split; [|reflexivity]. intros _. split; discriminate.
Qed.

(** The WHERE clauses, row by row. *)
Lemma where_clauses t x :
  (complete_row t x = true <->
     cell t "Start_Time" x <> VNull
     /\ cell t "State" x <> VNull /\ cell t "State" x <> VStr ""
     /\ cell t "Severity" x <> VNull)
  /\ (has_start t x = true <-> cell t "Start_Time" x <> VNull)
  /\ (weather_row t x = true <->
        cell t "State" x <> VNull /\ cell t "State" x <> VStr ""
        /\ cell t "Weather_Condition" x <> VNull
        /\ cell t "Weather_Condition" x <> VStr ""
        /\ cell t "Severity" x <> VNull)
  /\ (has_state t x = true <-> cell t "State" x <> VNull /\ cell t "State" x <> VStr "")
  /\ (has_severity t x = true <-> cell t "Severity" x <> VNull).
Proof.
  unfold complete_row, has_start, weather_row, has_state, has_severity,
    risk_where, weather_where, state_where.
  rewrite !andb_true_iff, !not_null_iff, !ne_empty_iff. tauto.
Qed.

Lemma compute_risk_query_kept E levels iw it t out :
  compute_risk_query E levels iw it t = Ok out ->
  sum_Z (map accident_count out) = count_star (filter (complete_row t) (rows t))
  /\ forall r, In r out ->
       accident_count r = count_star (risk_group t levels iw it (dims r)).
Proof.
  unfold compute_risk_query.
  destruct (column t "Start_Time") as [st|] eqn:Hst; [|discriminate].
  destruct (column t "State") as [state|] eqn:Hstate; [|discriminate].
  destruct (column t "Severity") as [sev|] eqn:Hsev; [|discriminate].
  apply column_is_cell in Hst, Hstate, Hsev. subst st state sev. cbn [bind].
  pass_guards.
  destruct (mapM (bind_item t) (group_cols levels iw it)) as [items|] eqn:Hitems;
    [|discriminate].
  pass_guards. intros H. inversion H; subst out; clear H.
  pose proof (mapM_bind_items _ _ _ Hitems) as Hkey.
  fold (risk_key t levels iw it) in Hkey.
  change (filter (fun r => risk_where (cell t "Start_Time" r) (cell t "State" r)
                             (cell t "Severity" r)) (rows t))
    with (filter (complete_row t) (rows t)).
  split.
  - apply grouped_rows_total. reflexivity.
  - intros r Hin. apply In_grouped_rows in Hin. destruct Hin as (x & Hx & ->).
    unfold agg_row. cbn [fst snd dims accident_count]. f_equal.
    rewrite filter_filter_and. unfold risk_group. apply filter_ext_eq. intros r.
    now rewrite !Hkey.
Qed.

Lemma compute_state_risk_rates_query_total E t out :
  compute_state_risk_rates_query E t = Ok out ->
  sum_Z (map total_accidents out) = count_star (filter (complete_row t) (rows t)).
Proof.
  unfold compute_state_risk_rates_query.
  destruct (column t "Start_Time") as [st|] eqn:Hst; [|discriminate].
  destruct (column t "State") as [state|] eqn:Hstate; [|discriminate].
  destruct (column t "Severity") as [sev|] eqn:Hsev; [|discriminate].
  apply column_is_cell in Hst, Hstate, Hsev. subst st state sev.
  pass_guards. intros H. inversion H; subst out; clear H.
  change (filter (fun r => risk_where (cell t "Start_Time" r) (cell t "State" r)
                             (cell t "Severity" r)) (rows t))
    with (filter (complete_row t) (rows t)).
  apply grouped_rows_total. reflexivity.
Qed.

Lemma row_numbers_all_counts all seen l :
  map w_count (row_numbers all seen l) = map wa_count l.
Proof.
  revert seen. induction l as [|a l IH]; simpl; intros seen; [reflexivity|].
  now rewrite IH.
Qed.

Lemma compute_weather_risk_query_kept E t out :
  compute_weather_risk_query E t = Ok out ->
  sum_Z (map w_count out) = count_star (filter (weather_row t) (rows t))
  /\ forall r, In r out ->
       w_count r = count_star (weather_group t (w_state r) (w_weather r)).
Proof.
  intros H. apply compute_weather_risk_query_Ok in H.
  destruct H as (aggs & ordered & Haggs & Hord & _ & Hout). split.
  - rewrite <- (sum_Z_perm _ _ (Permutation_map w_count Hout)).
    rewrite row_numbers_all_counts.
    rewrite <- (sum_Z_perm _ _ (Permutation_map wa_count Hord)).
    rewrite Haggs, map_map. unfold weather_agg. cbn [wa_count].
    apply grouped_counts.
  - intros r Hr. apply (Permutation_in _ (Permutation_sym Hout)) in Hr.
    destruct (row_numbers_In _ _ _ _ Hr) as (a & Ha & Hs & Hw & Hc & _).
    apply (Permutation_in _ (Permutation_sym Hord)) in Ha. rewrite Haggs in Ha.
    destruct (aggs_In E (cell t "State") (cell t "Weather_Condition")
                (cell t "Severity") (filter (weather_row t) (rows t)) a Ha)
      as (x & Hx & Hsx & Hwx & Hcx).
    rewrite Hc, Hs, Hw, Hsx, Hwx, Hcx. now rewrite weather_group_kept.
Qed.

Lemma top_states_query_kept E t top :
  top_states_query E t = Ok top ->
  forall st n, In (st, n) top -> n = count_star (state_rows t st).
Proof.
  unfold top_states_query.
  destruct (column t "State") as [state|] eqn:Hstate; [|discriminate].
  apply column_is_cell in Hstate. subst state.
  pass_guards. intros H. apply Ok_inj in H. subst top.
  intros st n Hin. apply In_firstn in Hin. apply In_grouped_rows in Hin.
  destruct Hin as (x & Hx & Heq). cbn [fst snd nth] in Heq. inversion Heq; subst st n.
  unfold state_rows. now rewrite filter_filter_and.
Qed.

Lemma severity_dist_query_kept E t d :
  severity_dist_query E t = Ok d ->
  sum_Z (map (fun x => snd (fst x)) d) = count_star (filter (has_severity t) (rows t))
  /\ forall v n q, In (v, n, q) d -> n = count_star (severity_rows t v).
Proof.
  unfold severity_dist_query.
  destruct (column t "Severity") as [sev|] eqn:Hsev; [|discriminate].
  apply column_is_cell in Hsev. subst sev. cbn [bind].
  intros H. apply Ok_inj in H. subst d. split.
  - rewrite <- (sum_Z_perm _ _ (Permutation_map (fun x => snd (fst x)) (sort_by_perm _ _))).
    rewrite !map_map. cbn [fst snd]. apply grouped_counts.
  - intros v n q Hin. apply In_sort_by in Hin. apply in_map_iff in Hin.
    destruct Hin as ([v' n'] & Heq & Hin). cbn [fst snd] in Heq.
    inversion Heq; subst v' n'. clear Heq.
    apply in_map_iff in Hin. destruct Hin as ([k ms] & Heq & Hin).
    cbn [fst snd] in Heq. inversion Heq; subst v n. clear Heq.
    destruct (grouped_spec E (fun r => [cell t "Severity" r])
                (filter (fun r => is_not_null (cell t "Severity" r)) (rows t)))
      as (_ & Hg & _).
    destruct (Hg _ _ Hin) as (-> & Hk). apply in_map_iff in Hk.
    destruct Hk as (x & <- & Hx). cbn [nth].
    unfold severity_rows. now rewrite filter_filter_and.
Qed.

(** C2, amended.  Each aggregation has a WHERE clause of its own, and
    counts exactly the rows that pass it.  [compute_risk] and
    [compute_state_risk_rates] keep the rows that have a start time, a
    state that is neither NULL nor empty, and a severity: in a result the
    counts add up to the number of these rows, and each row of the result
    counts those of them that have its grouping values.
    [compute_temporal_patterns] keeps every row with a start time,
    whatever its state and severity: each of its four breakdowns adds up
    to the number of rows with a start time.  [compute_weather_risk] keeps
    the rows with a state and a weather condition that are neither NULL
    nor empty and with a severity, whatever their start time.  In
    [generate_summary_report] the total counts every row, the date range
    is taken over the start times that are not NULL, the states covered
    and the top states over the rows with a state that is neither NULL nor
    empty, and the severity distribution over the rows with a severity. *)
Theorem aggregations_leave_out (E : Engine) (t : Table) :
  (forall x,
     (complete_row t x = true <->
        cell t "Start_Time" x <> VNull
        /\ cell t "State" x <> VNull /\ cell t "State" x <> VStr ""
        /\ cell t "Severity" x <> VNull)
     /\ (has_start t x = true <-> cell t "Start_Time" x <> VNull)
     /\ (weather_row t x = true <->
           cell t "State" x <> VNull /\ cell t "State" x <> VStr ""
           /\ cell t "Weather_Condition" x <> VNull
           /\ cell t "Weather_Condition" x <> VStr ""
           /\ cell t "Severity" x <> VNull)
     /\ (has_state t x = true <->
           cell t "State" x <> VNull /\ cell t "State" x <> VStr "")
     /\ (has_severity t x = true <-> cell t "Severity" x <> VNull))
  /\ (forall levels include_weather include_time out,
        compute_risk_query E levels include_weather include_time t = Ok out ->
        sum_Z (map accident_count out) = count_star (filter (complete_row t) (rows t))
        /\ forall r, In r out ->
             accident_count r
             = count_star (risk_group t levels include_weather include_time (dims r)))
  /\ (forall out,
        compute_state_risk_rates_query E t = Ok out ->
        sum_Z (map total_accidents out) = count_star (filter (complete_row t) (rows t))
        /\ forall r, In r out ->
             total_accidents r
             = count_star (rate_group t (rate_year r) (rate_state r)))
  /\ (forall p,
        compute_temporal_patterns_query E t = Ok p ->
        (forall l, In l [hourly p; daily p; monthly p; seasonal p] ->
           sum_Z (map accident_count l) = count_star (filter (has_start t) (rows t)))
        /\ (forall r, In r (hourly p) ->
              accident_count r = count_star (temporal_group t (extract Hour) (dims r)))
        /\ (forall r, In r (daily p) ->
              accident_count r = count_star (temporal_group t (extract Dow) (dims r)))
        /\ (forall r, In r (monthly p) ->
              accident_count r = count_star (temporal_group t (extract Month) (dims r)))
        /\ (forall r, In r (seasonal p) ->
              accident_count r
              = count_star (temporal_group t (fun v => season (extract Month v)) (dims r))))
  /\ (forall out,
        compute_weather_risk_query E t = Ok out ->
        sum_Z (map w_count out) = count_star (filter (weather_row t) (rows t))
        /\ forall r, In r out ->
             w_count r = count_star (weather_group t (w_state r) (w_weather r)))
  /\ (forall s,
        generate_summary_report_query E t = Ok s ->
        report_total_accidents s = count_star (rows t)
        /\ report_date_range s = (min_value (start_times t), max_value (start_times t))
        /\ report_states_covered s
           = count_distinct (map (cell t "State") (filter (has_state t) (rows t)))
        /\ (forall st n, In (st, n) (report_top_states s) ->
              n = count_star (state_rows t st))
        /\ sum_Z (map (fun x => snd (fst x)) (report_severity_distribution s))
           = count_star (filter (has_severity t) (rows t))
        /\ (forall v n q, In (v, n, q) (report_severity_distribution s) ->
              n = count_star (severity_rows t v))).
Proof.
  split; [apply where_clauses|].
  split; [intros levels iw it out; apply compute_risk_query_kept|].
  split.
  { intros out H. split; [now apply (compute_state_risk_rates_query_total E)|].
    intros r Hr. now destruct (In_state_risk_rates E t out r H Hr). }
  split.
  { intros p. unfold compute_temporal_patterns_query.
    destruct (temporal_query E (extract Hour) by_key t) as [h|] eqn:Hh; [|discriminate].
    destruct (temporal_query E (extract Dow) by_key t) as [d|] eqn:Hd; [|discriminate].
    destruct (temporal_query E (extract Month) by_key t) as [m|] eqn:Hm; [|discriminate].
    destruct (temporal_query E (fun v => season (extract Month v)) by_count_desc t)
      as [sn|] eqn:Hs; [|discriminate].
    cbn [bind]. intros H. inversion H; subst p; clear H.
    cbn [hourly daily monthly seasonal].
    split.
    { intros l [<-|[<-|[<-|[<-|[]]]]]; eapply temporal_query_counts; eassumption. }
    repeat split; intros r Hr;
      match goal with
      | Hq : temporal_query E ?k ?o t = Ok ?l, Hr : In r ?l |- _ =>
          destruct (temporal_query_rows _ _ _ _ _ Hq) as (_ & Hrows);
          now destruct (Hrows r Hr) as (_ & Hc & _)
      end. }
  split; [intros out; apply compute_weather_risk_query_kept|].
  intros s H.
  destruct (summary_parts E t s H) as (Htotal & Hrange & Hcount & Htop & Hdist).
  split; [exact Htotal|]. split; [|split; [|split]].
  - unfold date_range_query in Hrange.
    destruct (column t "Start_Time") as [st|] eqn:Hst; [|discriminate].
    apply column_is_cell in Hst. subst st. cbn [bind] in Hrange.
    apply Ok_inj in Hrange. symmetry. exact Hrange.
  - unfold state_count_query in Hcount.
    destruct (column t "State") as [state|] eqn:Hstate; [|discriminate].
    apply column_is_cell in Hstate. subst state.
    pass_guards_in Hcount. apply Ok_inj in Hcount. rewrite <- Hcount.
    now rewrite map_filter_comm.
  - now apply (top_states_query_kept E).
  - now apply (severity_dist_query_kept E).
Qed.

(** * Connections over a session *)

Lemma filter_other_conns {A : Type} (h : nat) (l : list (nat * A)) :
  Forall (fun c => (fst c < h)%nat) l ->
  filter (fun c => negb (Nat.eqb (fst c) h)) l = l.
Proof.
  intros H. apply filter_all. intros c Hc. rewrite Forall_forall in H.
  specialize (H c Hc). destruct (Nat.eqb_spec (fst c) h); [lia|reflexivity].
Qed.

Lemma lookup_conn_fresh {A : Type} (h : nat) (l : list (nat * A)) :
  Forall (fun c => (fst c < h)%nat) l -> lookup_conn h l = None.
Proof.
  induction 1 as [|[k x] l Hk _ IH]; simpl; [reflexivity|].
  simpl in Hk. destruct (Nat.eqb_spec h k); [lia|assumption].
Qed.

Lemma lookup_conn_None_filter {A : Type} (h : nat) (l : list (nat * A)) :
  lookup_conn h l = None -> filter (fun c => negb (Nat.eqb (fst c) h)) l = l.
Proof.
  induction l as [|[k x] l IH]; simpl; [reflexivity|].
  rewrite (Nat.eqb_sym k h). destruct (Nat.eqb h k); [discriminate|].
  simpl. intros H. now rewrite IH.
Qed.

Lemma create_table_others (h : nat) (name : string) (t : Table)
    (l : list (nat * list (string * Table))) :
  Forall (fun c => (fst c < h)%nat) l ->
  map (fun c => if Nat.eqb (fst c) h then (fst c, (name, t) :: snd c) else c) l = l.
Proof.
  induction 1 as [|c l Hc _ IH]; simpl; [reflexivity|].
  destruct (Nat.eqb_spec (fst c) h); [lia|]. now rewrite IH.
Qed.

Lemma holds_load base a w :
  holds base a w -> _data_loaded a = false ->
  holds base (snd (fst (_ensure_data_loaded a w))) (snd (_ensure_data_loaded a w)).
Proof.
  intros (Hwf & Hc) Hu. unfold _ensure_data_loaded. rewrite Hu. cbn [negb].
  assert (Hbase : conns w = base).
  { destruct (conn a); rewrite Hu in Hc; tauto. }
  unfold Loader.load_to_duckdb. cbn [connect].
  change (read_csv_auto _ (Loader.data_path (data_loader a)))
    with (read_csv_auto w (Loader.data_path (data_loader a))).
  unfold well_formed in Hwf.
  destruct (read_csv_auto w (Loader.data_path (data_loader a))) as [t|e]; cbn [fst snd].
  - split.
    + unfold well_formed, create_table. cbn [conns next_conn map fst snd].
      rewrite Nat.eqb_refl, (create_table_others _ _ _ _ Hwf).
      constructor; [cbn; lia|].
      eapply Forall_impl; [|exact Hwf]. intros c Hlt. cbn in *. lia.
    + cbn [conn _data_loaded]. unfold is_open, create_table.
      cbn [conns map fst snd lookup_conn]. rewrite !Nat.eqb_refl. cbn [filter fst negb].
      rewrite Nat.eqb_refl. cbn [negb lookup_conn]. split; [reflexivity|].
      rewrite (create_table_others _ _ _ _ Hwf), <- Hbase.
      now apply filter_other_conns.
  - assert (Hclosed : conns (close_conn (next_conn w)
                              (mkWorld (files w) (S (next_conn w))
                                       ((next_conn w, []) :: conns w))) = base).
    { unfold close_conn. cbn [conns filter fst]. rewrite Nat.eqb_refl. cbn [negb].
      rewrite <- Hbase. now apply filter_other_conns. }
    split.
    + unfold well_formed. rewrite Hclosed, <- Hbase. cbn [next_conn close_conn].
      eapply Forall_impl; [|exact Hwf]. intros c Hlt. cbn in *. lia.
    + destruct (conn a) as [h|]; rewrite Hu in *.
      * split; [exact Hclosed|]. unfold is_open. rewrite Hclosed, <- Hbase.
        destruct Hc as (_ & Hc). exact Hc.
      * split; [reflexivity|exact Hclosed].
Qed.

Lemma method_state {A : Type} (q : Table -> Outcome A) a w :
  snd (fst (method q a w)) = snd (fst (_ensure_data_loaded a w))
  /\ snd (method q a w) = snd (_ensure_data_loaded a w).
Proof.
  unfold method. destruct (_ensure_data_loaded a w) as [[[u|e] a'] w']; split; reflexivity.
Qed.

Lemma forget_state {A : Type} (s : Step A) :
  snd (fst (forget s)) = snd (fst s) /\ snd (forget s) = snd s.
Proof. destruct s as [[o a] w]. split; reflexivity. Qed.

Lemma holds_ensure base a w :
  holds base a w ->
  holds base (snd (fst (_ensure_data_loaded a w))) (snd (_ensure_data_loaded a w)).
Proof.
  intros H. destruct (_data_loaded a) eqn:Hl.
  - unfold _ensure_data_loaded. rewrite Hl. exact H.
  - now apply holds_load.
Qed.

Lemma holds_close base a w :
  holds base a w ->
  holds base (fst (close a w)) (snd (close a w)) /\ conns (snd (close a w)) = base.
Proof.
  intros (Hwf & Hc). unfold close. destruct (conn a) as [h|] eqn:Hconn; cbn [fst snd].
  - assert (Hclosed : conns (close_conn h w) = base).
    { unfold close_conn. cbn [conns]. destruct (_data_loaded a).
      - tauto.
      - destruct Hc as (Hb & Ho). rewrite <- Hb. apply lookup_conn_None_filter.
        unfold is_open in Ho. destruct (lookup_conn h (conns w)); [discriminate|reflexivity]. }
    split; [|exact Hclosed]. split.
    + unfold well_formed in *. cbn [close_conn next_conn conns].
      apply Forall_forall. intros c Hin. apply filter_In in Hin.
      rewrite Forall_forall in Hwf. apply Hwf. tauto.
    + cbn [conn _data_loaded]. split; [exact Hclosed|].
      unfold is_open, close_conn. cbn [conns]. rewrite lookup_conn_filter.
      now rewrite Nat.eqb_refl.
  - split; [split; [assumption|now rewrite Hconn]|tauto].
Qed.

Lemma holds_call E base c a w :
  holds base a w ->
  holds base (snd (fst (call E c a w))) (snd (call E c a w)).
Proof.
  intros H.
  destruct c; cbn [call];
    try (unfold compute_risk, compute_state_risk_rates, compute_temporal_patterns,
                compute_weather_risk, generate_summary_report;
         match goal with
         | |- context [forget (method ?q a w)] =>
             destruct (forget_state (method q a w)) as (-> & ->);
             destruct (method_state q a w) as (-> & ->)
         end;
         now apply holds_ensure).
  destruct (close a w) as [a' w'] eqn:Hcl. cbn [fst snd].
  pose proof (holds_close base a w H) as (Hh & _). now rewrite Hcl in Hh.
Qed.

Lemma holds_run E base cs a w :
  holds base a w ->
  holds base (snd (fst (run E cs a w))) (snd (run E cs a w)).
Proof.
  revert a w. induction cs as [|c cs IH]; intros a w H; cbn [run]; [exact H|].
  pose proof (holds_call E base c a w H) as Hc.
  destruct (call E c a w) as [[[e|] a'] w']; cbn [fst snd] in *; [exact Hc|].
  now apply IH.
Qed.

(** X8.  Connections over the life of an analyzer.  In a world whose
    handles were handed out in order, after any calls on a new analyzer:
    if the analyzer is loaded, its handle is open and is the only
    connection that was not there before; if it is not, the connections are
    exactly those that were there before.  A [with] block leaves exactly
    the connections that were there before it, whatever its body did and
    whether or not it raised. *)
Theorem session_connections (E : Engine) (path : string) (w : World) (body : list Call) :
  well_formed w ->
  (let a := snd (fst (run E body (mkRiskAnalyzer (Loader.mkDataLoader path) None false) w)) in
   let w' := snd (run E body (mkRiskAnalyzer (Loader.mkDataLoader path) None false) w) in
   if _data_loaded a
   then exists h, conn a = Some h /\ is_open w' h = true
                  /\ filter (fun c => negb (Nat.eqb (fst c) h)) (conns w') = conns w
   else conns w' = conns w)
  /\ conns (snd (with_analyzer E path body w)) = conns w.
Proof.
  intros Hwf.
  assert (H0 : holds (conns w) (mkRiskAnalyzer (Loader.mkDataLoader path) None false) w)
    by (split; [assumption|cbn; auto]).
  pose proof (holds_run E (conns w) body _ w H0) as Hrun.
  split.
  - cbv zeta. destruct Hrun as (_ & Hc).
    destruct (conn (snd (fst (run E body _ w)))) as [h|];
      destruct (_data_loaded (snd (fst (run E body _ w)))); try tauto.
    + exists h. tauto.
    + destruct Hc as (Hc & _). discriminate Hc.
  - unfold with_analyzer, init, Loader.init.
    destruct (exists_file w path); cbn [bind]; [|reflexivity].
    destruct (run E body _ w) as [[r a'] w'] eqn:Hr. cbn [fst snd] in Hrun.
    pose proof (holds_close (conns w) a' w' Hrun) as (_ & Hcl).
    destruct (close a' w') as [a'' w'']. exact Hcl.
Qed.

Lemma session_connections_witness :
  conns (snd (with_analyzer fifo "data.csv"
                [ComputeRisk ["State"] true true; Close; ComputeWeatherRisk;
                 ComputeRisk ["Nope"] false false; GenerateSummaryReport]
                Scenario.world0))
  = conns Scenario.world0.
Proof.
  apply (session_connections fifo "data.csv" Scenario.world0
           [ComputeRisk ["State"] true true; Close; ComputeWeatherRisk;
            ComputeRisk ["Nope"] false false; GenerateSummaryReport]).
  constructor.
Defined.

(** X9.  [close] may be called again: a second [close] changes neither the
    object nor the world.  On an analyzer that never loaded, [close] does
    nothing at all. *)
Theorem close_idempotent (a : RiskAnalyzer) (w : World) :
  close (fst (close a w)) (snd (close a w)) = close a w
  /\ (conn a = None -> close a w = (a, w)).
Proof.
  unfold close. destruct (conn a) as [h|] eqn:Hc; cbn [fst snd conn].
  - split; [|discriminate]. f_equal. unfold close_conn. cbn [files next_conn conns].
    f_equal. now apply filter_twice.
  - rewrite Hc. split; reflexivity.
Qed.

(** * The loader's connections *)

(** X10.  The loader does not leak connections.  In a world whose handles
    were handed out in order: [validate_data] leaves exactly the
    connections that were open before, whether it returns a report or
    raises; [load_to_duckdb] does the same when it raises, and when it
    returns it has opened exactly one connection, the handle it returns,
    holding the relation under the name asked for. *)
Theorem loader_connections (dl : Loader.DataLoader) (name : string) (w : World) :
  well_formed w ->
  conns (snd (Loader.validate_data dl w)) = conns w
  /\ (forall e, fst (Loader.load_to_duckdb dl name w) = Raise e ->
        conns (snd (Loader.load_to_duckdb dl name w)) = conns w)
  /\ (forall h, fst (Loader.load_to_duckdb dl name w) = Ok h ->
        h = next_conn w
        /\ (exists t, read_csv_auto w (Loader.data_path dl) = Ok t
                      /\ conns (snd (Loader.load_to_duckdb dl name w))
                         = (h, [(name, t)]) :: conns w)).
Proof.
  intros Hwf. unfold well_formed in Hwf.
  assert (Hfilter : filter (fun c => negb (Nat.eqb (fst c) (next_conn w))) (conns w)
                    = conns w) by now apply filter_other_conns.
  unfold Loader.validate_data, Loader.load_to_duckdb. cbn [connect].
  change (read_csv_auto _ (Loader.data_path dl))
    with (read_csv_auto w (Loader.data_path dl)).
  destruct (read_csv_auto w (Loader.data_path dl)) as [t|e0]; cbn [fst snd].
  - split; [|split; [discriminate|]].
    + unfold close_conn, create_table. cbn [conns map fst snd filter].
      rewrite Nat.eqb_refl. cbn [fst filter]. rewrite Nat.eqb_refl. cbn [negb].
      now rewrite (create_table_others _ _ _ _ Hwf).
    + intros h Hh. apply Ok_inj in Hh. subst h. split; [reflexivity|].
      exists t. split; [reflexivity|].
      unfold create_table. cbn [conns map fst snd]. rewrite Nat.eqb_refl.
      now rewrite (create_table_others _ _ _ _ Hwf).
  - assert (Hc : conns (close_conn (next_conn w)
                          (mkWorld (files w) (S (next_conn w))
                                   ((next_conn w, []) :: conns w))) = conns w).
    { unfold close_conn. cbn [conns filter fst]. rewrite Nat.eqb_refl. cbn [negb].
      exact Hfilter. }
    split; [exact Hc|]. split; [intros; exact Hc|discriminate].
Qed.

Lemma loader_connections_witness :
  conns (snd (Loader.validate_data (Loader.mkDataLoader "data.csv") Scenario.world1))
  = conns Scenario.world1.
Proof.
  apply (loader_connections (Loader.mkDataLoader "data.csv") "accidents" Scenario.world1).
  repeat constructor.
Defined.

(** X11.  The missing-value statistics of a validation report.  The
    entries are those of the key columns that the relation lists under
    exactly that name, in the order of the key columns; in each, the count
    lies between 0 and [total_rows] and the percentage between 0 and
    100. *)
Theorem validate_missing_statistics (t : Table) (r : Loader.Report) :
  Loader.validate_table t = Ok r ->
  Loader.total_rows r = count_star (rows t)
  /\ map fst (Loader.missing_values r) = filter (listed t) Loader.key_columns
  /\ forall c m, In (c, m) (Loader.missing_values r) ->
       0 <= Loader.count m <= Loader.total_rows r
       /\ (0 <= Loader.percentage m /\ Loader.percentage m <= 100)%Q.
Proof.
  unfold Loader.validate_table.
  destruct (Loader.check_all t (count_star (rows t)) Loader.key_columns [])
    as [entries|] eqn:Hall; cbn [bind]; [|discriminate].
  apply check_all_Ok in Hall. destruct Hall as (-> & Hz & _). rewrite app_nil_l.
  intros H. apply Ok_inj in H. subst r.
  cbn [Loader.total_rows Loader.missing_values]. split; [reflexivity|]. split.
  - clear Hz. induction Loader.key_columns as [|c cs IH]; [reflexivity|].
    cbn [flat_map filter]. destruct (listed t c); cbn [app map fst]; now rewrite IH.
  - intros c m Hin. apply in_flat_map in Hin.
    destruct Hin as (c' & Hkey & Hin). destruct (listed t c') eqn:Hl; [|contradiction].
    destruct Hin as [Heq|[]]. inversion Heq; subst c m; clear Heq.
    cbn [Loader.count Loader.percentage].
    assert (Hb : 0 <= count_star (filter (fun x => is_missing (cell t c' x)) (rows t))
                 <= count_star (rows t))
      by (split; [apply count_star_nonneg|apply count_star_filter_le]).
    split; [exact Hb|].
    assert (Hpos : 0 < count_star (rows t)).
    { assert (count_star (rows t) <> 0)
        by (apply Hz, existsb_exists; exists c'; auto).
      pose proof (count_star_nonneg (rows t)). lia. }
    destruct (percentage_bounds _ _ Hb Hpos) as (Hlo & Hhi).
    assert (Heq : (inject_Z (count_star (filter (fun x => is_missing (cell t c' x)) (rows t)))
                   / inject_Z (count_star (rows t)) * 100
                   == inject_Z (count_star (filter (fun x => is_missing (cell t c' x))
                                                   (rows t)) * 100)
                      / inject_Z (count_star (rows t)))%Q).
    { rewrite inject_Z_mult. change (inject_Z 100) with 100%Q. field.
      intros E. unfold Qeq in E. simpl in E. lia. }
    split; rewrite Heq; assumption.
Qed.

Lemma validate_missing_statistics_witness :
  exists r, Loader.validate_table Scenario.text_only = Ok r
            /\ map fst (Loader.missing_values r) = ["ID"; "State"; "Weather_Condition"].
Proof.
  destruct (Loader.validate_table Scenario.text_only) as [r|] eqn:Hr;
    [|vm_compute in Hr; discriminate Hr].
  destruct (validate_missing_statistics Scenario.text_only r Hr) as (_ & Hm & _).
  exists r. split; [reflexivity|exact Hm].
Defined.

(** * Memory estimate *)

(** X12.  [estimate_memory_usage] recommends DuckDB exactly for files of
    more than 2 621 440 000 bytes (2500 MiB, an estimate above 1000 MB) and
    Pandas for all others; the estimate is the size over 2 621 440, so it
    grows with the size.  (Sizes as exact rationals.) *)
Theorem estimate_threshold (st_size : Z) :
  (Estimate.recommended_approach (Estimate.estimate_memory_usage st_size) = "DuckDB"
   <-> 2621440000 < st_size)
  /\ (Estimate.recommended_approach (Estimate.estimate_memory_usage st_size) = "Pandas"
      <-> st_size <= 2621440000)
  /\ (Estimate.estimated_memory_mb (Estimate.estimate_memory_usage st_size)
      == inject_Z st_size / inject_Z 2621440)%Q
  /\ forall n, st_size <= n ->
       (Estimate.estimated_memory_mb (Estimate.estimate_memory_usage st_size)
        <= Estimate.estimated_memory_mb (Estimate.estimate_memory_usage n))%Q.
Proof.
  unfold Estimate.estimate_memory_usage.
  cbn [Estimate.recommended_approach Estimate.estimated_memory_mb].
  assert (Hle : forall n, (inject_Z n / inject_Z (1024 * 1024) / (25 # 10) <= 1000)%Q
                          <-> n <= 2621440000).
  { intros n. unfold Qle, Qdiv, Qmult, Qinv, inject_Z. simpl. lia. }
  assert (Hb : forall n, Qle_bool (inject_Z n / inject_Z (1024 * 1024) / (25 # 10)) 1000 = true
                         <-> n <= 2621440000)
    by (intros n; rewrite Qle_bool_iff; apply Hle).
  split; [|split; [|split]].
  - destruct (Qle_bool _ 1000) eqn:E; cbn [negb].
    + apply Hb in E. split; [discriminate|lia].
    + split; [intros _|reflexivity].
      destruct (Z.lt_ge_cases 2621440000 st_size) as [H|H]; [assumption|].
      apply Z.ge_le_iff in H || idtac. assert (st_size <= 2621440000) as H' by lia.
      apply Hb in H'. congruence.
  - destruct (Qle_bool _ 1000) eqn:E; cbn [negb].
    + apply Hb in E. split; [intros _; assumption|reflexivity].
    + split; [discriminate|]. intros H. apply Hb in H. congruence.
  - unfold Qeq, Qdiv, Qmult, Qinv, inject_Z. simpl. lia.
  - intros n Hn. unfold Qle, Qdiv, Qmult, Qinv, inject_Z. simpl. lia.
Qed.

(** * The command line *)

Import Cli.

Lemma keeps_seq base p q : keeps base p -> keeps base q -> keeps base (seq p q).
Proof.
  intros Hp Hq s H. unfold seq. specialize (Hp s H).
  destruct (p s) as [[f|] s']; cbn [snd] in *; [exact Hp|]. now apply Hq.
Qed.

Lemma keeps_when base b p : keeps base p -> keeps base (when b p).
Proof. intros Hp. destruct b; [exact Hp|]. intros s H. exact H. Qed.

Lemma keeps_query base E c : keeps base (query E c).
Proof.
  intros s H. unfold query. pose proof (holds_call E base c _ _ H) as Hc.
  destruct (call E c (analyzer s) (world s)) as [[r a'] w']. exact Hc.
Qed.

Lemma keeps_write base O name : keeps base (write O name).
Proof. intros s H. unfold write. destruct (write_ok O name); exact H. Qed.

Lemma keeps_plot base O name : keeps base (plot O name).
Proof. intros s H. unfold plot. destruct (plot_ok O name); exact H. Qed.

Lemma keeps_new_visualizer base O : keeps base (new_visualizer O).
Proof. intros s H. unfold new_visualizer. destruct (style_ok O); exact H. Qed.

Lemma keeps_plt_close base : keeps base plt_close.
Proof. intros s H. exact H. Qed.

Lemma keeps_body base E O args : keeps base (body E O args).
Proof.
  unfold body. destruct (summary args);
    repeat first [ apply keeps_seq | apply keeps_when | apply keeps_query
                 | apply keeps_write | apply keeps_plot | apply keeps_new_visualizer
                 | apply keeps_plt_close ].
Qed.

(** X13.  [main] ends with status 0 or 1 and, in a world whose handles
    were handed out in order, leaves exactly the connections that were open
    before, on every path.  When the data file does not exist the status is
    1 and nothing is created, written or opened; otherwise, when the output
    directory can be created, its creation is the first thing done. *)
Theorem main_releases (E : Engine) (O : Outside) (args : Args) (w : World) :
  well_formed w ->
  (fst (fst (main E O args w)) = 0 \/ fst (fst (main E O args w)) = 1)
  /\ conns (snd (main E O args w)) = conns w
  /\ (exists_file w (data args) = false -> main E O args w = (1, [], w))
  /\ (exists_file w (data args) = true -> mkdir_ok O (output args) = true ->
      exists rest, snd (fst (main E O args w)) = Mkdir (output args) :: rest).
Proof.
  intros Hwf. unfold main.
  destruct (exists_file w (data args)) eqn:Hex; cbn [negb].
  2:{ repeat split; auto. discriminate. }
  destruct (mkdir_ok O (output args)) eqn:Hmk; cbn [negb].
  2:{ repeat split; auto; discriminate. }
  unfold init, Loader.init. rewrite Hex. cbn [bind].
  set (a0 := mkRiskAnalyzer (Loader.mkDataLoader (data args)) None false).
  assert (H0 : holds (conns w) (analyzer (mkState a0 w [Mkdir (output args)]))
                     (world (mkState a0 w [Mkdir (output args)])))
    by (split; [assumption|cbn; auto]).
  pose proof (keeps_body (conns w) E O args _ H0) as Hk.
  assert (Hprefix : exists rest,
            log (snd (body E O args (mkState a0 w [Mkdir (output args)])))
            = Mkdir (output args) :: rest).
  { assert (Hgen : forall (s : State) d rest0,
              log s = d :: rest0 ->
              exists rest, log (snd (body E O args s)) = d :: rest).
    { assert (Hpre : forall p : Prog,
                (forall s d r0, log s = d :: r0 -> exists r, log (snd (p s)) = d :: r) ->
                forall q : Prog,
                (forall s d r0, log s = d :: r0 -> exists r, log (snd (q s)) = d :: r) ->
                forall s d r0, log s = d :: r0 ->
                               exists r, log (snd (seq p q s)) = d :: r).
      { intros p Hp q Hq s d r0 Hs. unfold seq. destruct (Hp s d r0 Hs) as (r & Hr).
        destruct (p s) as [[f|] s']; cbn [snd] in *; eauto. }
      assert (Hwhen : forall b (p : Prog),
                (forall s d r0, log s = d :: r0 -> exists r, log (snd (p s)) = d :: r) ->
                forall s d r0, log s = d :: r0 ->
                               exists r, log (snd (when b p s)) = d :: r).
      { intros b p Hp s d r0 Hs. destruct b; [eauto|]. cbn. eauto. }
      assert (Hq : forall c s d r0, log s = d :: r0 ->
                     exists r, log (snd (query E c s)) = d :: r).
      { intros c s d r0 Hs. unfold query.
        destruct (call E c (analyzer s) (world s)) as [[r a'] w']. cbn. eauto. }
      assert (Hw : forall name s d r0, log s = d :: r0 ->
                     exists r, log (snd (write O name s)) = d :: r).
      { intros name s d r0 Hs. unfold write. destruct (write_ok O name); cbn; [|eauto].
        rewrite Hs. cbn. eauto. }
      assert (Hp : forall name s d r0, log s = d :: r0 ->
                     exists r, log (snd (plot O name s)) = d :: r).
      { intros name s d r0 Hs. unfold plot. destruct (plot_ok O name); cbn; [|eauto].
        rewrite Hs. cbn. eauto. }
      assert (Hv : forall s d r0, log s = d :: r0 ->
                     exists r, log (snd (new_visualizer O s)) = d :: r).
      { intros s d r0 Hs. unfold new_visualizer. destruct (style_ok O); cbn; eauto. }
      assert (Hc : forall s d r0, log s = d :: r0 ->
                     exists r, log (snd (plt_close s)) = d :: r)
        by (intros s d r0 Hs; cbn; eauto).
      unfold body. destruct (summary args);
        repeat first [ apply Hpre | apply Hwhen | apply Hq | apply Hw | apply Hp
                     | apply Hv | apply Hc ]. }
    apply (Hgen _ (Mkdir (output args)) []). reflexivity. }
  destruct (body E O args (mkState a0 w [Mkdir (output args)])) as [r s] eqn:Hb.
  cbn [snd] in Hk, Hprefix.
  pose proof (holds_close (conns w) _ _ Hk) as (_ & Hcl).
  destruct (close (analyzer s) (world s)) as [a' w'] eqn:Hc. cbn [fst snd] in *.
  split; [destruct r; auto|]. split; [exact Hcl|]. split; [discriminate|].
  intros _ _. exact Hprefix.
Qed.

Lemma main_releases_witness :
  conns (snd (main fifo (mkOutside (fun _ => true) (fun _ => true) true (fun _ => true))
                (mkArgs "data.csv" all "outputs/" false ["State"; "Severity"] true)
                Scenario.world0))
  = conns Scenario.world0.
Proof.
  apply (main_releases fifo (mkOutside (fun _ => true) (fun _ => true) true (fun _ => true))
           (mkArgs "data.csv" all "outputs/" false ["State"; "Severity"] true)
           Scenario.world0).
  constructor.
Defined.

(** X14.  With [--summary] the other options play no part: whatever the
    analysis, the levels and the visualize flag, [main] does the same.  It
    writes no file but [summary_report.json], and ends with status 0
    exactly when that file was written. *)
Theorem main_summary_only (E : Engine) (O : Outside) (args : Args) (w : World) :
  summary args = true ->
  (forall a l v,
     main E O (mkArgs (data args) a (output args) true l v) w = main E O args w)
  /\ (snd (fst (main E O args w)) = []
      \/ snd (fst (main E O args w)) = [Mkdir (output args)]
      \/ snd (fst (main E O args w))
         = [Mkdir (output args); Wrote "summary_report.json"])
  /\ (fst (fst (main E O args w)) = 0
      <-> snd (fst (main E O args w))
          = [Mkdir (output args); Wrote "summary_report.json"]).
Proof.
  intros Hs. split.
  { intros a l v. unfold main, body. cbn [data output summary]. rewrite Hs. reflexivity. }
  unfold main, body. rewrite Hs.
  destruct (exists_file w (data args)); cbn [negb].
  2:{ cbn. split; [auto|]. split; discriminate. }
  destruct (mkdir_ok O (output args)); cbn [negb].
  2:{ cbn. split; [auto|]. split; discriminate. }
  destruct (init (data args) w) as [a|e].
  2:{ cbn. split; [auto|]. split; discriminate. }
  unfold seq, query. cbn [analyzer world log].
  destruct (call E GenerateSummaryReport a w) as [[r a'] w'].
  destruct r as [e|]; cbn [option_map].
  { destruct (close _ _). cbn. split; [auto|]. split; discriminate. }
  unfold write. cbn [analyzer world log].
  destruct (write_ok O "summary_report.json").
  - cbn [analyzer world log]. destruct (close a' w'). cbn. split; [auto|]. split; auto.
  - cbn [analyzer world log]. destruct (close a' w'). cbn. split; [auto|]. split; discriminate.
Qed.

Lemma main_summary_only_witness :
  fst (fst (main fifo (mkOutside (fun _ => true) (fun _ => true) true (fun _ => true))
              (mkArgs "data.csv" risk "outputs/" true ["State"] true)
              Scenario.world0)) = 0
  <-> snd (fst (main fifo (mkOutside (fun _ => true) (fun _ => true) true (fun _ => true))
                 (mkArgs "data.csv" risk "outputs/" true ["State"] true)
                 Scenario.world0))
      = [Mkdir "outputs/"; Wrote "summary_report.json"].
Proof.
  apply (main_summary_only fifo
           (mkOutside (fun _ => true) (fun _ => true) true (fun _ => true))
           (mkArgs "data.csv" risk "outputs/" true ["State"] true)
           Scenario.world0).
  reflexivity.
Defined.

Ltac run_main :=
  unfold seq, when, skip, query, write, plot, new_visualizer, plt_close;
  repeat first
    [ progress cbn [one_of existsb orb negb analyzer world log option_map fst snd
                    files figures flat_map app List.length]
    | match goal with
      | |- context [call ?E ?c ?a ?w] =>
          let r := fresh "r" in let a' := fresh "a" in let w' := fresh "w" in
          destruct (call E c a w) as [[[r|] a'] w']
      | |- context [write_ok ?O ?n] => destruct (write_ok O n)
      | |- context [plot_ok ?O ?n] => destruct (plot_ok O n)
      | |- context [style_ok ?O] => destruct (style_ok O)
      | |- context [close ?a ?w] => destruct (close a w)
      end ].

(** X15.  [--visualize] with the analysis [risk], [temporal] or [all]
    never ends with status 0: the figure that is drawn first is followed by
    a call on [plt], which the module does not import.  So at most one
    figure is saved, and for [all] it is never [time_patterns.png]. *)
Theorem main_visualize_fails (E : Engine) (O : Outside) (args : Args) (w : World) :
  summary args = false ->
  visualize args = true ->
  one_of (analysis args) [risk; temporal; all] = true ->
  fst (fst (main E O args w)) = 1
  /\ (List.length (figures (snd (fst (main E O args w)))) <= 1)%nat
  /\ (analysis args = all ->
      ~ In "time_patterns.png" (figures (snd (fst (main E O args w))))).
Proof.
  intros Hs Hv Ha. unfold main, body. rewrite Hs, Hv.
  destruct (exists_file w (data args)); cbn [negb];
    [|cbn; repeat split; [lia|intros _ []]].
  destruct (mkdir_ok O (output args)); cbn [negb];
    [|cbn; repeat split; [lia|intros _ []]].
  destruct (init (data args) w) as [a|e];
    [|cbn; repeat split; [lia|intros _ []]].
  destruct (analysis args); try discriminate Ha; run_main;
    (split; [reflexivity|split; [lia|]]);
    try (intros Hall; discriminate Hall);
    intros _ Hin; cbn in Hin; intuition discriminate.
Qed.

Lemma main_visualize_fails_witness :
  fst (fst (main fifo (mkOutside (fun _ => true) (fun _ => true) true (fun _ => true))
              (mkArgs "data.csv" all "outputs/" false ["State"; "Severity"] true)
              Scenario.world0)) = 1.
Proof.
  apply (main_visualize_fails fifo
           (mkOutside (fun _ => true) (fun _ => true) true (fun _ => true))
           (mkArgs "data.csv" all "outputs/" false ["State"; "Severity"] true)
           Scenario.world0); reflexivity.
Defined.

(** X16.  Without [--summary], the result files are written in a fixed
    order: [risk_metrics.csv], the four temporal files (hourly, daily,
    monthly, seasonal), [weather_analysis.csv], each only for its analysis.
    A run that ends with status 0 has created the output directory and
    written all the files of its analysis, and nothing else; a run that
    fails leaves the files written before the failure, a prefix of that
    list. *)
Theorem main_outputs (E : Engine) (O : Outside) (args : Args) (w : World) :
  summary args = false ->
  let expected :=
    (if one_of (analysis args) [risk; all] then ["risk_metrics.csv"] else [])
    ++ (if one_of (analysis args) [temporal; all]
        then ["temporal_hourly.csv"; "temporal_daily.csv";
              "temporal_monthly.csv"; "temporal_seasonal.csv"]
        else [])
    ++ (if one_of (analysis args) [weather; all] then ["weather_analysis.csv"] else [])
  in
  (fst (fst (main E O args w)) = 0 ->
   snd (fst (main E O args w)) = Mkdir (output args) :: map Wrote expected)
  /\ (exists rest, expected = files (snd (fst (main E O args w))) ++ rest).
Proof.
  intros Hs expected. subst expected. unfold main, body. rewrite Hs.
  destruct (exists_file w (data args)); cbn [negb];
    [|cbn; split; [discriminate|eexists; reflexivity]].
  destruct (mkdir_ok O (output args)); cbn [negb];
    [|cbn; split; [discriminate|eexists; reflexivity]].
  destruct (init (data args) w) as [a|e];
    [|cbn; split; [discriminate|eexists; reflexivity]].
  destruct (analysis args), (visualize args); run_main;
    (split; [first [discriminate | reflexivity] | eexists; reflexivity]).
Qed.

Lemma main_outputs_witness :
  exists rest,
    ["risk_metrics.csv"; "temporal_hourly.csv"; "temporal_daily.csv";
     "temporal_monthly.csv"; "temporal_seasonal.csv"; "weather_analysis.csv"]
    = files (snd (fst (main fifo
         (mkOutside (fun _ => true) (fun f => negb (String.eqb f "temporal_daily.csv"))
                    true (fun _ => true))
         (mkArgs "data.csv" all "outputs/" false ["State"; "Severity"] false)
         Scenario.world0))) ++ rest.
Proof.
  apply (main_outputs fifo
           (mkOutside (fun _ => true) (fun f => negb (String.eqb f "temporal_daily.csv"))
                      true (fun _ => true))
           (mkArgs "data.csv" all "outputs/" false ["State"; "Severity"] false)
           Scenario.world0).
  reflexivity.
Defined.

(** X17.  The analysis [severity], which the parser accepts, has no
    branch: without [--summary] the run creates the output directory and
    does nothing else.  The data file is never read, so no connection is
    opened and the world is untouched even when the file cannot be loaded;
    the status is 0 unless [--visualize] was given and the visualizer could
    not be set up. *)
Theorem main_severity_noop (E : Engine) (O : Outside) (args : Args) (w : World) :
  analysis args = severity ->
  summary args = false ->
  exists_file w (data args) = true ->
  mkdir_ok O (output args) = true ->
  main E O args w
  = (if visualize args && negb (style_ok O) then 1 else 0,
     [Mkdir (output args)], w).
Proof.
  intros Ha Hs Hex Hmk. unfold main, body. rewrite Hs, Ha, Hex, Hmk. cbn [negb].
  unfold init, Loader.init. rewrite Hex. cbn [bind].
  unfold seq, when, skip, new_visualizer.
  destruct (visualize args), (style_ok O); reflexivity.
Qed.

Lemma main_severity_noop_witness :
  main lifo (mkOutside (fun _ => true) (fun _ => false) false (fun _ => false))
       (mkArgs "data.csv" severity "outputs/" false ["State"; "Severity"] false)
       Scenario.world0
  = (0, [Mkdir "outputs/"], Scenario.world0).
Proof.
  apply (main_severity_noop lifo
           (mkOutside (fun _ => true) (fun _ => false) false (fun _ => false))
           (mkArgs "data.csv" severity "outputs/" false ["State"; "Severity"] false)
           Scenario.world0); reflexivity.
Defined.

(** * The processing script *)

Lemma lookup_conn_created (h : nat) (name : string) (t : Table)
    (l : list (nat * list (string * Table))) db :
  lookup_conn h l = Some db ->
  lookup_conn h (map (fun c => if Nat.eqb (fst c) h
                               then (fst c, (name, t) :: snd c) else c) l)
  = Some ((name, t) :: db).
Proof.
  induction l as [|[k x] l IH]; cbn [lookup_conn map fst snd]; [discriminate|].
  destruct (Nat.eqb_spec h k) as [->|N].
  - rewrite Nat.eqb_refl. cbn [lookup_conn fst]. rewrite Nat.eqb_refl. congruence.
  - destruct (Nat.eqb_spec k h) as [->|_]; [contradiction|].
    cbn [lookup_conn]. destruct (Nat.eqb_spec h k); [contradiction|]. exact IH.
Qed.

(** What the loop over the key columns prints for one column. *)
Lemma check_column_Ok t n col :
  Processor.check_column t n col
  = Ok (if has_column t col then
          if textual (map (cell t col) (rows t)) then
            if n =? 0 then Processor.ErrorChecking col ZeroDivisionError
            else Processor.MissingValues col
                   (count_star (filter (fun r => is_missing (cell t col r)) (rows t)))
                   (inject_Z (count_star (filter (fun r => is_missing (cell t col r)) (rows t)))
                    / inject_Z n * 100)%Q
          else Processor.ErrorChecking col (ConversionException col)
        else Processor.ErrorChecking col (QueryError col)).
Proof.
  unfold Processor.check_column, Processor.missing_query, Loader.true_div.
  destruct (has_column t col) eqn:Hc.
  - rewrite (column_present _ _ Hc). cbn [bind]. unfold text_column.
    destruct (textual (map (cell t col) (rows t))); cbn [bind]; [|reflexivity].
    destruct (n =? 0); reflexivity.
  - rewrite (column_missing _ _ Hc). reflexivity.
Qed.

Lemma check_data_ranges_Ok t :
  exists s d n, Processor._check_data_ranges t = Ok [s; d; n].
Proof.
  unfold Processor._check_data_ranges.
  destruct (Loader.severity_range_query t), (Loader.date_range_query t),
    (Loader.state_count_query t); cbn; eauto.
Qed.

Lemma integrity_checks_lines t :
  exists s d n,
    Processor._perform_integrity_checks t
    = Ok (Processor.TotalRecords (count_star (rows t))
          :: Processor.TotalColumns (count_star (schema t))
          :: map (fun col =>
                if has_column t col then
                  if textual (map (cell t col) (rows t)) then
                    if count_star (rows t) =? 0
                    then Processor.ErrorChecking col ZeroDivisionError
                    else Processor.MissingValues col
                      (count_star (filter (fun r => is_missing (cell t col r)) (rows t)))
                      (inject_Z (count_star (filter (fun r => is_missing (cell t col r))
                                                    (rows t)))
                       / inject_Z (count_star (rows t)) * 100)%Q
                  else Processor.ErrorChecking col (ConversionException col)
                else Processor.ErrorChecking col (QueryError col)) Loader.key_columns
             ++ [s; d; n]).
Proof.
  destruct (check_data_ranges_Ok t) as (s & d & n & Hr). exists s, d, n.
  unfold Processor._perform_integrity_checks.
  rewrite (mapM_Ok_map _ _ _ (fun col _ => check_column_Ok t (count_star (rows t)) col)).
  cbn [bind]. rewrite Hr. reflexivity.
Qed.

(** X18.  [load_and_validate] never raises.  It always prints that it is
    loading.  When the table cannot be created it prints the error of the
    load and nothing else, changes nothing and answers [False]; otherwise
    it prints that the data are loaded, then the integrity report, and
    answers [True].  It answers [True] exactly when the processor's
    connection is open, holds no relation [accidents] yet and the file can
    be ingested.  So after an answer [True] a second call answers [False],
    with the error of the load. *)
Theorem load_and_validate_never_raises
    (p : Processor.AccidentsDataProcessor) (w : World) :
  exists b lines w',
    Processor.load_and_validate p w = (Ok (b, lines), w')
    /\ (b = false ->
        (exists e, lines = [Processor.LoadingData; Processor.ErrorLoading e]) /\ w' = w)
    /\ (b = true ->
        exists t report,
          relation w' (Processor.conn p) "accidents" = Some t
          /\ Processor._perform_integrity_checks t = Ok report
          /\ lines = Processor.LoadingData :: Processor.DataLoaded :: report)
    /\ (b = true <->
        is_open w (Processor.conn p) = true
        /\ relation w (Processor.conn p) "accidents" = None
        /\ exists t, read_csv_auto w (Processor.data_path p) = Ok t)
    /\ (b = true ->
        exists e,
          Processor.load_and_validate p w'
          = (Ok (false, [Processor.LoadingData; Processor.ErrorLoading e]), w')).
Proof.
  unfold Processor.load_and_validate, Processor.create_accidents, is_open, relation.
  destruct (lookup_conn (Processor.conn p) (conns w)) as [db|] eqn:Hdb.
  2:{ eexists false, _, w. split; [reflexivity|]. split; [eauto|].
      split; [discriminate|]. split; [|discriminate].
      split; [discriminate|]. intros (H & _). discriminate H. }
  destruct (lookup "accidents" db) as [t0|] eqn:Ht0.
  { eexists false, _, w. split; [reflexivity|]. split; [eauto|].
    split; [discriminate|]. split; [|discriminate].
    split; [discriminate|]. intros (_ & H & _). discriminate H. }
  destruct (read_csv_auto w (Processor.data_path p)) as [t|e] eqn:Hr; cbn [bind].
  2:{ eexists false, _, w. split; [reflexivity|]. split; [eauto|].
      split; [discriminate|]. split; [|discriminate].
      split; [discriminate|]. intros (_ & _ & t & H). discriminate H. }
  unfold create_table. cbn [conns].
  rewrite (lookup_conn_created _ "accidents" t _ db Hdb).
  cbn [lookup String.eqb Ascii.eqb Bool.eqb].
  destruct (integrity_checks_lines t) as (s & d & n & Hlines). rewrite Hlines. cbn [bind].
  eexists true, _, _. split; [reflexivity|]. split; [discriminate|]. split; [|split].
  - intros _. exists t. eexists. cbn [conns].
    rewrite (lookup_conn_created _ "accidents" t _ db Hdb).
    cbn [lookup String.eqb Ascii.eqb Bool.eqb].
    split; [reflexivity|]. split; [exact Hlines|reflexivity].
  - split; [|reflexivity]. intros _. split; [reflexivity|]. split; [reflexivity|]. eauto.
  - intros _. cbn [conns].
    rewrite (lookup_conn_created _ "accidents" t _ db Hdb).
    cbn [lookup String.eqb Ascii.eqb Bool.eqb]. eauto.
Qed.

(** X19.  The integrity report of the script against [validate_data] of
    the package, on the same relation.  The script always gets through its
    checks: where the package returns a report, the script prints the same
    count and percentage of missing values for every column of that report;
    on a relation with no row, where the package divides by zero, the
    script prints that error for every key column the relation has; and a
    key column the relation lacks, which the package passes over, is
    printed as an error of the query. *)
Theorem integrity_checks_agree (t : Table) :
  exists lines,
    Processor._perform_integrity_checks t = Ok lines
    /\ (forall r, Loader.validate_table t = Ok r ->
        forall col m, In (col, m) (Loader.missing_values r) ->
          In (Processor.MissingValues col (Loader.count m) (Loader.percentage m)) lines)
    /\ (rows t = [] ->
        forall col, In col Loader.key_columns -> has_column t col = true ->
          In (Processor.ErrorChecking col ZeroDivisionError) lines)
    /\ (forall col, In col Loader.key_columns -> has_column t col = false ->
          In (Processor.ErrorChecking col (QueryError col)) lines).
Proof.
  destruct (integrity_checks_lines t) as (s & d & n & Hl).
  eexists. split; [exact Hl|]. split; [|split].
  - intros r Hr col m Hin. right. right. apply in_or_app. left.
    unfold Loader.validate_table in Hr.
    destruct (Loader.check_all t (count_star (rows t)) Loader.key_columns [])
      as [entries|] eqn:Hall; cbn [bind] in Hr; [|discriminate].
    apply Ok_inj in Hr. subst r. cbn [Loader.missing_values] in Hin.
    pose proof (check_all_Ok _ _ _ _ _ Hall) as (Hentries & Hz & Htext).
    rewrite Hentries, app_nil_l in Hin. apply in_flat_map in Hin.
    destruct Hin as (c & Hc & Hin). destruct (listed t c) eqn:Hlisted; [|contradiction].
    destruct Hin as [Heq|[]]. inversion Heq; subst col m; clear Heq.
    cbn [Loader.count Loader.percentage].
    apply in_map_iff. exists c. split; [|assumption].
    rewrite (listed_has_column _ _ Hlisted), (Htext c Hc Hlisted).
    assert (Hne : count_star (rows t) <> 0)
      by (apply Hz, existsb_exists; exists c; auto).
    destruct (Z.eqb_spec (count_star (rows t)) 0); [contradiction|].
    reflexivity.
  - intros Hnil col Hkey Hhas. right. right. apply in_or_app. left.
    apply in_map_iff. exists col. split; [|assumption].
    rewrite Hhas, (textual_no_row t _ Hnil), Hnil. reflexivity.
  - intros col Hkey Hhas. right. right. apply in_or_app. left.
    apply in_map_iff. exists col. split; [|assumption]. now rewrite Hhas.
Qed.

(** * The analysis script *)

Import ScriptGroups.

(** A row of a counting query is made from one group: a key that occurs,
    with the number of rows that have it. *)
Lemma count_rows_In (E : Engine) (key : Row -> Key) (kept : list Row) c :
  In c (RiskScript.count_rows E key kept)
  <-> exists x, In x kept
        /\ c = (key x, count_star (filter (fun r => same_key Key_eq_dec (key r) (key x)) kept)).
Proof.
  unfold RiskScript.count_rows. rewrite in_map_iff.
  destruct (grouped_spec E key kept) as (_ & Hg & Hc). split.
  - intros ([k ms] & <- & Hin). destruct (Hg k ms Hin) as (-> & Hk).
    apply in_map_iff in Hk. destruct Hk as (x & <- & Hx). exists x. auto.
  - intros (x & Hx & ->). specialize (Hc x Hx). apply in_map_iff in Hc.
    destruct Hc as ([k ms] & Hk & Hin). cbn [fst] in Hk. subst k.
    exists (key x, ms). split; [|assumption].
    destruct (Hg _ _ Hin) as (-> & _). reflexivity.
Qed.

Lemma count_rows_NoDup (E : Engine) (key : Row -> Key) (kept : list Row) :
  NoDup (map fst (RiskScript.count_rows E key kept)).
Proof.
  unfold RiskScript.count_rows. rewrite map_map. cbn [fst].
  apply (grouped_spec E key kept).
Qed.

Lemma count_rows_positive (E : Engine) (key : Row -> Key) (kept : list Row) c :
  In c (RiskScript.count_rows E key kept) -> 0 < snd c.
Proof.
  intros Hc. apply count_rows_In in Hc. destruct Hc as (x & Hx & ->). cbn [snd].
  apply (count_star_pos _ x). apply filter_In. split; [assumption|apply same_key_refl].
Qed.

(** The rows of a counting query with first grouping value [v] are the
    groups of the rows whose first grouping value is [v]. *)
Lemma count_rows_first_total (E : Engine) (f g : Row -> Value) (kept : list Row) v :
  sum_Z (map snd (filter (fun c => same_value (RiskScript.dim 0 c) v)
                         (RiskScript.count_rows E (fun r => [f r; g r]) kept)))
  = count_star (filter (fun r => same_value (f r) v) kept).
Proof.
  rewrite <- (grouped_state_total E f g (fun _ => VNull) kept v).
  unfold state_total, RiskScript.count_rows.
  rewrite !map_filter_comm, !map_map. reflexivity.
Qed.

Lemma count_rows_first_size (E : Engine) (f g : Row -> Value) (kept : list Row) v :
  List.length (filter (fun c => same_value (RiskScript.dim 0 c) v)
                      (RiskScript.count_rows E (fun r => [f r; g r]) kept))
  = List.length (distinct Value_eq_dec
                   (map g (filter (fun r => same_value (f r) v) kept))).
Proof.
  rewrite <- (grouped_state_size E f g (fun _ => VNull) kept v).
  unfold RiskScript.count_rows. rewrite !map_filter_comm, !length_map. reflexivity.
Qed.

(** ** The five most frequent weather conditions of a state *)

Lemma number_rows_In seen l r :
  In r (RiskScript.number_rows seen l) ->
  exists c, In c l /\ RiskScript.wc_state r = RiskScript.dim 0 c
            /\ RiskScript.wc_weather r = RiskScript.dim 1 c
            /\ RiskScript.wc_count r = snd c.
Proof.
  revert seen. induction l as [|c l IH]; cbn [RiskScript.number_rows In]; intros seen;
    [contradiction|].
  intros [<-|Hin].
  - exists c. cbn. auto.
  - destruct (IH _ Hin) as (c' & Hc' & H). exists c'. auto.
Qed.

Lemma number_rows_cover seen l c :
  In c l ->
  exists r, In r (RiskScript.number_rows seen l)
            /\ RiskScript.wc_state r = RiskScript.dim 0 c
            /\ RiskScript.wc_weather r = RiskScript.dim 1 c
            /\ RiskScript.wc_count r = snd c.
Proof.
  revert seen. induction l as [|c' l IH]; cbn [RiskScript.number_rows In]; intros seen;
    [contradiction|].
  intros [->|Hin].
  - eexists. split; [left; reflexivity|]. cbn. auto.
  - destruct (IH (RiskScript.dim 0 c' :: seen) Hin) as (r & Hr & H). exists r. auto.
Qed.

(** Within one state the numbers run on from the rows already seen. *)
Lemma number_rows_rn seen l s :
  map RiskScript.rn
      (filter (fun r => same_value (RiskScript.wc_state r) s) (RiskScript.number_rows seen l))
  = map Z.of_nat
        (List.seq (S (List.length (filter (same_value s) seen)))
             (List.length (filter (fun c => same_value (RiskScript.dim 0 c) s) l))).
Proof.
  revert seen. induction l as [|c l IH]; intros seen; [reflexivity|].
  cbn [RiskScript.number_rows filter RiskScript.wc_state].
  destruct (same_value (RiskScript.dim 0 c) s) eqn:Hs.
  - apply same_value_true in Hs. subst s.
    cbn [map RiskScript.rn List.length List.seq]. rewrite IH. f_equal.
    + unfold count_star. lia.
    + cbn [filter]. rewrite same_value_refl. reflexivity.
  - rewrite IH. cbn [filter]. rewrite (same_value_sym s), Hs. reflexivity.
Qed.

Lemma number_rows_rn_ge seen l r :
  In r (RiskScript.number_rows seen l) ->
  1 + count_star (filter (same_value (RiskScript.wc_state r)) seen) <= RiskScript.rn r.
Proof.
  revert seen. induction l as [|c l IH]; intros seen; [contradiction|].
  cbn [RiskScript.number_rows In]. intros [<-|Hin].
  - cbn [RiskScript.wc_state RiskScript.rn]. lia.
  - specialize (IH _ Hin). rewrite count_seen_cons in IH.
    destruct (same_value (RiskScript.wc_state r) (RiskScript.dim 0 c)); lia.
Qed.

(** In rows ordered by count descending, a row numbered before another
    row of its state has at least its count. *)
Lemma number_rows_monotone seen l r r' :
  StronglySorted (le_of RiskScript.by_count_desc) l ->
  In r (RiskScript.number_rows seen l) -> In r' (RiskScript.number_rows seen l) ->
  RiskScript.wc_state r' = RiskScript.wc_state r ->
  RiskScript.rn r < RiskScript.rn r' ->
  RiskScript.wc_count r' <= RiskScript.wc_count r.
Proof.
  intros Hs. revert seen. induction Hs as [|c l Hs IH Hf]; intros seen; [contradiction|].
  cbn [RiskScript.number_rows In]. intros [<-|Hr] [<-|Hr'] Hst Hlt.
  - lia.
  - cbn [RiskScript.wc_count].
    destruct (number_rows_In _ _ _ Hr') as (c' & Hc' & _ & _ & ->).
    rewrite Forall_forall in Hf. specialize (Hf c' Hc').
    unfold le_of, RiskScript.by_count_desc in Hf. now apply Z.leb_le in Hf.
  - exfalso. pose proof (number_rows_rn_ge _ _ _ Hr) as Hge.
    rewrite count_seen_cons in Hge. cbn [RiskScript.wc_state RiskScript.rn] in Hst, Hlt.
    rewrite <- Hst in Hge. rewrite same_value_refl in Hge. lia.
  - now apply (IH (RiskScript.dim 0 c :: seen)).
Qed.

Lemma by_count_desc_script_total a b :
  RiskScript.by_count_desc a b = true \/ RiskScript.by_count_desc b a = true.
Proof. unfold RiskScript.by_count_desc. rewrite !Z.leb_le. lia. Qed.

Lemma by_count_desc_script_trans a b c :
  RiskScript.by_count_desc a b = true -> RiskScript.by_count_desc b c = true ->
  RiskScript.by_count_desc a c = true.
Proof. unfold RiskScript.by_count_desc. rewrite !Z.leb_le. lia. Qed.

Lemma by_state_count_script_total a b :
  RiskScript.by_state_count a b = true \/ RiskScript.by_state_count b a = true.
Proof. apply asc_then_count_desc_total. Qed.

Lemma by_state_count_script_trans a b c :
  RiskScript.by_state_count a b = true -> RiskScript.by_state_count b c = true ->
  RiskScript.by_state_count a c = true.
Proof. apply asc_then_count_desc_trans. Qed.

(** Of the numbers 1..k, min(5, k) are at most 5. *)
Lemma first_five (k : nat) :
  Z.of_nat (List.length (filter (fun n => n <=? 5) (map Z.of_nat (List.seq 1 k))))
  = Z.min 5 (Z.of_nat k).
Proof.
  assert (H : forall k a, (1 <= a)%nat ->
            List.length (filter (fun n => n <=? 5) (map Z.of_nat (List.seq a k)))
            = Nat.min (6 - a) k).
  { clear k. induction k as [|k IH]; intros a Ha; cbn [List.seq map filter].
    - now rewrite Nat.min_0_r.
    - destruct (Z.leb_spec (Z.of_nat a) 5); cbn [List.length]; rewrite IH by lia; lia. }
  rewrite (H k 1%nat) by lia. lia.
Qed.

(** Keeping some of the rows keeps their keys apart. *)
Lemma kept_keys_apart {B : Type} (key : RiskScript.WeatherCount -> B)
    (keep : RiskScript.WeatherCount -> bool) :
  forall rs, NoDup (map key rs) -> NoDup (map key (filter keep rs)).
Proof.
  intros rs Hnd. induction rs as [|r rs IH]; [constructor|].
  cbn [map] in Hnd. apply NoDup_cons_iff in Hnd. destruct Hnd as (Hnin & Hnd).
  cbn [filter]. destruct (keep r); [|now apply IH].
  cbn [map]. apply NoDup_cons; [|now apply IH].
  rewrite in_map_iff. intros (z & Hz & Hin). apply filter_In in Hin.
  apply Hnin. apply in_map_iff. exists z. tauto.
Qed.

(** What a result of the script's weather query is made of. *)
Lemma compute_weather_by_state_query_Ok E t out :
  RiskScript.compute_weather_by_state_query E t = Ok out ->
  exists ordered,
    Permutation
      (RiskScript.count_rows E
         (fun r => [cell t "State" r; cell t "Weather_Condition" r])
         (filter (paired_row t) (rows t)))
      ordered
    /\ StronglySorted (le_of RiskScript.by_count_desc) ordered
    /\ Permutation
         (map (fun c => ([RiskScript.wc_state c; RiskScript.wc_weather c],
                         RiskScript.wc_count c))
              (filter (fun c => RiskScript.rn c <=? 5) (RiskScript.number_rows [] ordered)))
         out
    /\ StronglySorted (le_of RiskScript.by_state_count) out.
Proof.
  unfold RiskScript.compute_weather_by_state_query.
  destruct (column t "State") as [state|] eqn:Hstate; [|discriminate].
  destruct (column t "Weather_Condition") as [weather|] eqn:Hw; [|discriminate].
  apply column_is_cell in Hstate, Hw. subst state weather.
  cbn [bind]. intros H. apply Ok_inj in H. subst out.
  eexists. split; [|split; [|split]].
  - etransitivity; [apply Permutation_sym, emit_perm|apply sort_by_perm].
  - apply sort_by_strongly_sorted;
      [apply by_count_desc_script_total|apply by_count_desc_script_trans].
  - etransitivity; [|apply sort_by_perm]. apply Permutation_map, filter_perm.
    apply Permutation_sym, emit_perm.
  - apply sort_by_strongly_sorted;
      [apply by_state_count_script_total|apply by_state_count_script_trans].
Qed.

Lemma pair_group_kept t s wx :
  pair_group t s wx
  = filter (fun r => same_key Key_eq_dec
                       [cell t "State" r; cell t "Weather_Condition" r] [s; wx])
           (filter (paired_row t) (rows t)).
Proof. unfold pair_group. now rewrite filter_filter_and. Qed.

Lemma state_pairs_kept t s :
  state_pairs t s
  = filter (fun r => same_value (cell t "State" r) s) (filter (paired_row t) (rows t)).
Proof. unfold state_pairs. now rewrite filter_filter_and. Qed.

(** X20.  [compute_weather_by_state] of the analysis script gives, for
    every state, its five most frequent weather conditions.  Each row
    counts the rows of its state and weather condition (both neither NULL
    nor empty), no pair occurs twice, the rows are ordered by state and by
    count descending within a state; a state has min(5, k) rows when its
    rows have k distinct weather conditions; and a weather condition of a
    state that is left out has no more rows than any that is listed for
    that state. *)
Theorem weather_by_state_top5 (E : Engine) (t : Table) (out : list RiskScript.CountRow) :
  RiskScript.compute_weather_by_state_query E t = Ok out ->
  (forall c, In c out ->
     exists s wx, fst c = [s; wx]
                  /\ snd c = count_star (pair_group t s wx) /\ 0 < snd c)
  /\ NoDup (map fst out)
  /\ StronglySorted (le_of RiskScript.by_state_count) out
  /\ (forall s,
        Z.of_nat (List.length (of_first s out))
        = Z.min 5 (count_distinct (map (cell t "Weather_Condition") (state_pairs t s))))
  /\ (forall c x, In c out -> In x (rows t) -> paired_row t x = true ->
        cell t "State" x = RiskScript.dim 0 c ->
        ~ In [cell t "State" x; cell t "Weather_Condition" x] (map fst out) ->
        count_star (pair_group t (cell t "State" x) (cell t "Weather_Condition" x))
        <= snd c).
Proof.
  intros H. apply compute_weather_by_state_query_Ok in H.
  destruct H as (ordered & Hord & Hsorted & Hout & Hs_out).
  set (kept := filter (paired_row t) (rows t)) in *.
  set (state := cell t "State") in *.
  set (weather := cell t "Weather_Condition") in *.
  set (key := fun r : Row => [state r; weather r]) in *.
  set (counts := RiskScript.count_rows E key kept) in *.
  set (numbered := RiskScript.number_rows [] ordered) in *.
  set (proj := fun c => ([RiskScript.wc_state c; RiskScript.wc_weather c],
                         RiskScript.wc_count c)) in *.
  (* a numbered row, traced back to a counted row *)
  assert (Hnum : forall r, In r numbered ->
            exists x, In x kept /\ RiskScript.wc_state r = state x
              /\ RiskScript.wc_weather r = weather x
              /\ RiskScript.wc_count r = count_star (pair_group t (state x) (weather x))).
  { intros r Hr. destruct (number_rows_In _ _ _ Hr) as (c & Hc & Hs & Hw & Hn).
    apply (Permutation_in _ (Permutation_sym Hord)) in Hc.
    apply count_rows_In in Hc. destruct Hc as (x & Hx & ->).
    exists x. rewrite Hs, Hw, Hn, pair_group_kept. auto. }
  assert (Hin_out : forall c, In c out <->
            exists r, In r numbered /\ RiskScript.rn r <= 5 /\ c = proj r).
  { intros c. split.
    - intros Hc. apply (Permutation_in _ (Permutation_sym Hout)) in Hc.
      apply in_map_iff in Hc. destruct Hc as (r & <- & Hr).
      apply filter_In in Hr. destruct Hr as (Hr & Hle). apply Z.leb_le in Hle. eauto.
    - intros (r & Hr & Hle & ->). apply (Permutation_in _ Hout).
      apply in_map_iff. exists r. split; [reflexivity|].
      apply filter_In. split; [assumption|]. now apply Z.leb_le. }
  split; [|split; [|split; [|split]]].
  - intros c Hc. apply Hin_out in Hc. destruct Hc as (r & Hr & _ & ->).
    destruct (Hnum r Hr) as (x & Hx & Hs & Hw & Hn).
    exists (state x), (weather x). subst proj. cbn [fst snd].
    rewrite Hs, Hw, Hn. split; [reflexivity|]. split; [reflexivity|].
    apply (count_star_pos _ x). rewrite pair_group_kept.
    apply filter_In. split; [assumption|apply same_key_refl].
  - eapply Permutation_NoDup; [apply Permutation_map; exact Hout|].
    rewrite map_map. subst proj. cbn [fst].
    apply kept_keys_apart.
    assert (Hk : map (fun r => [RiskScript.wc_state r; RiskScript.wc_weather r]) numbered
                 = map fst ordered).
    { subst numbered.
      assert (Hall : forall c, In c ordered -> [RiskScript.dim 0 c; RiskScript.dim 1 c] = fst c).
      { intros c Hc. apply (Permutation_in _ (Permutation_sym Hord)) in Hc.
        apply count_rows_In in Hc. destruct Hc as (x & _ & ->). reflexivity. }
      enough (Hgen : forall seen,
                map (fun r => [RiskScript.wc_state r; RiskScript.wc_weather r])
                    (RiskScript.number_rows seen ordered) = map fst ordered)
        by apply Hgen.
      clear -Hall. induction ordered as [|c l IH]; intros seen; [reflexivity|].
      cbn [RiskScript.number_rows map RiskScript.wc_state RiskScript.wc_weather].
      rewrite (Hall c (or_introl eq_refl)), IH; [reflexivity|].
      intros c' Hc'. apply Hall. now right. }
    change (NoDup (map (fun r => [RiskScript.wc_state r; RiskScript.wc_weather r])
                       numbered)).
    rewrite Hk. eapply Permutation_NoDup; [apply Permutation_map; exact Hord|].
    apply count_rows_NoDup.
  - exact Hs_out.
  - intros s. unfold of_first.
    rewrite <- (Permutation_length (filter_perm _ _ _ Hout)).
    rewrite map_filter_comm, length_map. subst proj. cbn [RiskScript.dim fst nth].
    rewrite filter_comm.
    rewrite <- (length_map RiskScript.rn).
    rewrite <- (map_filter_comm RiskScript.rn (fun n => n <=? 5)).
    subst numbered. rewrite number_rows_rn. cbn [filter List.length].
    rewrite first_five.
    rewrite <- (Permutation_length
                  (filter_perm (fun c => same_value (RiskScript.dim 0 c) s) _ _ Hord)).
    subst counts key. rewrite (count_rows_first_size E state weather kept s).
    unfold count_distinct, count_star. rewrite state_pairs_kept. fold kept. fold state.
    fold weather. f_equal. f_equal. f_equal. f_equal. symmetry. apply filter_all.
    intros w Hw. apply in_map_iff in Hw. destruct Hw as (x & <- & Hx).
    apply filter_In in Hx. destruct Hx as (Hx & _). unfold kept in Hx.
    apply filter_In in Hx. destruct Hx as (_ & Hx).
    unfold paired_row in Hx. apply andb_prop in Hx. destruct Hx as (_ & Hx).
    apply andb_prop in Hx. now destruct Hx as (Hx & _).
  - intros c x Hc Hx Hpaired Hst Hnin.
    apply Hin_out in Hc. destruct Hc as (r & Hr & Hle & ->).
    assert (Hxk : In x kept) by (apply filter_In; auto).
    assert (Hc' : In (key x, count_star (filter (fun y => same_key Key_eq_dec (key y) (key x))
                                                kept)) ordered).
    { apply (Permutation_in _ Hord). apply count_rows_In. eauto. }
    destruct (number_rows_cover [] _ _ Hc') as (r' & Hr' & Hs' & Hw' & Hn').
    fold numbered in Hr'. cbn [RiskScript.dim fst snd nth key] in Hs', Hw', Hn'.
    subst proj. cbn [snd fst RiskScript.dim nth] in *.
    rewrite pair_group_kept. fold kept. fold state. fold weather.
    change (fun r0 => same_key Key_eq_dec [state r0; weather r0] [state x; weather x])
      with (fun y => same_key Key_eq_dec (key y) (key x)).
    rewrite <- Hn'.
    destruct (Z.le_gt_cases (RiskScript.rn r') 5) as [Hle'|Hgt].
    + exfalso. apply Hnin. apply in_map_iff.
      exists ([RiskScript.wc_state r'; RiskScript.wc_weather r'], RiskScript.wc_count r').
      split; [cbn [fst]; now rewrite Hs', Hw'|].
      apply Hin_out. exists r'. auto.
    + apply (number_rows_monotone [] ordered r r' Hsorted Hr Hr'); [congruence|lia].
Qed.

Lemma weather_by_state_top5_witness :
  exists out,
    RiskScript.compute_weather_by_state_query fifo Scenario.mixed = Ok out
    /\ Z.of_nat (List.length (of_first (VStr "CA") out))
       = Z.min 5 (count_distinct (map (cell Scenario.mixed "Weather_Condition")
                                      (state_pairs Scenario.mixed (VStr "CA")))).
Proof.
  destruct (RiskScript.compute_weather_by_state_query fifo Scenario.mixed) as [out|] eqn:Hs;
    [|vm_compute in Hs; discriminate Hs].
  destruct (weather_by_state_top5 fifo Scenario.mixed out Hs) as (_ & _ & _ & H & _).
  exists out. split; [reflexivity|apply H].
Defined.

(** ** Severity trends *)

Lemma by_year_severity_iff a b :
  RiskScript.by_year_severity a b = true
  <-> value_leb (RiskScript.trend_year a) (RiskScript.trend_year b) = true
      /\ (value_leb (RiskScript.trend_year b) (RiskScript.trend_year a) = true ->
          value_leb (RiskScript.trend_severity a) (RiskScript.trend_severity b) = true).
Proof.
  unfold RiskScript.by_year_severity.
  destruct (value_leb (RiskScript.trend_year a) (RiskScript.trend_year b)),
    (value_leb (RiskScript.trend_year b) (RiskScript.trend_year a));
    intuition (try discriminate).
Qed.

Lemma by_year_severity_total a b :
  RiskScript.by_year_severity a b = true \/ RiskScript.by_year_severity b a = true.
Proof.
  rewrite !by_year_severity_iff.
  destruct (value_leb_total (RiskScript.trend_year a) (RiskScript.trend_year b)) as [H|H];
    [destruct (value_leb (RiskScript.trend_year b) (RiskScript.trend_year a)) eqn:H'
    |destruct (value_leb (RiskScript.trend_year a) (RiskScript.trend_year b)) eqn:H'];
    try (destruct (value_leb_total (RiskScript.trend_severity a)
                                   (RiskScript.trend_severity b)); [left|right]; now auto).
  - left. split; [assumption|discriminate].
  - right. split; [assumption|discriminate].
Qed.

Lemma by_year_severity_trans a b c :
  RiskScript.by_year_severity a b = true -> RiskScript.by_year_severity b c = true ->
  RiskScript.by_year_severity a c = true.
Proof.
  rewrite !by_year_severity_iff. intros [Hab Hba] [Hbc Hcb]. split.
  - eapply value_leb_trans; eassumption.
  - intros Hca.
    assert (value_leb (RiskScript.trend_year b) (RiskScript.trend_year a) = true)
      by (eapply value_leb_trans; eassumption).
    assert (value_leb (RiskScript.trend_year c) (RiskScript.trend_year b) = true)
      by (eapply value_leb_trans; eassumption).
    eapply value_leb_trans; eauto.
Qed.

Lemma trend_group_kept t y sv :
  trend_group t y sv
  = filter (fun r => same_key Key_eq_dec [year_of t r; cell t "Severity" r] [y; sv])
           (filter (dated_severity t) (rows t)).
Proof. unfold trend_group. now rewrite filter_filter_and. Qed.

Lemma year_group_kept t y :
  year_group t y
  = filter (fun r => same_value (year_of t r) y) (filter (dated_severity t) (rows t)).
Proof. unfold year_group. now rewrite filter_filter_and. Qed.

(** What a result of the trends query is made of. *)
Lemma compute_severity_trends_query_Ok E t out :
  RiskScript.compute_severity_trends_query E t = Ok out ->
  let counts := RiskScript.count_rows E (fun r => [year_of t r; cell t "Severity" r])
                  (filter (dated_severity t) (rows t)) in
  Permutation (map (RiskScript.trend_row counts) counts) out
  /\ StronglySorted (le_of RiskScript.by_year_severity) out.
Proof.
  unfold RiskScript.compute_severity_trends_query.
  destruct (column t "Start_Time") as [st|] eqn:Hst; [|discriminate].
  pass_guards.
  destruct (column t "Severity") as [sev|] eqn:Hsev; [|discriminate].
  apply column_is_cell in Hst, Hsev. subst st sev.
  cbn [bind]. intros H. apply Ok_inj in H. subst out. cbn zeta. split.
  - etransitivity; [|apply sort_by_perm]. apply Permutation_map.
    apply Permutation_sym, emit_perm.
  - apply sort_by_strongly_sorted; [apply by_year_severity_total|apply by_year_severity_trans].
Qed.

(** X21.  [compute_severity_trends] of the analysis script.  Each row
    counts the rows of its year and severity (start time and severity not
    NULL), at least one; its percentage is that count times 100 over the
    number of counted rows of its year; no pair of year and severity occurs
    twice; the rows are ordered by year and, within a year, by severity;
    and the percentages of every year that occurs add up to 100 (the
    percentages being kept as rationals). *)
Theorem severity_trends_shares (E : Engine) (t : Table) (out : list RiskScript.TrendRow) :
  RiskScript.compute_severity_trends_query E t = Ok out ->
  (forall r, In r out ->
     RiskScript.trend_count r
     = count_star (trend_group t (RiskScript.trend_year r) (RiskScript.trend_severity r))
     /\ 0 < RiskScript.trend_count r
     /\ RiskScript.trend_percentage r
        = (inject_Z (RiskScript.trend_count r * 100)
           / inject_Z (count_star (year_group t (RiskScript.trend_year r))))%Q)
  /\ NoDup (map (fun r => [RiskScript.trend_year r; RiskScript.trend_severity r]) out)
  /\ StronglySorted (le_of RiskScript.by_year_severity) out
  /\ (forall y, of_year y out <> [] ->
        (sum_Q (map RiskScript.trend_percentage (of_year y out)) == 100)%Q).
Proof.
  intros H. apply compute_severity_trends_query_Ok in H. cbn zeta in H.
  destruct H as (Hout & Hsorted).
  set (kept := filter (dated_severity t) (rows t)) in *.
  set (year := year_of t) in *.
  set (sev := cell t "Severity") in *.
  set (key := fun r : Row => [year r; sev r]) in *.
  set (counts := RiskScript.count_rows E key kept) in *.
  assert (Htotal : forall y,
            RiskScript.year_total counts y = count_star (year_group t y)).
  { intros y. unfold RiskScript.year_total. subst counts key.
    rewrite (count_rows_first_total E year sev kept y), year_group_kept. reflexivity. }
  assert (Hrow : forall r, In r out ->
            exists x, In x kept /\ RiskScript.trend_year r = year x
              /\ RiskScript.trend_severity r = sev x
              /\ RiskScript.trend_count r
                 = count_star (trend_group t (year x) (sev x))
              /\ RiskScript.trend_percentage r
                 = (inject_Z (RiskScript.trend_count r * 100)
                    / inject_Z (count_star (year_group t (year x))))%Q).
  { intros r Hr. apply (Permutation_in _ (Permutation_sym Hout)) in Hr.
    apply in_map_iff in Hr. destruct Hr as (c & <- & Hc).
    apply count_rows_In in Hc. destruct Hc as (x & Hx & ->).
    exists x. unfold RiskScript.trend_row.
    cbn [RiskScript.trend_year RiskScript.trend_severity RiskScript.trend_count
         RiskScript.trend_percentage RiskScript.dim fst snd nth key].
    rewrite Htotal, trend_group_kept. auto 6. }
  split; [|split; [|split]].
  - intros r Hr. destruct (Hrow r Hr) as (x & Hx & -> & -> & Hc & Hp).
    split; [assumption|]. split; [|assumption].
    rewrite Hc. apply (count_star_pos _ x). rewrite trend_group_kept.
    apply filter_In. split; [assumption|apply same_key_refl].
  - eapply Permutation_NoDup; [apply Permutation_map; exact Hout|].
    rewrite map_map.
    rewrite (map_ext_in _ (fun c : RiskScript.CountRow => fst c));
      [exact (count_rows_NoDup E key kept)|].
    intros c Hc. apply count_rows_In in Hc. destruct Hc as (x & _ & ->). reflexivity.
  - exact Hsorted.
  - intros y Hne.
    assert (Hperm : Permutation
              (map (RiskScript.trend_row counts)
                   (filter (fun c => same_value (RiskScript.dim 0 c) y) counts))
              (of_year y out)).
    { unfold of_year. rewrite <- (map_filter_comm (RiskScript.trend_row counts)
                                   (fun r => same_value (RiskScript.trend_year r) y)).
      apply filter_perm. exact Hout. }
    assert (Hpos : 0 < count_star (year_group t y)).
    { destruct (of_year y out) as [|r rs] eqn:Hrs; [contradiction|].
      assert (Hr : In r (of_year y out)) by (rewrite Hrs; now left).
      unfold of_year in Hr. apply filter_In in Hr. destruct Hr as (Hr & Hs).
      apply same_value_true in Hs.
      destruct (Hrow r Hr) as (x & Hx & Hy & _).
      apply (count_star_pos _ x). rewrite year_group_kept.
      apply filter_In. split; [assumption|]. apply same_value_true. fold year. congruence. }
    rewrite <- (sum_Q_perm _ _ (Permutation_map RiskScript.trend_percentage Hperm)).
    rewrite map_map.
    rewrite (map_ext_in _ (fun c : RiskScript.CountRow =>
                             inject_Z (snd c * 100)
                             / inject_Z (count_star (year_group t y)))%Q).
    + rewrite <- (map_map (fun c : RiskScript.CountRow => snd c)
                          (fun n => inject_Z (n * 100)
                                       / inject_Z (count_star (year_group t y)))%Q).
      rewrite sum_Q_shares.
      assert (Hsum : sum_Z (map (fun c : RiskScript.CountRow => snd c)
                                (filter (fun c => same_value (RiskScript.dim 0 c) y) counts))
                     = count_star (year_group t y)) by exact (Htotal y).
      rewrite Hsum. now apply share_of_total.
    + intros c Hc. apply filter_In in Hc. destruct Hc as (_ & Hs).
      apply same_value_true in Hs. unfold RiskScript.trend_row.
      cbn [RiskScript.trend_percentage]. now rewrite Htotal, Hs.
Qed.

Lemma severity_trends_shares_witness :
  exists out,
    RiskScript.compute_severity_trends_query fifo Scenario.mixed = Ok out
    /\ (sum_Q (map RiskScript.trend_percentage (of_year (VInt 2021) out)) == 100)%Q.
Proof.
  destruct (RiskScript.compute_severity_trends_query fifo Scenario.mixed) as [out|] eqn:Hs;
    [|vm_compute in Hs; discriminate Hs].
  destruct (severity_trends_shares fifo Scenario.mixed out Hs) as (_ & _ & _ & H).
  exists out. split; [reflexivity|]. apply H.
  vm_compute in Hs. apply Ok_inj in Hs. rewrite <- Hs. discriminate.
Defined.

(** ** Annual totals of the script and of the package *)

Lemma annual_group_kept t y s :
  annual_group t y s
  = filter (fun r => same_key Key_eq_dec [year_of t r; cell t "State" r] [y; s])
           (filter (located_row t) (rows t)).
Proof. unfold annual_group. now rewrite filter_filter_and. Qed.

Lemma count_star_split {A : Type} (p : A -> bool) (l : list A) :
  count_star l = count_star (filter p l) + count_star (filter (fun x => negb (p x)) l).
Proof. unfold count_star. rewrite <- (filter_length p l) at 1. lia. Qed.

Lemma by_year_total_script_total a b :
  RiskScript.by_year_total a b = true \/ RiskScript.by_year_total b a = true.
Proof. apply asc_then_count_desc_total. Qed.

Lemma by_year_total_script_trans a b c :
  RiskScript.by_year_total a b = true -> RiskScript.by_year_total b c = true ->
  RiskScript.by_year_total a c = true.
Proof. apply asc_then_count_desc_trans. Qed.

(** X22.  The annual totals of the script against the rates of the
    package, on the same relation.  The script does not ask for a severity:
    for every row of [compute_state_risk_rates], [compute_annual_state_totals]
    succeeds and has a row of the same year and state, whose total is the
    package's total plus the number of rows of that year and state whose
    severity is NULL; so it is never smaller. *)
Theorem annual_totals_cover_rates (E E' : Engine) (t : Table)
    (rates : list RateRow) (r : RateRow) :
  compute_state_risk_rates_query E t = Ok rates -> In r rates ->
  exists totals c,
    RiskScript.compute_annual_state_totals_query E' t = Ok totals
    /\ In c totals
    /\ fst c = [rate_year r; rate_state r]
    /\ snd c = count_star (annual_group t (rate_year r) (rate_state r))
    /\ snd c = total_accidents r
               + count_star (filter (fun x => negb (has_severity t x))
                                    (annual_group t (rate_year r) (rate_state r)))
    /\ total_accidents r <= snd c.
Proof.
  intros H Hin.
  destruct (In_state_risk_rates E t rates r H Hin) as (Ht & Hpos & _).
  unfold compute_state_risk_rates_query in H.
  destruct (column t "Start_Time") as [st|] eqn:Hst; [|discriminate].
  destruct (column t "State") as [state|] eqn:Hstate; [|discriminate].
  clear H.
  pose proof (column_is_cell _ _ _ Hst) as ->.
  pose proof (column_is_cell _ _ _ Hstate) as ->.
  unfold RiskScript.compute_annual_state_totals_query.
  rewrite Hst, Hstate. cbn [bind].
  (* a complete row of the year and state *)
  assert (Hx : exists x, In x (rate_group t (rate_year r) (rate_state r))).
  { rewrite Ht in Hpos. destruct (rate_group t (rate_year r) (rate_state r)) as [|x l];
      [unfold count_star in Hpos; cbn in Hpos; lia|]. exists x. now left. }
  destruct Hx as (x & Hx). unfold rate_group in Hx. apply filter_In in Hx.
  destruct Hx as (Hxin & Hx). apply andb_prop in Hx. destruct Hx as (Hc & Hk).
  apply same_key_true in Hk.
  assert (Hloc : located_row t x = true).
  { unfold complete_row, risk_where in Hc. unfold located_row.
    apply andb_prop in Hc. destruct Hc as (Hc & _). exact Hc. }
  set (kept := filter (located_row t) (rows t)).
  set (key := fun r0 : Row => [extract Year (cell t "Start_Time" r0); cell t "State" r0]).
  assert (Hsplit : filter (has_severity t) (annual_group t (rate_year r) (rate_state r))
                   = rate_group t (rate_year r) (rate_state r)).
  { unfold annual_group, rate_group. rewrite filter_filter_and. apply filter_ext_eq.
    intros y. unfold complete_row, risk_where, located_row, has_severity.
    destruct (is_not_null (cell t "Start_Time" y)),
      (is_not_null (cell t "State" y) && ne_empty (cell t "State" y)),
      (is_not_null (cell t "Severity" y)),
      (same_key Key_eq_dec [year_of t y; cell t "State" y] [rate_year r; rate_state r]);
      reflexivity. }
  eexists. exists (key x, count_star (filter (fun y => same_key Key_eq_dec (key y) (key x)) kept)).
  split; [reflexivity|].
  assert (Hkey : key x = [rate_year r; rate_state r]) by exact Hk.
  assert (Hcount : count_star (filter (fun y => same_key Key_eq_dec (key y) (key x)) kept)
                   = count_star (annual_group t (rate_year r) (rate_state r))).
  { rewrite annual_group_kept, Hkey. reflexivity. }
  split; [|split; [|split; [|split]]].
  - apply In_sort_by. apply count_rows_In. exists x. split; [|reflexivity].
    apply filter_In. auto.
  - exact Hkey.
  - exact Hcount.
  - cbn [snd]. rewrite Hcount, Ht, <- Hsplit. apply count_star_split.
  - cbn [snd]. rewrite Hcount, Ht, <- Hsplit. apply count_star_filter_le.
Qed.

Lemma annual_totals_cover_rates_witness :
  exists totals c,
    RiskScript.compute_annual_state_totals_query lifo Scenario.mixed = Ok totals
    /\ In c totals
    /\ fst c = [rate_year Scenario.ca_2021; rate_state Scenario.ca_2021]
    /\ total_accidents Scenario.ca_2021 <= snd c.
Proof.
  destruct (compute_state_risk_rates_query fifo Scenario.mixed) as [rates|] eqn:Hs;
    [|vm_compute in Hs; discriminate Hs].
  assert (Hin : In Scenario.ca_2021 rates).
  { vm_compute in Hs. apply Ok_inj in Hs. rewrite <- Hs. left. reflexivity. }
  destruct (annual_totals_cover_rates fifo lifo Scenario.mixed rates Scenario.ca_2021 Hs Hin)
    as (totals & c & H1 & H2 & H3 & _ & _ & H4).
  exists totals, c. auto.
Defined.

(** ** Saving the results of the script *)




